(** * DiceGame: the lobby and turn-based game state machine of [server.js]

    A shallow embedding of the game logic of the Socket.IO server: table
    seating, the turn engine with its timers, winner determination with
    sudden death, and the leave logic.

    - JavaScript objects that are shared by reference (lobbies, seated
      players, sockets) live in explicit stores of the [World]; a closure
      holds the addresses of the objects it captured.
    - A handler runs to completion: it is a function from the world to its
      outcome, a new world or an uncaught exception.
    - [setTimeout] continuations and [db.run] callbacks are data: they stay
      pending in the world until the environment fires them, a timer not
      before it is due, a database statement with success or failure.
    - [Math.random()] reads a stream of draws; a draw is a multiple of 2^-53
      in [0, 1), and its product with an integer is the nearest double, as
      IEEE 754 rounds it.
    - Numbers are the integers of [Z] that doubles hold: what [parseInt]
      reads and what [getRandomInt] computes is rounded to the nearest
      double ([Js.num]).  Balances, bets and pots are taken below 2^53,
      where sums and differences of integers are exact.  Numerals beyond
      the range of doubles ([Infinity]) and the exponent form in which a
      text shows numbers from 10^21 on are outside the model.
    - Strings are UTF-8 byte strings.

    The handlers for authentication, lobby creation and joining, the lobby
    list and chat are not part of this development, nor is room membership,
    which the transport keeps. *)

From Stdlib Require Import Ascii QArith Qround.
From stdpp Require Import base strings list gmap pretty.

Open Scope Z_scope.

(** ** JavaScript primitives *)

Module Js.

(** [StrWhiteSpaceChar] in one byte: TAB, LF, VT, FF, CR and SP. *)
Definition is_ws (c : ascii) : bool :=
  let n := Z.of_nat (nat_of_ascii c) in
  ((9 <=? n) && (n <=? 13)) || (n =? 32).

(** The first byte of a longer [StrWhiteSpaceChar]. *)
Definition is_ws_lead (c : ascii) : bool :=
  let n := Z.of_nat (nat_of_ascii c) in
  (n =? 194) || (n =? 225) || (n =? 226) || (n =? 227) || (n =? 239).

(** [StrWhiteSpaceChar] in two bytes: U+00A0. *)
Definition is_ws2 (c1 c2 : ascii) : bool :=
  (Z.of_nat (nat_of_ascii c1) =? 194) && (Z.of_nat (nat_of_ascii c2) =? 160).

(** [StrWhiteSpaceChar] in three bytes: U+1680, U+2000 to U+200A, U+2028,
    U+2029, U+202F, U+205F, U+3000 and U+FEFF. *)
Definition is_ws3 (c1 c2 c3 : ascii) : bool :=
  let a := Z.of_nat (nat_of_ascii c1) in
  let b := Z.of_nat (nat_of_ascii c2) in
  let c := Z.of_nat (nat_of_ascii c3) in
  ((a =? 225) && (b =? 154) && (c =? 128))
  || ((a =? 226) && (b =? 128)
      && (((128 <=? c) && (c <=? 138)) || (c =? 168) || (c =? 169) || (c =? 175)))
  || ((a =? 226) && (b =? 129) && (c =? 159))
  || ((a =? 227) && (b =? 128) && (c =? 128))
  || ((a =? 239) && (b =? 187) && (c =? 191)).

(** The string without its leading white space. *)
Fixpoint skip_ws (s : string) : string :=
  match s with
  | String c r =>
      if is_ws c then skip_ws r
      else if is_ws_lead c then
        match r with
        | String c2 r2 =>
            if is_ws2 c c2 then skip_ws r2
            else
              match r2 with
              | String c3 r3 => if is_ws3 c c2 c3 then skip_ws r3 else s
              | EmptyString => s
              end
        | EmptyString => s
        end
      else s
  | EmptyString => s
  end.

(** The double nearest to an integer [p >= 0] below 2^1024: [p] rounded to
    53 significant bits, a tie going to the even significand. *)
Definition nearest (p : Z) : Z :=
  let e := Z.log2 p - 52 in
  if e <=? 0 then p
  else
    let q := p / 2 ^ e in
    let r := p mod 2 ^ e in
    if (r <? 2 ^ (e - 1)) || ((r =? 2 ^ (e - 1)) && Z.even q)
    then q * 2 ^ e else (q + 1) * 2 ^ e.

(** The Number value of an integer: what an integer literal, a sum or a
    difference of integer-valued doubles, or a numeral read by [parseInt]
    evaluates to. *)
Definition num (x : Z) : Z := if x <? 0 then - nearest (- x) else nearest x.

(** Value of a character as a digit ([0-9], [a-z], [A-Z]). *)
Definition digit_val (c : ascii) : option Z :=
  let n := Z.of_nat (nat_of_ascii c) in
  if (48 <=? n) && (n <=? 57) then Some (n - 48)
  else if (97 <=? n) && (n <=? 122) then Some (n - 87)
  else if (65 <=? n) && (n <=? 90) then Some (n - 55)
  else None.

(** The longest prefix of radix-[R] digits, read as a number; [acc] is
    [None] until a first digit has been read. *)
Fixpoint digits (R : Z) (s : string) (acc : option Z) : option Z :=
  match s with
  | String c r =>
      match digit_val c with
      | Some d =>
          if d <? R
          then digits R r (Some (match acc with Some a => a * R + d | None => d end))
          else acc
      | None => acc
      end
  | EmptyString => acc
  end.

(** [parseInt(string)] without a radix, on the string [ToString] gives for
    the argument.  [None] is [NaN]; otherwise the result is the double
    nearest to the integer the digits denote. *)
Definition parseInt (input : string) : option Z :=
  let s := skip_ws input in
  let '(sign, s) :=
    match s with
    | String "-"%char r => (-1, r)
    | String "+"%char r => (1, r)
    | _ => (1, s)
    end in
  let '(R, s) :=
    match s with
    | String "0"%char (String "x"%char r) => (16, r)
    | String "0"%char (String "X"%char r) => (16, r)
    | _ => (10, s)
    end in
  match digits R s None with
  | Some n => Some (num (sign * n))
  | None => None
  end.

(** A nullable number ([lastRoll], [highest]): [None] is [null]. *)
Definition toNumber (v : option Z) : Z :=
  match v with Some n => n | None => 0 end.

(** [a > b]: both operands go through [ToNumber]. *)
Definition gt (a b : option Z) : bool := toNumber b <? toNumber a.

(** [a === b] on nullable numbers. *)
Definition strict_eq (a b : option Z) : bool :=
  match a, b with
  | Some x, Some y => x =? y
  | None, None => true
  | _, _ => false
  end.

(** Truthiness of a nullable string (the empty string is falsy). *)
Definition truthy (v : option string) : bool :=
  match v with
  | Some s => negb (String.eqb s "")
  | None => false
  end.

(** [a === b] where [a] is a string and [b] a nullable string. *)
Definition str_eq_opt (a : string) (b : option string) : bool :=
  match b with Some s => String.eqb a s | None => false end.

(** [Math.floor(r * n)] for a double [r] = a / 2^b and an integer-valued
    double [n]: the product is the double nearest to a * n / 2^b, which is
    [num (a * n) / 2^b]. *)
Definition floor_mul (r : Q) (n : Z) : Z := Qfloor (Qmake (num (Qnum r * n)) (Qden r)).

(** [[a[i], a[j]] = [a[j], a[i]]] for indices inside the array. *)
Definition swap {A} (i j : nat) (a : list A) : list A :=
  match a !! i, a !! j with
  | Some x, Some y => <[j := x]> (<[i := y]> a)
  | _, _ => a
  end.

End Js.

(** ** Data model *)

Inductive GameState := IDLE | BETTING | PLAYING | FINISHED.

Definition GameState_eqb (a b : GameState) : bool :=
  match a, b with
  | IDLE, IDLE | BETTING, BETTING | PLAYING, PLAYING | FINISHED, FINISHED => true
  | _, _ => false
  end.

(** [{ id, nickname, lastRoll }], an element of [lobby.players]. *)
Record Player := {
  p_id : string;
  p_nickname : string;
  lastRoll : option Z
}.

(** [{ id, nickname }], an element of [lobby.users]. *)
Record Member := {
  u_id : string;
  u_nickname : string
}.

(** [socket.userData]. *)
Record UserData := {
  ud_id : Z;
  ud_nickname : string;
  balance : Z
}.

(** A socket object: [userData] and [currentLobby] are [undefined]/[null]
    when [None]; [connected] tells whether [io.sockets.sockets] still holds
    the socket. *)
Record Socket := {
  userData : option UserData;
  currentLobby : option string;
  connected : bool
}.

(** A row of the [users] table (the password column plays no role here). *)
Record UserRow := {
  row_id : Z;
  row_nickname : string;
  row_balance : Z
}.

(** A lobby object.  [players] holds references to player objects, [timer]
    the handle of the last armed turn timer. *)
Record Lobby := {
  lobby_id : string;
  lobby_name : string;
  roomHostId : string;
  roomHostName : string;
  tableHostId : option string;
  lastWinnerId : option string;
  state : GameState;
  bet : Z;
  pot : Z;
  users : list Member;
  players : list nat;
  turnOrder : list string;
  turnIndex : nat;
  timer : option nat
}.

(** What [packLobbyData] sends. *)
Record Snapshot := {
  s_id : string;
  s_roomHostId : string;
  s_tableHostId : option string;
  s_lastWinnerId : option string;
  s_state : GameState;
  s_bet : Z;
  s_pot : Z;
  s_users : list Member;
  s_players : list Player;
  s_currentTurn : option string
}.

(** An entry of the [lobby_list] message. *)
Record LobbyInfo := {
  li_id : string;
  li_name : string;
  li_users : nat;
  li_host : string
}.

Inductive Payload :=
| PNone
| PText (text : string)
| PBalance (b : Z)
| PRoom (snap : Snapshot)
| PChat (nick text : string)
| PTurn (playerId nickname : string)
| PDice (playerId : string) (d1 d2 sum : Z)
| PGameOver (winner : string) (amount : Z)
| PLobbyList (l : list LobbyInfo).

Inductive Target :=
| ToSocket (s : string)
| ToRoom (id : string)
| ToAll.

(** One call of [emit]. *)
Record Emit := {
  e_target : Target;
  e_event : string;
  e_payload : Payload
}.

(** The closures handed to [setTimeout], by what they capture. *)
Inductive TimerAct :=
| AutoRoll (la pa : nat)
| Reveal (la pa : nat) (d1 d2 : Z)
| Advance (la : nat).

Record Timer := {
  tm_id : nat;
  tm_due : Z;
  tm_act : TimerAct
}.

(** The two statements [db.run] is called with, and their callbacks. *)
Inductive DbOp :=
| Debit (amount : Z) (uid : Z)
| Credit (amount : Z) (nick : string).

Inductive DbCb :=
| SeatCb (s : string) (la : nat)
| CreditCb (winnerId : string) (winAmount : Z).

Record DbReq := {
  q_id : nat;
  q_op : DbOp;
  q_cb : DbCb
}.

(** The process state: the [lobbies] registry (insertion ordered), the
    stores of lobby and player objects, all socket objects, the users
    table, pending database requests and timers, the clock, the source of
    [Math.random] and the messages emitted so far. *)
Record World := {
  lobbies : list (string * nat);
  lobj : nat -> Lobby;
  pobj : nat -> Player;
  pnext : nat;
  sockets : gmap string Socket;
  users_db : list UserRow;
  dbq : list DbReq;
  qnext : nat;
  timers : list Timer;
  tnext : nat;
  now : Z;
  entropy : nat -> Z;
  rpos : nat;
  outbox : list Emit
}.

(** *** Field updates *)

Definition set_roomHost (i n : string) (l : Lobby) : Lobby :=
  {| lobby_id := lobby_id l; lobby_name := lobby_name l; roomHostId := i;
     roomHostName := n; tableHostId := tableHostId l;
     lastWinnerId := lastWinnerId l; state := state l; bet := bet l;
     pot := pot l; users := users l; players := players l;
     turnOrder := turnOrder l; turnIndex := turnIndex l; timer := timer l |}.

Definition set_tableHostId (v : option string) (l : Lobby) : Lobby :=
  {| lobby_id := lobby_id l; lobby_name := lobby_name l;
     roomHostId := roomHostId l; roomHostName := roomHostName l;
     tableHostId := v; lastWinnerId := lastWinnerId l; state := state l;
     bet := bet l; pot := pot l; users := users l; players := players l;
     turnOrder := turnOrder l; turnIndex := turnIndex l; timer := timer l |}.

Definition set_lastWinnerId (v : option string) (l : Lobby) : Lobby :=
  {| lobby_id := lobby_id l; lobby_name := lobby_name l;
     roomHostId := roomHostId l; roomHostName := roomHostName l;
     tableHostId := tableHostId l; lastWinnerId := v; state := state l;
     bet := bet l; pot := pot l; users := users l; players := players l;
     turnOrder := turnOrder l; turnIndex := turnIndex l; timer := timer l |}.

Definition set_state (v : GameState) (l : Lobby) : Lobby :=
  {| lobby_id := lobby_id l; lobby_name := lobby_name l;
     roomHostId := roomHostId l; roomHostName := roomHostName l;
     tableHostId := tableHostId l; lastWinnerId := lastWinnerId l;
     state := v; bet := bet l; pot := pot l; users := users l;
     players := players l; turnOrder := turnOrder l;
     turnIndex := turnIndex l; timer := timer l |}.

Definition set_bet (v : Z) (l : Lobby) : Lobby :=
  {| lobby_id := lobby_id l; lobby_name := lobby_name l;
     roomHostId := roomHostId l; roomHostName := roomHostName l;
     tableHostId := tableHostId l; lastWinnerId := lastWinnerId l;
     state := state l; bet := v; pot := pot l; users := users l;
     players := players l; turnOrder := turnOrder l;
     turnIndex := turnIndex l; timer := timer l |}.

Definition set_pot (v : Z) (l : Lobby) : Lobby :=
  {| lobby_id := lobby_id l; lobby_name := lobby_name l;
     roomHostId := roomHostId l; roomHostName := roomHostName l;
     tableHostId := tableHostId l; lastWinnerId := lastWinnerId l;
     state := state l; bet := bet l; pot := v; users := users l;
     players := players l; turnOrder := turnOrder l;
     turnIndex := turnIndex l; timer := timer l |}.

Definition set_users (v : list Member) (l : Lobby) : Lobby :=
  {| lobby_id := lobby_id l; lobby_name := lobby_name l;
     roomHostId := roomHostId l; roomHostName := roomHostName l;
     tableHostId := tableHostId l; lastWinnerId := lastWinnerId l;
     state := state l; bet := bet l; pot := pot l; users := v;
     players := players l; turnOrder := turnOrder l;
     turnIndex := turnIndex l; timer := timer l |}.

Definition set_players (v : list nat) (l : Lobby) : Lobby :=
  {| lobby_id := lobby_id l; lobby_name := lobby_name l;
     roomHostId := roomHostId l; roomHostName := roomHostName l;
     tableHostId := tableHostId l; lastWinnerId := lastWinnerId l;
     state := state l; bet := bet l; pot := pot l; users := users l;
     players := v; turnOrder := turnOrder l; turnIndex := turnIndex l;
     timer := timer l |}.

Definition set_turnOrder (v : list string) (l : Lobby) : Lobby :=
  {| lobby_id := lobby_id l; lobby_name := lobby_name l;
     roomHostId := roomHostId l; roomHostName := roomHostName l;
     tableHostId := tableHostId l; lastWinnerId := lastWinnerId l;
     state := state l; bet := bet l; pot := pot l; users := users l;
     players := players l; turnOrder := v; turnIndex := turnIndex l;
     timer := timer l |}.

Definition set_turnIndex (v : nat) (l : Lobby) : Lobby :=
  {| lobby_id := lobby_id l; lobby_name := lobby_name l;
     roomHostId := roomHostId l; roomHostName := roomHostName l;
     tableHostId := tableHostId l; lastWinnerId := lastWinnerId l;
     state := state l; bet := bet l; pot := pot l; users := users l;
     players := players l; turnOrder := turnOrder l; turnIndex := v;
     timer := timer l |}.

Definition set_timer (v : option nat) (l : Lobby) : Lobby :=
  {| lobby_id := lobby_id l; lobby_name := lobby_name l;
     roomHostId := roomHostId l; roomHostName := roomHostName l;
     tableHostId := tableHostId l; lastWinnerId := lastWinnerId l;
     state := state l; bet := bet l; pot := pot l; users := users l;
     players := players l; turnOrder := turnOrder l;
     turnIndex := turnIndex l; timer := v |}.

Definition set_lastRoll (v : option Z) (p : Player) : Player :=
  {| p_id := p_id p; p_nickname := p_nickname p; lastRoll := v |}.

Definition set_balance (v : Z) (u : UserData) : UserData :=
  {| ud_id := ud_id u; ud_nickname := ud_nickname u; balance := v |}.

Definition set_userData (v : option UserData) (s : Socket) : Socket :=
  {| userData := v; currentLobby := currentLobby s; connected := connected s |}.

Definition set_currentLobby (v : option string) (s : Socket) : Socket :=
  {| userData := userData s; currentLobby := v; connected := connected s |}.

Definition set_connected (v : bool) (s : Socket) : Socket :=
  {| userData := userData s; currentLobby := currentLobby s; connected := v |}.

Definition set_row_balance (v : Z) (r : UserRow) : UserRow :=
  {| row_id := row_id r; row_nickname := row_nickname r; row_balance := v |}.

(** Function update of an object store. *)
Definition upd {A} (h : nat -> A) (a : nat) (v : A) : nat -> A :=
  fun a' => if Nat.eqb a' a then v else h a'.

Definition w_lobbies (v : list (string * nat)) (w : World) : World :=
  {| lobbies := v; lobj := lobj w; pobj := pobj w; pnext := pnext w;
     sockets := sockets w; users_db := users_db w; dbq := dbq w;
     qnext := qnext w; timers := timers w; tnext := tnext w; now := now w;
     entropy := entropy w; rpos := rpos w; outbox := outbox w |}.

Definition w_lobj (v : nat -> Lobby) (w : World) : World :=
  {| lobbies := lobbies w; lobj := v; pobj := pobj w; pnext := pnext w;
     sockets := sockets w; users_db := users_db w; dbq := dbq w;
     qnext := qnext w; timers := timers w; tnext := tnext w; now := now w;
     entropy := entropy w; rpos := rpos w; outbox := outbox w |}.

Definition w_pobj (v : nat -> Player) (n : nat) (w : World) : World :=
  {| lobbies := lobbies w; lobj := lobj w; pobj := v; pnext := n;
     sockets := sockets w; users_db := users_db w; dbq := dbq w;
     qnext := qnext w; timers := timers w; tnext := tnext w; now := now w;
     entropy := entropy w; rpos := rpos w; outbox := outbox w |}.

Definition w_sockets (v : gmap string Socket) (w : World) : World :=
  {| lobbies := lobbies w; lobj := lobj w; pobj := pobj w; pnext := pnext w;
     sockets := v; users_db := users_db w; dbq := dbq w;
     qnext := qnext w; timers := timers w; tnext := tnext w; now := now w;
     entropy := entropy w; rpos := rpos w; outbox := outbox w |}.

Definition w_users_db (v : list UserRow) (w : World) : World :=
  {| lobbies := lobbies w; lobj := lobj w; pobj := pobj w; pnext := pnext w;
     sockets := sockets w; users_db := v; dbq := dbq w;
     qnext := qnext w; timers := timers w; tnext := tnext w; now := now w;
     entropy := entropy w; rpos := rpos w; outbox := outbox w |}.

Definition w_dbq (v : list DbReq) (n : nat) (w : World) : World :=
  {| lobbies := lobbies w; lobj := lobj w; pobj := pobj w; pnext := pnext w;
     sockets := sockets w; users_db := users_db w; dbq := v;
     qnext := n; timers := timers w; tnext := tnext w; now := now w;
     entropy := entropy w; rpos := rpos w; outbox := outbox w |}.

Definition w_timers (v : list Timer) (n : nat) (w : World) : World :=
  {| lobbies := lobbies w; lobj := lobj w; pobj := pobj w; pnext := pnext w;
     sockets := sockets w; users_db := users_db w; dbq := dbq w;
     qnext := qnext w; timers := v; tnext := n; now := now w;
     entropy := entropy w; rpos := rpos w; outbox := outbox w |}.

Definition w_now (v : Z) (w : World) : World :=
  {| lobbies := lobbies w; lobj := lobj w; pobj := pobj w; pnext := pnext w;
     sockets := sockets w; users_db := users_db w; dbq := dbq w;
     qnext := qnext w; timers := timers w; tnext := tnext w; now := v;
     entropy := entropy w; rpos := rpos w; outbox := outbox w |}.

Definition w_rpos (v : nat) (w : World) : World :=
  {| lobbies := lobbies w; lobj := lobj w; pobj := pobj w; pnext := pnext w;
     sockets := sockets w; users_db := users_db w; dbq := dbq w;
     qnext := qnext w; timers := timers w; tnext := tnext w; now := now w;
     entropy := entropy w; rpos := v; outbox := outbox w |}.

Definition w_outbox (v : list Emit) (w : World) : World :=
  {| lobbies := lobbies w; lobj := lobj w; pobj := pobj w; pnext := pnext w;
     sockets := sockets w; users_db := users_db w; dbq := dbq w;
     qnext := qnext w; timers := timers w; tnext := tnext w; now := now w;
     entropy := entropy w; rpos := rpos w; outbox := v |}.

(** ** Handlers run to completion: a state monad with exceptions *)

(** The outcome of a handler: it returns [a] in world [w], or an uncaught
    exception ends it. *)
Inductive Res (A : Type) :=
| Ok (a : A) (w : World)
| Throw (e : string).
Arguments Ok {A} a w.
Arguments Throw {A} e.

Definition M (A : Type) : Type := World -> Res A.

Definition ret {A} (a : A) : M A := fun w => Ok a w.

Definition bind {A B} (m : M A) (k : A -> M B) : M B :=
  fun w => match m w with
           | Ok a w' => k a w'
           | Throw e => Throw e
           end.

Definition throw {A} (e : string) : M A := fun _ => Throw e.

Notation "'do' x <- m ; k" := (bind m (fun x => k))
  (at level 10, x name, m at level 99, k at level 200).
Notation "m ;; k" := (bind m (fun _ => k))
  (at level 100, k at level 200, right associativity).

Definition gets {A} (f : World -> A) : M A := fun w => Ok (f w) w.
Definition modify (f : World -> World) : M unit := fun w => Ok tt (f w).

(** [xs.forEach(f)] *)
Fixpoint forEach {A} (xs : list A) (f : A -> M unit) : M unit :=
  match xs with
  | [] => ret tt
  | x :: r => f x;; forEach r f
  end.

(** The world a handler ends in, when it ends normally. *)
Definition exec {A} (m : M A) (w : World) : option World :=
  match m w with
  | Ok _ w' => Some w'
  | Throw _ => None
  end.

(** ** Access to the stores *)

Definition getL (la : nat) : M Lobby := gets (fun w => lobj w la).

Definition modL (la : nat) (f : Lobby -> Lobby) : M unit :=
  modify (fun w => w_lobj (upd (lobj w) la (f (lobj w la))) w).

Definition getP (a : nat) : M Player := gets (fun w => pobj w a).

Definition modP (a : nat) (f : Player -> Player) : M unit :=
  modify (fun w => w_pobj (upd (pobj w) a (f (pobj w a))) (pnext w) w).

(** A new player object. *)
Definition newP (p : Player) : M nat :=
  fun w => Ok (pnext w) (w_pobj (upd (pobj w) (pnext w) p) (S (pnext w)) w).

(** The socket object of connection [s]; every handler runs for a socket
    that exists. *)
Definition getSock (s : string) : M Socket :=
  fun w => match sockets w !! s with
           | Some so => Ok so w
           | None => Throw "no such socket"
           end.

Definition modSock (s : string) (f : Socket -> Socket) : M unit :=
  modify (fun w => w_sockets (alter f s (sockets w)) w).

(** [socket.userData.<field>]: a [TypeError] when [userData] is undefined. *)
Definition getUserData (s : string) : M UserData :=
  do so <- getSock s;
  match userData so with
  | Some ud => ret ud
  | None => throw "TypeError: Cannot read properties of undefined"
  end.

(** [io.sockets.sockets.get(id)] *)
Definition io_sockets_get (id : string) : M (option Socket) :=
  gets (fun w => match sockets w !! id with
                 | Some so => if connected so then Some so else None
                 | None => None
                 end).

(** [lobbies[key]] *)
Fixpoint assoc (key : string) (l : list (string * nat)) : option nat :=
  match l with
  | [] => None
  | (k, v) :: r => if String.eqb k key then Some v else assoc key r
  end.

(** [lobbies[socket.currentLobby]]: no lobby has the key ["null"] or
    ["undefined"]. *)
Definition lookupLobby (cur : option string) : M (option nat) :=
  gets (fun w => match cur with
                 | Some id => assoc id (lobbies w)
                 | None => None
                 end).

(** [delete lobbies[id]] *)
Definition deleteLobby (id : string) : M unit :=
  modify (fun w =>
    w_lobbies (List.filter (fun kv => negb (String.eqb (fst kv) id)) (lobbies w)) w).

Definition emit (t : Target) (ev : string) (p : Payload) : M unit :=
  modify (fun w =>
    w_outbox (outbox w ++ [{| e_target := t; e_event := ev; e_payload := p |}]) w).

(** [setTimeout(act, delay)], returning the handle. *)
Definition setTimeout (act : TimerAct) (delay : Z) : M nat :=
  fun w =>
    Ok (tnext w)
       (w_timers (timers w ++ [{| tm_id := tnext w; tm_due := now w + delay;
                                  tm_act := act |}])
                 (S (tnext w)) w).

(** The pending timers other than [t]. *)
Definition without (t : nat) (tms : list Timer) : list Timer :=
  List.filter (fun tm => negb (Nat.eqb (tm_id tm) t)) tms.

Definition clearTimeout (t : nat) : M unit :=
  modify (fun w => w_timers (without t (timers w)) (tnext w) w).

(** [db.run(sql, params, cb)]: the statement runs later, then [cb]. *)
Definition db_run (op : DbOp) (cb : DbCb) : M unit :=
  modify (fun w =>
    w_dbq (dbq w ++ [{| q_id := qnext w; q_op := op; q_cb := cb |}])
          (S (qnext w)) w).

(** ** Utils *)

(** [Math.random()]: a double in [0, 1), that is k / 2^53 with
    0 <= k < 2^53. *)
Definition Math_random : M Q :=
  fun w => Ok (Qmake (entropy w (rpos w) mod 2 ^ 53) (2 ^ 53)) (w_rpos (S (rpos w)) w).

(** The loop of [shuffle], for [i] from its first value down to 1 (an array
    index is below 2^32, so [i + 1] is exact). *)
Fixpoint shuffle_loop (i : nat) (array : list string) : M (list string) :=
  match i with
  | O => ret array
  | S i' =>
      do r <- Math_random;
      let j := Z.to_nat (Js.floor_mul r (Z.of_nat i + 1)) in
      shuffle_loop i' (Js.swap i j array)
  end.

Definition shuffle (array : list string) : M (list string) :=
  shuffle_loop (length array - 1) array.

(** [Math.floor(Math.random() * (max - min + 1)) + min]; every sum and
    difference is rounded to a double. *)
Definition getRandomInt (min max : Z) : M Z :=
  do r <- Math_random;
  ret (Js.num (Js.floor_mul r (Js.num (Js.num (max - min) + 1)) + min)).

(** ** Lobby management *)

(** [lobby.players.find(p => p.id === id)] *)
Definition find_player (h : nat -> Player) (id : string) (ps : list nat) : option nat :=
  List.find (fun a => String.eqb (p_id (h a)) id) ps.

(** [array.includes(id)] *)
Definition includes (l : list string) (id : string) : bool :=
  existsb (String.eqb id) l.

Definition sendLobbyList (target : Target) : M unit :=
  do ls <- gets (fun w =>
    map (fun kv => let l := lobj w (snd kv) in
                   {| li_id := lobby_id l; li_name := lobby_name l;
                      li_users := length (users l); li_host := roomHostName l |})
        (lobbies w));
  emit target "lobby_list" (PLobbyList ls).

Definition packLobbyData (la : nat) : M Snapshot :=
  do l <- getL la;
  do h <- gets pobj;
  ret {| s_id := lobby_id l;
         s_roomHostId := roomHostId l;
         s_tableHostId := tableHostId l;
         s_lastWinnerId := lastWinnerId l;
         s_state := state l;
         s_bet := bet l;
         s_pot := pot l;
         s_users := users l;
         s_players := map h (players l);
         s_currentTurn :=
           if GameState_eqb (state l) PLAYING then turnOrder l !! turnIndex l
           else None |}.

(** [io.to(lobby.id).emit('update_room', packLobbyData(lobby))] *)
Definition emit_update_room (la : nat) : M unit :=
  do l <- getL la;
  do snap <- packLobbyData la;
  emit (ToRoom (lobby_id l)) "update_room" (PRoom snap).

Definition emit_chat (la : nat) (nick text : string) : M unit :=
  do l <- getL la;
  emit (ToRoom (lobby_id l)) "chat_msg" (PChat nick text).

(** The currency and trophy signs, as the bytes of the source file. *)
Definition rouble : string := "â‚½".
Definition trophy : string := "ðŸ†".

(** A number inside a template literal: the decimal numeral of an integer
    (as [Number::toString] gives it below 10^21). *)
Definition show (n : Z) : string := pretty n.

Definition show_roll (v : option Z) : string :=
  match v with Some n => show n | None => "null" end.

(** ** Game logic *)

Definition sitAtTable (s : string) (la : nat) : M unit :=
  do l <- getL la;
  do h <- gets pobj;
  match find_player h s (players l) with
  | Some _ => ret tt
  | None =>
      do ud <- getUserData s;
      if balance ud <? bet l
      then emit (ToSocket s) "error_msg" (PText "Insufficient funds")
      else db_run (Debit (bet l) (ud_id ud)) (SeatCb s la)
  end.

(** The callback of the debit in [sitAtTable]. *)
Definition sitAtTable_cb (s : string) (la : nat) (err : bool) : M unit :=
  if err then ret tt
  else
    do l <- getL la;
    do ud <- getUserData s;
    modSock s (set_userData (Some (set_balance (balance ud - bet l) ud)));;
    emit (ToSocket s) "balance_update" (PBalance (balance ud - bet l));;
    modL la (fun l => set_pot (pot l + bet l) l);;
    do a <- newP {| p_id := s; p_nickname := ud_nickname ud; lastRoll := None |};
    modL la (fun l => set_players (players l ++ [a]) l);;
    emit_update_room la;;
    emit_chat la "SYSTEM" (ud_nickname ud +:+ " joined the table.").

Definition processTurn (la : nat) : M unit :=
  do l <- getL la;
  do h <- gets pobj;
  match turnOrder l !! turnIndex l with
  | None => ret tt
  | Some playerId =>
      match find_player h playerId (players l) with
      | None => ret tt
      | Some a =>
          emit (ToRoom (lobby_id l)) "turn_notification"
               (PTurn playerId (p_nickname (h a)));;
          match timer l with Some t => clearTimeout t | None => ret tt end;;
          do t <- setTimeout (AutoRoll la a) 10000;
          modL la (set_timer (Some t))
      end
  end.

Definition startGame (la : nat) (participants : list nat) : M unit :=
  modL la (set_state PLAYING);;
  do h <- gets pobj;
  do order <- shuffle (map (fun a => p_id (h a)) participants);
  modL la (set_turnOrder order);;
  modL la (set_turnIndex 0);;
  modL la (set_lastWinnerId None);;
  do l <- getL la;
  forEach (players l) (fun a =>
    do p <- getP a;
    if includes (turnOrder l) (p_id p) then modP a (set_lastRoll None)
    else ret tt);;
  emit_update_room la;;
  emit_chat la "SYSTEM" ("Game Started! Pot: " +:+ show (pot l) +:+ " " +:+ rouble);;
  processTurn la.

(** [player] is [None] when [find] gave [undefined]. *)
Definition performRoll (la : nat) (player : option nat) (isAuto : bool) : M unit :=
  do l <- getL la;
  match timer l with Some t => clearTimeout t | None => ret tt end;;
  do d1 <- getRandomInt 1 6;
  do d2 <- getRandomInt 1 6;
  match player with
  | None => throw "TypeError: Cannot set properties of undefined (setting 'lastRoll')"
  | Some a =>
      modP a (set_lastRoll (Some (d1 + d2)));;
      do p <- getP a;
      emit (ToRoom (lobby_id l)) "dice_rolled" (PDice (p_id p) d1 d2 (d1 + d2));;
      do _ <- setTimeout (Reveal la a d1 d2) 1500;
      do _ <- setTimeout (Advance la) 3500;
      ret tt
  end.

(** The loop computing [highest] in [determineWinner]. *)
Definition highest_of (h : nat -> Player) (participants : list nat) : option Z :=
  fold_left (fun highest a =>
               if Js.gt (lastRoll (h a)) highest then lastRoll (h a) else highest)
            participants (Some (-1)).

Definition participants_of (h : nat -> Player) (l : Lobby) : list nat :=
  List.filter (fun a => includes (turnOrder l) (p_id (h a))) (players l).

Definition winners_of (h : nat -> Player) (l : Lobby) : list nat :=
  let participants := participants_of h l in
  let highest := highest_of h participants in
  List.filter (fun a => Js.strict_eq (lastRoll (h a)) highest) participants.

Definition determineWinner (la : nat) : M unit :=
  do l <- getL la;
  do h <- gets pobj;
  let winners := winners_of h l in
  match winners with
  | [winner] =>
      let winAmount := pot l in
      modL la (set_lastWinnerId (Some (p_id (h winner))));;
      db_run (Credit winAmount (p_nickname (h winner)))
             (CreditCb (p_id (h winner)) winAmount);;
      emit (ToRoom (lobby_id l)) "game_over"
           (PGameOver (p_nickname (h winner)) winAmount);;
      emit_chat la trophy
        (p_nickname (h winner) +:+ " WON " +:+ show winAmount +:+ " " +:+ rouble +:+ "!");;
      modL la (set_state FINISHED);;
      modL la (fun l =>
        set_players
          (List.filter (fun a => Js.str_eq_opt (p_id (h a)) (tableHostId l)
                                 || String.eqb (p_id (h a)) (p_id (h winner)))
                       (players l)) l);;
      modL la (set_pot 0);;
      emit_update_room la
  | _ =>
      emit_chat la "SYSTEM" "TIE! Round 2 starting...";;
      startGame la winners
  end.

(** The callback of the credit in [determineWinner]; it ignores [err]. *)
Definition determineWinner_cb (winnerId : string) (winAmount : Z) : M unit :=
  do s <- io_sockets_get winnerId;
  match s with
  | None => ret tt
  | Some _ =>
      do ud <- getUserData winnerId;
      modSock winnerId (set_userData (Some (set_balance (balance ud + winAmount) ud)));;
      emit (ToSocket winnerId) "balance_update" (PBalance (balance ud + winAmount))
  end.

(** ** Leave logic *)

Definition leaveLobby (s : string) : M unit :=
  do so <- getSock s;
  if negb (Js.truthy (currentLobby so)) then ret tt
  else
    let id := default "" (currentLobby so) in
    do ol <- lookupLobby (currentLobby so);
    match ol with
    | Some la =>
        do h <- gets pobj;
        modL la (fun l =>
          set_users (List.filter (fun u => negb (String.eqb (u_id u) s)) (users l)) l);;
        modL la (fun l =>
          set_players (List.filter (fun a => negb (String.eqb (p_id (h a)) s)) (players l)) l);;
        do l <- getL la;
        match users l with
        | u :: _ =>
            if String.eqb (roomHostId l) s
            then modL la (set_roomHost (u_id u) (u_nickname u))
            else ret tt
        | [] => ret tt
        end;;
        (if Js.str_eq_opt s (tableHostId l)
         then match players l, users l with
              | a :: _, _ => modL la (set_tableHostId (Some (p_id (h a))))
              | [], _ :: _ =>
                  modL la (set_tableHostId None);;
                  modL la (set_state IDLE);;
                  modL la (set_bet 0)
              | [], [] => ret tt
              end
         else ret tt);;
        match users l with
        | [] => deleteLobby id
        | _ :: _ =>
            do snap <- packLobbyData la;
            emit (ToRoom id) "update_room" (PRoom snap)
        end
    | None => ret tt
    end;;
    modSock s (set_currentLobby None);;
    emit (ToSocket s) "left_lobby_success" PNone;;
    sendLobbyList ToAll.

(** ** Socket event handlers *)

(** [socket.on('leave_lobby')]: a seated player cannot leave by the button. *)
Definition on_leave_lobby (s : string) : M unit :=
  do so <- getSock s;
  do ol <- lookupLobby (currentLobby so);
  match ol with
  | Some la =>
      do l <- getL la;
      do h <- gets pobj;
      match find_player h s (players l) with
      | Some _ =>
          emit (ToSocket s) "error_msg"
               (PText "You cannot leave while seated at the table!")
      | None => leaveLobby s
      end
  | None => leaveLobby s
  end.

(** [socket.on('disconnect')]: the server has removed the socket from
    [io.sockets.sockets] before the handler runs. *)
Definition on_disconnect (s : string) : M unit :=
  modSock s (set_connected false);;
  leaveLobby s.

(** The second guard of [host_set_bet]: somebody else holds the table. *)
Definition table_occupied (s : string) (l : Lobby) : bool :=
  Js.truthy (tableHostId l)
  && negb (Js.str_eq_opt s (tableHostId l))
  && negb (GameState_eqb (state l) IDLE)
  && negb (GameState_eqb (state l) FINISHED).

(** [socket.on('host_set_bet', amount)]; [amount] is the payload as the
    string [parseInt] first turns it into. *)
Definition on_host_set_bet (s : string) (amount : string) : M unit :=
  do so <- getSock s;
  do ol <- lookupLobby (currentLobby so);
  match ol with
  | None => ret tt
  | Some la =>
      do l <- getL la;
      if GameState_eqb (state l) PLAYING
      then emit (ToSocket s) "error_msg" (PText "Game in progress")
      else if table_occupied s l
      then emit (ToSocket s) "error_msg" (PText "Table occupied")
      else
        match Js.parseInt amount with
        | None => emit (ToSocket s) "error_msg" (PText "Invalid bet")
        | Some amount =>
            if amount <=? 0
            then emit (ToSocket s) "error_msg" (PText "Invalid bet")
            else
              modL la (set_bet amount);;
              modL la (set_state BETTING);;
              modL la (set_tableHostId (Some s));;
              modL la (set_players []);;
              modL la (set_pot 0);;
              modL la (set_lastWinnerId None);;
              sitAtTable s la;;
              emit_chat la "SYSTEM"
                ("Table opened! Bet: " +:+ show amount +:+ " " +:+ rouble)
        end
  end.

(** [socket.on('join_table')] *)
Definition on_join_table (s : string) : M unit :=
  do so <- getSock s;
  do ol <- lookupLobby (currentLobby so);
  match ol with
  | None => ret tt
  | Some la =>
      do l <- getL la;
      if negb (GameState_eqb (state l) BETTING) then ret tt
      else sitAtTable s la
  end.

(** [socket.on('start_game')] *)
Definition on_start_game (s : string) : M unit :=
  do so <- getSock s;
  do ol <- lookupLobby (currentLobby so);
  match ol with
  | None => ret tt
  | Some la =>
      do l <- getL la;
      if negb (Js.str_eq_opt s (tableHostId l))
         || negb (GameState_eqb (state l) BETTING)
      then ret tt
      else if (length (players l) <? 2)%nat
      then emit (ToSocket s) "error_msg" (PText "Need at least 2 players")
      else startGame la (players l)
  end.

(** [socket.on('roll_dice')] *)
Definition on_roll_dice (s : string) : M unit :=
  do so <- getSock s;
  do ol <- lookupLobby (currentLobby so);
  match ol with
  | None => ret tt
  | Some la =>
      do l <- getL la;
      if negb (GameState_eqb (state l) PLAYING) then ret tt
      else
        let currentTurnId := turnOrder l !! turnIndex l in
        if negb (Js.str_eq_opt s currentTurnId) then ret tt
        else
          do h <- gets pobj;
          performRoll la (find_player h s (players l)) false
  end.

(** ** Timers and database callbacks *)

(** The body of a [setTimeout] continuation. *)
Definition run_timer (act : TimerAct) : M unit :=
  match act with
  | AutoRoll la a => performRoll la (Some a) true
  | Reveal la a d1 d2 =>
      do p <- getP a;
      emit_chat la "GAME"
        (p_nickname p +:+ " rolled " +:+ show_roll (lastRoll p)
         +:+ " (" +:+ show d1 +:+ " + " +:+ show d2 +:+ ")");;
      emit_update_room la
  | Advance la =>
      modL la (fun l => set_turnIndex (S (turnIndex l)) l);;
      do l <- getL la;
      if (length (turnOrder l) <=? turnIndex l)%nat
      then determineWinner la
      else processTurn la
  end.

(** The effect of the two statements on a row of the [users] table. *)
Definition debit_row (amount uid : Z) (r : UserRow) : UserRow :=
  if row_id r =? uid then set_row_balance (row_balance r - amount) r else r.

Definition credit_row (amount : Z) (nick : string) (r : UserRow) : UserRow :=
  if String.eqb (row_nickname r) nick
  then set_row_balance (row_balance r + amount) r else r.

Definition apply_op (op : DbOp) (rows : list UserRow) : list UserRow :=
  match op with
  | Debit amount uid => map (debit_row amount uid) rows
  | Credit amount nick => map (credit_row amount nick) rows
  end.

Definition run_cb (cb : DbCb) (err : bool) : M unit :=
  match cb with
  | SeatCb s la => sitAtTable_cb s la err
  | CreditCb winnerId winAmount => determineWinner_cb winnerId winAmount
  end.

(** ** The event loop *)

(** What the process can be given to do: a message from a connected
    client, a disconnection, a timer that is due, the completion of a
    database statement (failed when [err]), or time passing. *)
Inductive Event :=
| EvHostSetBet (s : string) (amount : string)
| EvJoinTable (s : string)
| EvStartGame (s : string)
| EvRollDice (s : string)
| EvLeaveLobby (s : string)
| EvDisconnect (s : string)
| EvTimer (t : nat)
| EvDb (q : nat) (err : bool)
| EvTick (d : Z).

Definition find_timer (t : nat) (w : World) : option Timer :=
  List.find (fun tm => Nat.eqb (tm_id tm) t) (timers w).

Definition find_req (q : nat) (w : World) : option DbReq :=
  List.find (fun r => Nat.eqb (q_id r) q) (dbq w).

(** A timer fires once, not before it is due. *)
Definition fire_timer (t : nat) : M unit :=
  do tm <- gets (find_timer t);
  do n <- gets now;
  match tm with
  | Some tm =>
      if tm_due tm <=? n
      then clearTimeout t;; run_timer (tm_act tm)
      else ret tt
  | None => ret tt
  end.

(** A pending statement completes: the table changes unless it failed,
    then the callback runs. *)
Definition complete_db (q : nat) (err : bool) : M unit :=
  do r <- gets (find_req q);
  match r with
  | Some r =>
      modify (fun w =>
        w_dbq (List.filter (fun r' => negb (Nat.eqb (q_id r') q)) (dbq w)) (qnext w) w);;
      (if err then ret tt
       else modify (fun w => w_users_db (apply_op (q_op r) (users_db w)) w));;
      run_cb (q_cb r) err
  | None => ret tt
  end.

(** Messages arrive only on connected sockets. *)
Definition from_client (s : string) (handler : M unit) : M unit :=
  do so <- io_sockets_get s;
  match so with
  | Some _ => handler
  | None => ret tt
  end.

Definition handle (e : Event) : M unit :=
  match e with
  | EvHostSetBet s amount => from_client s (on_host_set_bet s amount)
  | EvJoinTable s => from_client s (on_join_table s)
  | EvStartGame s => from_client s (on_start_game s)
  | EvRollDice s => from_client s (on_roll_dice s)
  | EvLeaveLobby s => from_client s (on_leave_lobby s)
  | EvDisconnect s => from_client s (on_disconnect s)
  | EvTimer t => fire_timer t
  | EvDb q err => complete_db q err
  | EvTick d => modify (fun w => w_now (now w + Z.max 0 d) w)
  end.

(** Running a list of events in order. *)
Fixpoint run (es : list Event) : M unit :=
  match es with
  | [] => ret tt
  | e :: r => handle e;; run r
  end.

(** ** Notions used in the statements *)

(** What the [forEach] of [startGame] does to the store of players. *)
Definition clear_roll (order : list string) (h : nat -> Player) (a : nat) : nat -> Player :=
  if includes order (p_id (h a)) then upd h a (set_lastRoll None (h a)) else h.

Definition clear_rolls (order : list string) (ps : list nat) (h : nat -> Player)
  : nat -> Player :=
  fold_left (clear_roll order) ps h.

(** The loop of [determineWinner] from any starting value of [highest]. *)
Definition highest_from (h : nat -> Player) (acc : option Z) (ps : list nat) : option Z :=
  fold_left (fun highest a =>
               if Js.gt (lastRoll (h a)) highest then lastRoll (h a) else highest)
            ps acc.

(** A last roll as the number comparisons see it. *)
Definition roll_num (h : nat -> Player) (a : nat) : Z := Js.toNumber (lastRoll (h a)).

(** Every roll is [null] or at least 1 (dice give 2 to 12). *)
Definition rolls_valid (h : nat -> Player) (ps : list nat) : Prop :=
  forall a, a ∈ ps -> lastRoll (h a) = None \/ exists r, lastRoll (h a) = Some r /\ 1 <= r.


(** The lobby object [lobbies[socket.currentLobby]] of socket [s]. *)
Definition lobby_of (s : string) (w : World) : option nat :=
  match sockets w !! s with
  | Some so =>
      match currentLobby so with
      | Some id => assoc id (lobbies w)
      | None => None
      end
  | None => None
  end.

(** It is the turn of [s]: the game is on and the turn order holds [s] at
    the turn index. *)
Definition on_turn (s : string) (l : Lobby) : Prop :=
  state l = PLAYING /\ turnOrder l !! turnIndex l = Some s.

(** Socket [s] exists and has logged in. *)
Definition authenticated (s : string) (w : World) : Prop :=
  exists so ud, sockets w !! s = Some so /\ userData so = Some ud.

(** A handler keeps worlds related by [R]. *)
Definition preserves (R : World -> World -> Prop) {A} (m : M A) : Prop :=
  forall w r w', m w = Ok r w' -> R w w'.

(** The last roll of player [a], if null before, is null after. *)
Definition null_stays (a : nat) (w w' : World) : Prop :=
  lastRoll (pobj w a) = None -> lastRoll (pobj w' a) = None.

(** [getRandomInt(1, 6)] as a function of the raw draw behind
    [Math.random()]. *)
Definition die (k : Z) : Z :=
  Js.num (Js.floor_mul (Qmake (k mod 2 ^ 53) (2 ^ 53)) (Js.num (Js.num (6 - 1) + 1)) + 1).

(** The first draw that gives face [f + 1] or more: the least [k] for which
    the double [k / 2^53 * 6] is at least [f].  That is the least [k] with
    [6 k >= f * 2^53], but for [f] = 4 and 5 one draw earlier, whose
    product is rounded up to [f]. *)
Definition face_start (f : Z) : Z :=
  (f * 2 ^ 53 + 5) / 6 - (if (4 <=? f) && (f <=? 5) then 1 else 0).

(** Event [e] is a roll for player [a]: a [roll_dice] message of the
    connected socket on turn, whose seat is [a], or a turn timer for [a]
    that is due. *)
Definition rolls_for (e : Event) (a : nat) (w : World) : Prop :=
  match e with
  | EvRollDice s =>
      exists so la,
        sockets w !! s = Some so /\ connected so = true
        /\ lobby_of s w = Some la /\ on_turn s (lobj w la)
        /\ find_player (pobj w) s (players (lobj w la)) = Some a
  | EvTimer t =>
      exists tm la,
        find_timer t w = Some tm /\ tm_due tm <= now w
        /\ tm_act tm = AutoRoll la a
  | _ => False
  end.

(** The timers left by [if (lobby.timer) clearTimeout(lobby.timer)]. *)
Definition cleared (l : Lobby) (tms : list Timer) : list Timer :=
  match timer l with
  | Some t => without t tms
  | None => tms
  end.

Definition is_AutoRoll (act : TimerAct) : Prop :=
  match act with AutoRoll _ _ => True | _ => False end.

(** Handles are unique and below the next handle; a lobby's [timer] holds a
    handle that was given out, and a pending timer under it is a turn
    timer. *)
Definition handles_wf (tms : list Timer) (n : nat) (h : nat -> option nat) : Prop :=
  NoDup (map tm_id tms)
  /\ Forall (fun tm => (tm_id tm < n)%nat) tms
  /\ forall la t, h la = Some t ->
       (t < n)%nat
       /\ forall tm, tm ∈ tms -> tm_id tm = t -> is_AutoRoll (tm_act tm).

Definition timers_wf (w : World) : Prop :=
  handles_wf (timers w) (tnext w) (fun la => timer (lobj w la)).

(** Who stays when [s] leaves: the two filters of [leaveLobby]. *)
Definition remaining_players (s : string) (w : World) (la : nat) : list nat :=
  List.filter (fun a => negb (String.eqb (p_id (pobj w a)) s)) (players (lobj w la)).

Definition remaining_users (s : string) (l : Lobby) : list Member :=
  List.filter (fun u => negb (String.eqb (u_id u) s)) (users l).

(** The world after one [emit]. *)
Definition with_emit (t : Target) (ev : string) (p : Payload) (w : World) : World :=
  w_outbox (outbox w ++ [{| e_target := t; e_event := ev; e_payload := p |}]) w.

Fixpoint all_chars (f : ascii -> bool) (s : string) : bool :=
  match s with
  | String c r => f c && all_chars f r
  | EmptyString => true
  end.

(** In the words of the specification: the amount is a positive integer,
    that is, its text is a decimal numeral other than zero. *)
Definition spec_positive_integer (amount : string) : bool :=
  negb (String.eqb amount "")
  && all_chars (fun c => let n := nat_of_ascii c in (48 <=? n)%nat && (n <=? 57)%nat) amount
  && negb (all_chars (fun c => Ascii.eqb c "0") amount).

(** An emitted event. *)
Definition mkEmit (t : Target) (ev : string) (p : Payload) : Emit :=
  {| e_target := t; e_event := ev; e_payload := p |}.

(** What [packLobbyData(lobby)] returns, given the lobby and the store of
    players. *)
Definition snapshot (l : Lobby) (h : nat -> Player) : Snapshot :=
  {| s_id := lobby_id l;
     s_roomHostId := roomHostId l;
     s_tableHostId := tableHostId l;
     s_lastWinnerId := lastWinnerId l;
     s_state := state l;
     s_bet := bet l;
     s_pot := pot l;
     s_users := users l;
     s_players := map h (players l);
     s_currentTurn :=
       if GameState_eqb (state l) PLAYING then turnOrder l !! turnIndex l
       else None |}.

(** The list [sendLobbyList] sends. *)
Definition lobby_list (w : World) : list LobbyInfo :=
  map (fun kv => let l := lobj w (snd kv) in
                 {| li_id := lobby_id l; li_name := lobby_name l;
                    li_users := length (users l); li_host := roomHostName l |})
      (lobbies w).

(** The lobby after the six assignments of [host_set_bet]. *)
Definition opened (s : string) (n : Z) (l : Lobby) : Lobby :=
  set_lastWinnerId None (set_pot 0 (set_players [] (set_tableHostId (Some s)
    (set_state BETTING (set_bet n l))))).

(** Every pending turn timer of a lobby is the one its [timer] field
    holds. *)
Definition turn_timers_ok (w : World) : Prop :=
  timers_wf w
  /\ forall tm la a, tm ∈ timers w -> tm_act tm = AutoRoll la a ->
       timer (lobj w la) = Some (tm_id tm).

Definition keeps_turn_timers (w w' : World) : Prop :=
  turn_timers_ok w -> turn_timers_ok w'.

(** The pending timers, and the handle each lobby holds, are the same. *)
Definition same_timers (w w' : World) : Prop :=
  timers w' = timers w /\ tnext w' = tnext w
  /\ forall la, timer (lobj w' la) = timer (lobj w la).

(** The ledger and every cached balance are the same. *)
Definition same_money (w w' : World) : Prop :=
  users_db w' = users_db w
  /\ forall s, userData <$> (sockets w' !! s) = userData <$> (sockets w !! s).

(** No lobby has got a seat or a larger pot. *)
Definition no_new_seat (w w' : World) : Prop :=
  forall la,
    players (lobj w' la) `sublist_of` players (lobj w la)
    /\ (pot (lobj w' la) = pot (lobj w la) \/ pot (lobj w' la) = 0).

(** In every lobby the bet and the pot are not negative. *)
Definition stakes_ok (w : World) : Prop :=
  forall la, 0 <= bet (lobj w la) /\ 0 <= pot (lobj w la).

Definition keeps_stakes (w w' : World) : Prop := stakes_ok w -> stakes_ok w'.

(** The world in which an advance continuation goes on after its first
    statement: its timer [t] is no longer pending and [lobby.turnIndex++]
    has been done. *)
Definition advanced (la t : nat) (w : World) : World :=
  w_lobj (upd (lobj w) la (set_turnIndex (S (turnIndex (lobj w la))) (lobj w la)))
    (w_timers (without t (timers w)) (tnext w) w).

(** The rest of the advance continuation: the [if] on the turn index. *)
Definition next_or_resolve (la : nat) : M unit :=
  do l <- getL la;
  if (length (turnOrder l) <=? turnIndex l)%nat
  then determineWinner la
  else processTurn la.

(** The timers stay in order, the clock stands still, and what is pending
    other than turn timers stays pending. *)
Definition keeps_pending (w w' : World) : Prop :=
  timers_wf w ->
  timers_wf w' /\ now w' = now w
  /\ forall tm, tm ∈ timers w -> ~ is_AutoRoll (tm_act tm) -> tm ∈ timers w'.

(** ** A small lobby to run the code on *)

Module Example.

Definition ann : Member := {| u_id := "sA"; u_nickname := "Ann_Lee" |}.
Definition bob : Member := {| u_id := "sB"; u_nickname := "Bob_Ray" |}.
Definition cid : Member := {| u_id := "sC"; u_nickname := "Cid_Poe" |}.

Definition lobby0 : Lobby :=
  {| lobby_id := "room_a"; lobby_name := "A"; roomHostId := "sA";
     roomHostName := "Ann_Lee"; tableHostId := None; lastWinnerId := None;
     state := IDLE; bet := 0; pot := 0; users := [ann; bob; cid];
     players := []; turnOrder := []; turnIndex := 0; timer := None |}.

Definition sock (i : Z) (n : string) (b : Z) : Socket :=
  {| userData := Some {| ud_id := i; ud_nickname := n; balance := b |};
     currentLobby := Some "room_a"; connected := true |}.

Definition nobody : Player := {| p_id := ""; p_nickname := ""; lastRoll := None |}.

(** Three members in an idle lobby, nobody seated. *)
Definition w0 : World :=
  {| lobbies := [("room_a", 0%nat)];
     lobj := fun _ => lobby0;
     pobj := fun _ => nobody;
     pnext := 0;
     sockets := <["sA" := sock 1 "Ann_Lee" 1000]>
                  (<["sB" := sock 2 "Bob_Ray" 500]>
                     (<["sC" := sock 3 "Cid_Poe" 50]> ∅));
     users_db := [ {| row_id := 1; row_nickname := "Ann_Lee"; row_balance := 1000 |};
                   {| row_id := 2; row_nickname := "Bob_Ray"; row_balance := 500 |};
                   {| row_id := 3; row_nickname := "Cid_Poe"; row_balance := 50 |} ];
     dbq := []; qnext := 0; timers := []; tnext := 0; now := 0;
     entropy := fun n => Z.of_nat n * 2 ^ 51 + 12345; rpos := 0;
     outbox := [] |}.

(** The world [es] leads to from [w0] ([w0] itself if a handler throws). *)
Definition after (es : list Event) : World := default w0 (exec (run es) w0).

(** Ann opens a table at 100 and is seated. *)
Definition open_table : list Event := [EvHostSetBet "sA" "100"; EvDb 0 false].

(** Ann and Bob are seated at 100 each. *)
Definition seated : list Event := open_table ++ [EvJoinTable "sB"; EvDb 1 false].

(** The round has started; the turn order is Bob, Ann. *)
Definition started : list Event := seated ++ [EvStartGame "sA"].

(** Bob and Ann have both rolled 6; the last advance is pending. *)
Definition both_rolled : list Event :=
  started ++ [EvRollDice "sB"; EvTick 3500; EvTimer 2; EvRollDice "sA";
              EvTick 3500].

(** The sudden-death round after that tie, up to its last advance: Bob
    has rolled 9 and Ann 3. *)
Definition round2_rolled : list Event :=
  both_rolled ++ [EvTimer 5; EvRollDice "sB"; EvTick 3500; EvTimer 8;
                  EvRollDice "sA"; EvTick 3500].

(** Ann, Bob and Cid are seated at 10 each and the round has started; the
    turn order is Bob, Cid, Ann. *)
Definition three_started : list Event :=
  [EvHostSetBet "sA" "10"; EvDb 0 false; EvJoinTable "sB"; EvDb 1 false;
   EvJoinTable "sC"; EvDb 2 false; EvStartGame "sA"].

(** Ann disconnects while Bob is on turn; Bob rolls and the advance
    continuation fires. *)
Definition ann_gone : list Event :=
  started ++ [EvDisconnect "sA"; EvRollDice "sB"; EvTick 3500; EvTimer 2].

(** Bob has asked for a seat at 100; before his debit completes, Ann
    declares the table again, at 30. *)
Definition bet_changed : list Event :=
  open_table ++ [EvJoinTable "sB"; EvHostSetBet "sA" "30"].

(** What the others can still do once Ann's turn has come. *)
Definition waiting : list Event :=
  [EvTick 100000; EvTimer 1; EvRollDice "sB"; EvStartGame "sB";
   EvJoinTable "sC"; EvHostSetBet "sB" "5"; EvLeaveLobby "sB"].

End Example.

(** * Properties *)

(** ** Stepping through a handler *)

Lemma upd_eq {A} (h : nat -> A) a v : upd h a v a = v.
Proof. unfold upd. by rewrite Nat.eqb_refl. Qed.

Lemma upd_ne {A} (h : nat -> A) a a' v : a' <> a -> upd h a v a' = h a'.
Proof. unfold upd. intros H. apply Nat.eqb_neq in H. by rewrite H. Qed.

Lemma NoDup_map_inj {A B} (f : A -> B) (l : list A) x y :
  NoDup (map f l) -> x ∈ l -> y ∈ l -> f y = f x -> y = x.
Proof.
  induction l as [|z l IH]; intros Hnd Hx Hy Heq; [by apply elem_of_nil in Hx|].
  cbn in Hnd. apply NoDup_cons in Hnd as [Hnot Hnd].
  apply elem_of_cons in Hx as [->|Hx]; apply elem_of_cons in Hy as [->|Hy]; try done.
  - exfalso. apply Hnot. rewrite <- Heq. apply list_elem_of_fmap. by exists y.
  - exfalso. apply Hnot. rewrite Heq. apply list_elem_of_fmap. by exists x.
  - by apply IH.
Qed.

Lemma GameState_eqb_spec a b : GameState_eqb a b = true <-> a = b.
Proof. destruct a, b; simpl; split; congruence. Qed.

Lemma str_eq_opt_spec s o : Js.str_eq_opt s o = true <-> o = Some s.
Proof.
  destruct o as [t|]; simpl; [|split; congruence].
  rewrite String.eqb_eq. split; congruence.
Qed.

Lemma bind_Ok {A B} (m : M A) (k : A -> M B) w a w1 :
  m w = Ok a w1 -> bind m k w = k a w1.
Proof. unfold bind. by intros ->. Qed.

Lemma bind_gets {A B} (f : World -> A) (k : A -> M B) w :
  bind (gets f) k w = k (f w) w.
Proof. reflexivity. Qed.

Lemma bind_modify {B} (f : World -> World) (k : unit -> M B) w :
  bind (modify f) k w = k tt (f w).
Proof. reflexivity. Qed.

Lemma bind_ret {A B} (a : A) (k : A -> M B) w : bind (ret a) k w = k a w.
Proof. reflexivity. Qed.

Lemma bind_bind {A B C} (m : M A) (k1 : A -> M B) (k2 : B -> M C) w :
  bind (bind m k1) k2 w = bind m (fun a => bind (k1 a) k2) w.
Proof. unfold bind. by destruct (m w). Qed.

Lemma bind_setTimeout {B} act d (k : nat -> M B) w :
  bind (setTimeout act d) k w =
  k (tnext w)
    (w_timers (timers w ++ [{| tm_id := tnext w; tm_due := now w + d; tm_act := act |}])
              (S (tnext w)) w).
Proof. reflexivity. Qed.

Lemma bind_newP {B} p (k : nat -> M B) w :
  bind (newP p) k w = k (pnext w) (w_pobj (upd (pobj w) (pnext w) p) (S (pnext w)) w).
Proof. reflexivity. Qed.

Lemma bind_getSock {B} s (k : Socket -> M B) w so :
  sockets w !! s = Some so -> bind (getSock s) k w = k so w.
Proof. intros H. unfold bind, getSock. by rewrite H. Qed.

Lemma lobby_of_sock s w so :
  sockets w !! s = Some so ->
  lookupLobby (currentLobby so) w = Ok (lobby_of s w) w.
Proof.
  intros H. unfold lookupLobby, gets, lobby_of. rewrite H.
  by destruct (currentLobby so).
Qed.

(** Projections of an updated world, and reads of an updated store. *)
Ltac wsimpl :=
  cbn [lobbies lobj pobj pnext sockets users_db dbq qnext timers tnext now
       entropy rpos outbox w_lobbies w_lobj w_pobj w_sockets w_users_db w_dbq
       w_timers w_now w_rpos w_outbox with_emit];
  rewrite ?upd_eq.

Ltac mprims :=
  unfold getL, modL, getP, modP, emit, emit_update_room, emit_chat,
    packLobbyData, lookupLobby, deleteLobby, clearTimeout, db_run,
    sendLobbyList, io_sockets_get, modSock.

Ltac mstep :=
  first [ rewrite bind_gets | rewrite bind_modify | rewrite bind_ret
        | rewrite bind_bind | rewrite bind_setTimeout | rewrite bind_newP ];
  cbv beta; wsimpl.

(** Fields of an updated lobby or player. *)
Ltac lsimpl :=
  cbn [lobby_id lobby_name roomHostId roomHostName tableHostId lastWinnerId
       state bet pot users players turnOrder turnIndex timer
       set_roomHost set_tableHostId set_lastWinnerId set_state set_bet set_pot
       set_users set_players set_turnOrder set_turnIndex set_timer
       p_id p_nickname lastRoll set_lastRoll].

Ltac msteps := repeat (progress mprims || mstep); lsimpl.

Ltac wsimpl_in H :=
  cbn [lobbies lobj pobj pnext sockets users_db dbq qnext timers tnext now
       entropy rpos outbox w_lobbies w_lobj w_pobj w_sockets w_users_db w_dbq
       w_timers w_now w_rpos w_outbox with_emit] in H;
  rewrite ?upd_eq in H.

(** ** Shuffling *)

Lemma swap_perm {A} i j (a : list A) : Js.swap i j a ≡ₚ a.
Proof.
  unfold Js.swap.
  destruct (a !! i) as [x|] eqn:Hi; [|done].
  destruct (a !! j) as [y|] eqn:Hj; [|done].
  by apply Permutation_insert_swap.
Qed.

Lemma shuffle_loop_spec i array w :
  exists array',
    shuffle_loop i array w = Ok array' (w_rpos (i + rpos w) w)
    /\ array' ≡ₚ array.
Proof.
  revert array w. induction i as [|i IH]; intros array w.
  - exists array. split; [|done]. by destruct w.
  - cbn [shuffle_loop]. unfold Math_random at 1.
    erewrite bind_Ok by reflexivity.
    destruct (IH (Js.swap (S i) (Z.to_nat (Js.floor_mul
                (Qmake (entropy w (rpos w) mod 2 ^ 53) (2 ^ 53)) (Z.of_nat (S i) + 1))) array)
                (w_rpos (S (rpos w)) w)) as (a' & Heq & Hperm).
    exists a'. rewrite Heq. wsimpl. rewrite Nat.add_succ_r. split; [done|].
    etrans; [exact Hperm|]. apply swap_perm.
Qed.

Lemma shuffle_spec array w :
  exists order,
    shuffle array w = Ok order (w_rpos (length array - 1 + rpos w) w)
    /\ order ≡ₚ array.
Proof. apply shuffle_loop_spec. Qed.

(** ** Clearing the rolls *)

Lemma forEach_clear order ps w :
  forEach ps (fun a =>
    do p <- getP a;
    if includes order (p_id p) then modP a (set_lastRoll None) else ret tt) w
  = Ok tt (w_pobj (clear_rolls order ps (pobj w)) (pnext w) w).
Proof.
  revert w. induction ps as [|a ps IH]; intros w.
  - by destruct w.
  - cbn [forEach]. msteps. unfold clear_rolls. cbn [fold_left].
    unfold clear_roll at 2.
    destruct (includes order (p_id (pobj w a))); msteps.
    + rewrite IH. by wsimpl.
    + by rewrite IH.
Qed.

Lemma clear_rolls_id order ps h a :
  p_id (clear_rolls order ps h a) = p_id (h a)
  /\ p_nickname (clear_rolls order ps h a) = p_nickname (h a).
Proof.
  revert h. induction ps as [|b ps IH]; intros h; [done|].
  unfold clear_rolls. cbn [fold_left]. fold (clear_rolls order ps (clear_roll order h b)).
  destruct (IH (clear_roll order h b)) as [-> ->].
  unfold clear_roll. destruct (includes order (p_id (h b))); [|done].
  destruct (decide (a = b)) as [->|Hne]; [by rewrite upd_eq|by rewrite upd_ne].
Qed.

Lemma clear_rolls_lastRoll order ps h a :
  lastRoll (clear_rolls order ps h a)
  = if bool_decide (a ∈ ps) && includes order (p_id (h a)) then None
    else lastRoll (h a).
Proof.
  revert h. induction ps as [|b ps IH]; intros h; [done|].
  unfold clear_rolls. cbn [fold_left]. fold (clear_rolls order ps (clear_roll order h b)).
  rewrite IH.
  assert (Hid : p_id (clear_roll order h b a) = p_id (h a)).
  { unfold clear_roll. destruct (includes order (p_id (h b))); [|done].
    destruct (decide (a = b)) as [->|Hne]; [by rewrite upd_eq|by rewrite upd_ne]. }
  rewrite Hid.
  destruct (decide (a = b)) as [->|Hne].
  - rewrite (bool_decide_eq_true_2 (b ∈ b :: ps)) by set_solver.
    unfold clear_roll.
    destruct (includes order (p_id (h b))) eqn:Hinc.
    + by rewrite andb_true_r, upd_eq; destruct (bool_decide (b ∈ ps)).
    + by rewrite !andb_false_r.
  - assert (Hmem : bool_decide (a ∈ b :: ps) = bool_decide (a ∈ ps)).
    { apply bool_decide_ext. rewrite elem_of_cons. split; [by intros [?|?]|by right]. }
    rewrite Hmem. unfold clear_roll.
    destruct (includes order (p_id (h b))); [by rewrite upd_ne|done].
Qed.

Lemma processTurn_spec la w :
  exists w' t,
    processTurn la w = Ok tt w'
    /\ lobj w' la = set_timer t (lobj w la)
    /\ (forall la', la' <> la -> lobj w' la' = lobj w la')
    /\ pobj w' = pobj w /\ pnext w' = pnext w /\ sockets w' = sockets w
    /\ users_db w' = users_db w /\ dbq w' = dbq w /\ lobbies w' = lobbies w.
Proof.
  assert (Heta : lobj w la = set_timer (timer (lobj w la)) (lobj w la))
    by (by destruct (lobj w la)).
  unfold processTurn. msteps.
  destruct (turnOrder (lobj w la) !! turnIndex (lobj w la)) as [pid|];
    [|by exists w, (timer (lobj w la))].
  destruct (find_player (pobj w) pid (players (lobj w la))) as [a|];
    [|by exists w, (timer (lobj w la))].
  msteps.
  destruct (timer (lobj w la)) as [t|]; msteps;
    (eexists; eexists; split; [reflexivity|]; wsimpl;
     split; [reflexivity|]; split; [|done];
     intros la' Hne; by rewrite upd_ne).
Qed.

Lemma startGame_spec la ps w :
  exists order w' t,
    startGame la ps w = Ok tt w'
    /\ order ≡ₚ map (fun a => p_id (pobj w a)) ps
    /\ lobj w' la
       = set_timer t (set_lastWinnerId None (set_turnIndex 0
           (set_turnOrder order (set_state PLAYING (lobj w la)))))
    /\ pobj w' = clear_rolls order (players (lobj w la)) (pobj w)
    /\ (forall la', la' <> la -> lobj w' la' = lobj w la')
    /\ sockets w' = sockets w /\ users_db w' = users_db w /\ dbq w' = dbq w
    /\ lobbies w' = lobbies w.
Proof.
  unfold startGame. msteps.
  match goal with |- context [bind (shuffle ?xs) _ ?w1] =>
    destruct (shuffle_spec xs w1) as (order & Hsh & Hperm) end.
  rewrite (bind_Ok _ _ _ _ _ Hsh). msteps.
  cbn [players turnOrder pot set_lastWinnerId set_turnIndex set_turnOrder set_state].
  erewrite bind_Ok by apply forEach_clear. msteps.
  match goal with |- context [processTurn la ?w1] =>
    destruct (processTurn_spec la w1) as (w' & t & Hpt & Hl & Hother & Hp & _ & Hs & Hu & Hq & Hlb) end.
  exists order, w', t. split; [exact Hpt|]. split; [exact Hperm|].
  rewrite Hl, Hp, Hs, Hu, Hq, Hlb. wsimpl. repeat split; try done.
  intros la' Hne. rewrite (Hother la' Hne). wsimpl. by rewrite !upd_ne.
Qed.

Lemma includes_spec l x : includes l x = true <-> x ∈ l.
Proof.
  unfold includes. rewrite existsb_exists. split.
  - intros (y & Hin & Heq). apply String.eqb_eq in Heq. subst.
    by apply list_elem_of_In.
  - intros Hin. exists x. split; [by apply list_elem_of_In|]. apply String.eqb_refl.
Qed.

Lemma strict_eq_spec a b : Js.strict_eq a b = true <-> a = b.
Proof.
  destruct a, b; simpl; rewrite ?Z.eqb_eq; split; congruence.
Qed.

Lemma highest_from_ge h ps acc :
  Js.toNumber acc <= Js.toNumber (highest_from h acc ps)
  /\ forall a, a ∈ ps -> roll_num h a <= Js.toNumber (highest_from h acc ps).
Proof.
  revert acc. induction ps as [|b ps IH]; intros acc.
  - split; [simpl; lia|]. intros a Ha. by apply elem_of_nil in Ha.
  - unfold highest_from. cbn [fold_left].
    set (acc' := if Js.gt (lastRoll (h b)) acc then lastRoll (h b) else acc).
    destruct (IH acc') as [Hacc Hall]. fold (highest_from h acc' ps).
    assert (Hstep : Js.toNumber acc <= Js.toNumber acc' /\ roll_num h b <= Js.toNumber acc').
    { unfold acc', Js.gt, roll_num.
      destruct (Js.toNumber acc <? Js.toNumber (lastRoll (h b))) eqn:Hlt;
        [apply Z.ltb_lt in Hlt | apply Z.ltb_ge in Hlt]; lia. }
    split; [lia|]. intros a Ha. apply elem_of_cons in Ha as [->|Ha]; [lia|by apply Hall].
Qed.

Lemma highest_from_attained h ps acc :
  highest_from h acc ps = acc \/ exists a, a ∈ ps /\ lastRoll (h a) = highest_from h acc ps.
Proof.
  revert acc. induction ps as [|b ps IH]; intros acc; [by left|].
  unfold highest_from. cbn [fold_left].
  set (acc' := if Js.gt (lastRoll (h b)) acc then lastRoll (h b) else acc).
  fold (highest_from h acc' ps).
  destruct (IH acc') as [Heq | (a & Ha & Heq)].
  - rewrite Heq. unfold acc'. destruct (Js.gt (lastRoll (h b)) acc); [|by left].
    right. exists b. split; [apply elem_of_cons; by left | done].
  - right. exists a. split; [apply elem_of_cons; by right | done].
Qed.

Lemma winners_of_elem h l a :
  a ∈ winners_of h l <->
  a ∈ participants_of h l /\ lastRoll (h a) = highest_of h (participants_of h l).
Proof.
  unfold winners_of. rewrite list_elem_of_In, filter_In, <- list_elem_of_In.
  by rewrite strict_eq_spec.
Qed.

(** Every winner is a participant whose roll no participant exceeds. *)
Lemma winners_of_maximal h l a :
  a ∈ winners_of h l ->
  a ∈ participants_of h l
  /\ forall b, b ∈ participants_of h l -> roll_num h b <= roll_num h a.
Proof.
  rewrite winners_of_elem. intros [Hin Heq]. split; [done|].
  intros b Hb. unfold roll_num at 2. rewrite Heq.
  by apply (highest_from_ge h (participants_of h l) (Some (-1))).
Qed.

(** When every roll is null or at least 1, the winners are all of them. *)
Lemma winners_of_complete h l a :
  rolls_valid h (participants_of h l) ->
  a ∈ participants_of h l ->
  (forall b, b ∈ participants_of h l -> roll_num h b <= roll_num h a) ->
  a ∈ winners_of h l.
Proof.
  intros Hvalid Hin Hmax. apply winners_of_elem. split; [done|].
  unfold highest_of. fold (highest_from h (Some (-1)) (participants_of h l)).
  pose proof (highest_from_ge h (participants_of h l) (Some (-1))) as [_ Hge].
  assert (Hnum : forall c, c ∈ participants_of h l -> 0 <= roll_num h c).
  { intros c Hc. unfold roll_num. destruct (Hvalid c Hc) as [-> | (r & -> & Hr)]; simpl; lia. }
  destruct (highest_from_attained h (participants_of h l) (Some (-1)))
    as [Heq | (c & Hc & Heq)].
  - specialize (Hge a Hin). specialize (Hnum a Hin). rewrite Heq in Hge. simpl in Hge. lia.
  - rewrite <- Heq.
    assert (Hac : roll_num h a = roll_num h c).
    { apply Z.le_antisymm; [|by apply Hmax].
      unfold roll_num at 2. rewrite Heq. by apply Hge. }
    unfold roll_num in Hac.
    destruct (Hvalid a Hin) as [Ha | (ra & Ha & Hra)];
      destruct (Hvalid c Hc) as [Hc' | (rc & Hc' & Hrc)];
      rewrite Ha, Hc' in *; simpl in Hac; try done; try lia. by subst.
Qed.




(** ** Submitting a roll out of turn *)

(** C7. A [roll_dice] message from a socket whose turn it is not (the game
    is not on, or the turn order holds somebody else, or nobody, at the turn
    index), or that is in no lobby, leaves the whole world as it was: no
    field of any lobby changes and nothing is emitted, so no error is
    surfaced. *)
Theorem roll_dice_not_on_turn_ignored s w :
  is_Some (sockets w !! s) ->
  (forall la, lobby_of s w = Some la -> ~ on_turn s (lobj w la)) ->
  on_roll_dice s w = Ok tt w /\ handle (EvRollDice s) w = Ok tt w.
Proof.
  intros [so Hso] Hnot.
  assert (H : on_roll_dice s w = Ok tt w).
  { unfold on_roll_dice. rewrite (bind_getSock _ _ _ _ Hso).
    rewrite (bind_Ok _ _ _ _ _ (lobby_of_sock _ _ _ Hso)).
    destruct (lobby_of s w) as [la|] eqn:Hla; [|done].
    specialize (Hnot la eq_refl). msteps.
    destruct (GameState_eqb (state (lobj w la)) PLAYING) eqn:Hst; [|done].
    cbn [negb]. destruct (Js.str_eq_opt s _) eqn:Hturn; [|done].
    exfalso. apply Hnot. split.
    - by apply GameState_eqb_spec.
    - by apply str_eq_opt_spec. }
  split; [done|].
  unfold handle, from_client, bind, io_sockets_get, gets. rewrite Hso.
  by destruct (connected so).
Qed.

Lemma roll_dice_not_on_turn_ignored_witness :
  let w := Example.after Example.started in
  on_roll_dice "sA" w = Ok tt w /\ handle (EvRollDice "sA") w = Ok tt w.
Proof.
  apply roll_dice_not_on_turn_ignored.
  - vm_compute. eexists. reflexivity.
  - intros la Hla. vm_compute in Hla. injection Hla as <-.
    intros [_ Hturn]. vm_compute in Hturn. discriminate.
Defined.

(** ** Opening a table with a bad amount *)

(** [parseInt] skips white space of more than one byte, here a no-break
    space (U+00A0), an em space (U+2003) and a byte order mark (U+FEFF),
    and gives the double nearest to a long numeral. *)
Lemma parseInt_examples :
  Js.parseInt (String (ascii_of_nat 194) (String (ascii_of_nat 160) "5")) = Some 5
  /\ Js.parseInt (String (ascii_of_nat 226) (String (ascii_of_nat 128)
                    (String (ascii_of_nat 131) " 7"))) = Some 7
  /\ Js.parseInt (String (ascii_of_nat 239) (String (ascii_of_nat 187)
                    (String (ascii_of_nat 191) "12"))) = Some 12
  /\ Js.parseInt "9007199254740993" = Some 9007199254740992.
Proof. repeat split; vm_compute; reflexivity. Qed.

(** C8, as the specification states it, fails: the amount 1.5 is not a
    positive integer, yet [parseInt] truncates it to 1 and the table opens
    with bet 1. *)
Lemma host_set_bet_fraction_accepted :
  spec_positive_integer "1.5" = false
  /\ exists w',
      on_host_set_bet "sA" "1.5" Example.w0 = Ok tt w'
      /\ (bet (lobj Example.w0 0%nat), state (lobj Example.w0 0%nat),
           tableHostId (lobj Example.w0 0%nat)) = (0, IDLE, None)
      /\ (bet (lobj w' 0%nat), state (lobj w' 0%nat), tableHostId (lobj w' 0%nat))
         = (1, BETTING, Some "sA").
Proof.
  split; [reflexivity|].
  eexists. split; [vm_compute; reflexivity|]. split; reflexivity.
Qed.

(** C8, amended. When the socket is in a lobby and [parseInt] of the amount
    is [NaN] or not above 0, [host_set_bet] sends the requester exactly one
    [error_msg] and changes nothing else: the text is 'Invalid bet', unless
    one of the two earlier guards answers first ('Game in progress',
    'Table occupied'). *)
Theorem host_set_bet_invalid_rejected s amount w la :
  is_Some (sockets w !! s) ->
  lobby_of s w = Some la ->
  (Js.parseInt amount = None \/ exists n, Js.parseInt amount = Some n /\ n <= 0) ->
  exists text,
    on_host_set_bet s amount w
    = Ok tt (with_emit (ToSocket s) "error_msg" (PText text) w)
    /\ lobj (with_emit (ToSocket s) "error_msg" (PText text) w) = lobj w
    /\ pobj (with_emit (ToSocket s) "error_msg" (PText text) w) = pobj w
    /\ (if GameState_eqb (state (lobj w la)) PLAYING then text = "Game in progress"
        else if table_occupied s (lobj w la) then text = "Table occupied"
        else text = "Invalid bet").
Proof.
  intros [so Hso] Hla Hbad.
  unfold on_host_set_bet. rewrite (bind_getSock _ _ _ _ Hso).
  rewrite (bind_Ok _ _ _ _ _ (lobby_of_sock _ _ _ Hso)), Hla. msteps.
  destruct (GameState_eqb (state (lobj w la)) PLAYING); [by eexists|].
  destruct (table_occupied s (lobj w la)); [by eexists|].
  destruct Hbad as [-> | (n & -> & Hn)]; [by eexists|].
  apply Z.leb_le in Hn. rewrite Hn. by eexists.
Qed.

Lemma host_set_bet_invalid_rejected_witness :
  exists text,
    on_host_set_bet "sA" "-5" Example.w0
    = Ok tt (with_emit (ToSocket "sA") "error_msg" (PText text) Example.w0)
    /\ text = "Invalid bet".
Proof.
  destruct (host_set_bet_invalid_rejected "sA" "-5" Example.w0 0%nat)
    as (text & Hrun & _ & _ & Htext).
  - vm_compute. eexists. reflexivity.
  - vm_compute. reflexivity.
  - right. exists (-5). split; [vm_compute; reflexivity | lia].
  - exists text. split; [exact Hrun|]. exact Htext.
Defined.

(** ** A turn whose participant has left *)

(** C5 (code bug). When the turn order names, at the turn index, a player
    that is no longer seated, [processTurn] returns at once: the world is
    unchanged, so the turn index stays where it is and no timer is armed.
    The round is not moved past the missing participant. *)
Theorem processTurn_missing_player_returns la w pid :
  state (lobj w la) = PLAYING ->
  turnOrder (lobj w la) !! turnIndex (lobj w la) = Some pid ->
  find_player (pobj w) pid (players (lobj w la)) = None ->
  processTurn la w = Ok tt w.
Proof.
  intros _ Hturn Hfind. unfold processTurn. msteps. by rewrite Hturn, Hfind.
Qed.

(** At the failing input: Ann, second in the turn order, has disconnected;
    after Bob's roll the turn index is 1, no timer that would roll or
    advance is pending, and beginning Ann's turn does nothing.  Time, the
    last pending timer and further messages of the others leave the round
    where it is, with nothing pending. *)
Lemma processTurn_missing_player_returns_witness :
  let w := Example.after Example.ann_gone in
  let later := Example.after (Example.ann_gone ++ Example.waiting) in
  (turnOrder (lobj w 0%nat), turnIndex (lobj w 0%nat)) = (["sB"; "sA"], 1%nat)
  /\ map tm_act (timers w) = [Reveal 0 1 2 4]
  /\ processTurn 0 w = Ok tt w
  /\ (state (lobj later 0%nat), turnIndex (lobj later 0%nat), timers later, dbq later)
     = (PLAYING, 1%nat, [], []).
Proof.
  split; [vm_compute; reflexivity|]. split; [vm_compute; reflexivity|].
  split; [|vm_compute; reflexivity].
  apply (processTurn_missing_player_returns 0 _ "sA"); vm_compute; reflexivity.
Defined.

(** ** The table host leaves an empty table *)

(** C6 (code bug). When the table host leaves, nobody stays seated and
    members remain, [leaveLobby] sets the table host to [null], the state to
    IDLE and the bet to 0, and leaves the pot as it was. *)
Theorem leaveLobby_host_reset_keeps_pot s w so id la :
  sockets w !! s = Some so ->
  currentLobby so = Some id -> id <> "" ->
  assoc id (lobbies w) = Some la ->
  tableHostId (lobj w la) = Some s ->
  remaining_players s w la = [] ->
  remaining_users s (lobj w la) <> [] ->
  exists w',
    leaveLobby s w = Ok tt w'
    /\ tableHostId (lobj w' la) = None
    /\ state (lobj w' la) = IDLE
    /\ bet (lobj w' la) = 0
    /\ pot (lobj w' la) = pot (lobj w la).
Proof.
  intros Hso Hcur Hid Hla Hhost Hps Hus.
  unfold leaveLobby. rewrite (bind_getSock _ _ _ _ Hso), Hcur.
  assert (Ht : Js.truthy (Some id) = true).
  { simpl. apply negb_true_iff. by apply String.eqb_neq. }
  rewrite Ht. cbn [negb default]. msteps. rewrite Hla. msteps.
  unfold remaining_players in Hps. unfold remaining_users in Hus.
  cbn [users players tableHostId roomHostId set_users set_players].
  rewrite Hps, Hhost. cbn [Js.str_eq_opt]. rewrite String.eqb_refl.
  destruct (List.filter _ (users (lobj w la))) as [|u us] eqn:Hf; [done|].
  destruct (String.eqb (roomHostId (lobj w la)) s); msteps;
    (eexists; split; [reflexivity|]; wsimpl; by repeat split).
Qed.

(** At the failing input: Ann has opened a table at 100 and is the only
    seated player (pot 100); she disconnects, and the pot is still 100. *)
Lemma leaveLobby_host_reset_keeps_pot_witness :
  let w := Example.after Example.open_table in
  pot (lobj w 0%nat) = 100
  /\ exists w',
      leaveLobby "sA" w = Ok tt w'
      /\ tableHostId (lobj w' 0%nat) = None
      /\ state (lobj w' 0%nat) = IDLE
      /\ bet (lobj w' 0%nat) = 0
      /\ pot (lobj w' 0%nat) = 100.
Proof.
  intros w.
  assert (Hpot : pot (lobj w 0%nat) = 100) by (vm_compute; reflexivity).
  split; [exact Hpot|]. rewrite <- Hpot.
  apply (leaveLobby_host_reset_keeps_pot "sA" w (Example.sock 1 "Ann_Lee" 900) "room_a");
    try (vm_compute; reflexivity); vm_compute; discriminate.
Defined.

(** ** Starting a round *)

(** C3. For every list of participants (empty or not), [startGame] returns,
    the turn order is a permutation of the participants' ids, the turn index
    is 0, the last winner is cleared, and every seated player whose id is in
    the turn order has a null last roll. *)
Theorem startGame_turn_order la participants w :
  exists w',
    startGame la participants w = Ok tt w'
    /\ turnOrder (lobj w' la) ≡ₚ map (fun a => p_id (pobj w a)) participants
    /\ turnIndex (lobj w' la) = 0%nat
    /\ lastWinnerId (lobj w' la) = None
    /\ state (lobj w' la) = PLAYING
    /\ players (lobj w' la) = players (lobj w la)
    /\ forall a, a ∈ players (lobj w' la) ->
                 p_id (pobj w' a) ∈ turnOrder (lobj w' la) ->
                 lastRoll (pobj w' a) = None.
Proof.
  destruct (startGame_spec la participants w)
    as (order & w' & t & Hrun & Hperm & Hl & Hp & _).
  exists w'. split; [exact Hrun|]. rewrite Hl, Hp. lsimpl.
  repeat (split; [done|]).
  intros a Ha. rewrite (proj1 (clear_rolls_id _ _ _ _)), clear_rolls_lastRoll.
  intros Hin. apply includes_spec in Hin. rewrite Hin.
  by rewrite bool_decide_eq_true_2.
Qed.


Lemma startGame_turn_order_witness :
  let w := Example.after Example.seated in
  exists w',
    startGame 0 (players (lobj w 0%nat)) w = Ok tt w'
    /\ turnOrder (lobj w' 0%nat) ≡ₚ ["sA"; "sB"]
    /\ turnIndex (lobj w' 0%nat) = 0%nat
    /\ lastWinnerId (lobj w' 0%nat) = None.
Proof.
  intros w.
  destruct (startGame_turn_order 0 (players (lobj w 0%nat)) w)
    as (w' & Hrun & Horder & Hidx & Hlast & _).
  exists w'. split; [exact Hrun|].
  split; [rewrite Horder; vm_compute; reflexivity|]. split; [exact Hidx|].
  exact Hlast.
Defined.

(** ** Resolving a round *)




(** C2. When more than one participant holds the highest roll,
    [determineWinner] announces the tie and calls [startGame] with exactly
    the winners: the new turn order is a permutation of their ids, the pot
    and the ledger are untouched and everybody stays seated.  A seated
    player is in the new turn order only under the id of a tied one, so,
    the seated ids being distinct, a player who is not tied is not in it.
    The winners are participants whose roll no participant exceeds, and all
    of those when every roll is null or a dice sum. *)
Theorem determineWinner_tie_sudden_death la w :
  (1 < length (winners_of (pobj w) (lobj w la)))%nat ->
  let l := lobj w la in
  let winners := winners_of (pobj w) l in
  exists w',
    determineWinner la w = Ok tt w'
    /\ determineWinner la w
       = startGame la winners
           (with_emit (ToRoom (lobby_id l)) "chat_msg"
                      (PChat "SYSTEM" "TIE! Round 2 starting...") w)
    /\ turnOrder (lobj w' la) ≡ₚ map (fun a => p_id (pobj w a)) winners
    /\ (state (lobj w' la), turnIndex (lobj w' la)) = (PLAYING, 0%nat)
    /\ pot (lobj w' la) = pot l
    /\ (dbq w', users_db w', sockets w') = (dbq w, users_db w, sockets w)
    /\ players (lobj w' la) = players l
    /\ (forall b, b ∈ players l ->
          p_id (pobj w b) ∈ turnOrder (lobj w' la)
          <-> exists a, a ∈ winners /\ p_id (pobj w a) = p_id (pobj w b))
    /\ (NoDup (map (fun b => p_id (pobj w b)) (players l)) ->
        forall b, b ∈ players l -> b ∉ winners ->
                  p_id (pobj w b) ∉ turnOrder (lobj w' la))
    /\ (forall a, a ∈ winners ->
          a ∈ participants_of (pobj w) l
          /\ forall b, b ∈ participants_of (pobj w) l ->
                       roll_num (pobj w) b <= roll_num (pobj w) a)
    /\ (rolls_valid (pobj w) (participants_of (pobj w) l) ->
        forall a, a ∈ participants_of (pobj w) l ->
          (forall b, b ∈ participants_of (pobj w) l ->
                     roll_num (pobj w) b <= roll_num (pobj w) a) ->
          a ∈ winners).
Proof.
  intros Hlen l winners.
  assert (Hrun : determineWinner la w
                 = startGame la winners
                     (with_emit (ToRoom (lobby_id l)) "chat_msg"
                                (PChat "SYSTEM" "TIE! Round 2 starting...") w)).
  { unfold determineWinner. msteps. subst winners l.
    destruct (winners_of (pobj w) (lobj w la)) as [|x [|y r]];
      simpl in Hlen; try lia.
    msteps. reflexivity. }
  match type of Hrun with _ = startGame _ _ ?w1 =>
    destruct (startGame_spec la winners w1)
      as (order & w' & t & Hsg & Hperm & Hl & Hp & _ & Hs & Hu & Hq & _) end.
  exists w'. rewrite Hrun. split; [exact Hsg|]. split; [reflexivity|].
  rewrite Hl, Hs, Hu, Hq. lsimpl. wsimpl. fold l.
  repeat (split; [done|]).
  assert (Horder : forall b,
             p_id (pobj w b) ∈ order
             <-> exists a, a ∈ winners /\ p_id (pobj w a) = p_id (pobj w b)).
  { intros b. rewrite Hperm, list_elem_of_fmap.
    split; [intros (a & -> & Ha) | intros (a & Ha & <-)]; by exists a. }
  split; [|split; [|split]].
  - intros b _. apply Horder.
  - intros Hnd b Hb Hnot Hin. apply Horder in Hin as (a & Ha & Hid).
    assert (Hap : a ∈ players l).
    { apply winners_of_maximal in Ha as [Ha _]. unfold participants_of in Ha.
      apply list_elem_of_In, filter_In in Ha as [Ha _]. by apply list_elem_of_In. }
    apply Hnot.
    by rewrite <- (NoDup_map_inj (fun b => p_id (pobj w b)) (players l) b a Hnd Hb Hap Hid).
  - intros a Ha. by apply winners_of_maximal.
  - intros Hvalid a Ha Hmax. by apply winners_of_complete.
Qed.

Lemma determineWinner_tie_sudden_death_witness :
  let w := Example.after Example.both_rolled in
  map (pobj w) (winners_of (pobj w) (lobj w 0%nat))
  = [ {| p_id := "sA"; p_nickname := "Ann_Lee"; lastRoll := Some 6 |};
      {| p_id := "sB"; p_nickname := "Bob_Ray"; lastRoll := Some 6 |} ]
  /\ exists w',
      determineWinner 0 w = Ok tt w'
      /\ turnOrder (lobj w' 0%nat) ≡ₚ ["sA"; "sB"]
      /\ pot (lobj w' 0%nat) = 200
      /\ players (lobj w' 0%nat) = [0%nat; 1%nat].
Proof.
  intros w. split; [vm_compute; reflexivity|].
  destruct (determineWinner_tie_sudden_death 0 w)
    as (w' & Hrun & _ & Horder & _ & Hpot & _ & Hplayers & _).
  - vm_compute. lia.
  - exists w'. split; [exact Hrun|]. split; [exact Horder|].
    split; [rewrite Hpot; vm_compute; reflexivity|].
    rewrite Hplayers. vm_compute. reflexivity.
Defined.

(** ** Taking a seat *)

Lemma bind_getUserData {B} s (k : UserData -> M B) w so ud :
  sockets w !! s = Some so -> userData so = Some ud ->
  bind (getUserData s) k w = k ud w.
Proof.
  intros Hso Hud. unfold getUserData. rewrite bind_bind.
  rewrite (bind_getSock _ _ _ _ Hso), Hud. reflexivity.
Qed.

Lemma sitAtTable_cb_ok s la w so ud :
  sockets w !! s = Some so -> userData so = Some ud ->
  exists w',
    sitAtTable_cb s la false w = Ok tt w'
    /\ pot (lobj w' la) = pot (lobj w la) + bet (lobj w la)
    /\ bet (lobj w' la) = bet (lobj w la)
    /\ players (lobj w' la) = players (lobj w la) ++ [pnext w]
    /\ pobj w' (pnext w) = {| p_id := s; p_nickname := ud_nickname ud; lastRoll := None |}
    /\ sockets w'
       = alter (set_userData (Some (set_balance (balance ud - bet (lobj w la)) ud))) s
               (sockets w)
    /\ users_db w' = users_db w /\ dbq w' = dbq w.
Proof.
  intros Hso Hud. unfold sitAtTable_cb. msteps.
  rewrite (bind_getUserData _ _ _ _ _ Hso Hud). msteps.
  eexists. split; [reflexivity|]. wsimpl. lsimpl. done.
Qed.

Lemma seatings_pot la ss w :
  (forall s, s ∈ ss -> authenticated s w) ->
  exists w',
    forEach ss (fun s => sitAtTable_cb s la false) w = Ok tt w'
    /\ pot (lobj w' la) = pot (lobj w la) + Z.of_nat (length ss) * bet (lobj w la)
    /\ bet (lobj w' la) = bet (lobj w la)
    /\ length (players (lobj w' la)) = (length (players (lobj w la)) + length ss)%nat.
Proof.
  revert w. induction ss as [|s ss IH]; intros w Hauth.
  - exists w. cbn [forEach length]. unfold ret. repeat split; [lia | lia].
  - destruct (Hauth s) as (so & ud & Hso & Hud); [apply elem_of_cons; by left|].
    destruct (sitAtTable_cb_ok s la w so ud Hso Hud)
      as (w1 & Hrun & Hpot & Hbet & Hplayers & _ & Hsock & _).
    destruct (IH w1) as (w' & Hrun' & Hpot' & Hbet' & Hlen').
    { intros s' Hs'. destruct (Hauth s') as (so' & ud' & Hso' & Hud');
        [apply elem_of_cons; by right|].
      unfold authenticated. rewrite Hsock.
      destruct (decide (s = s')) as [<-|Hne].
      - rewrite lookup_alter_eq, Hso. simpl. eauto.
      - rewrite lookup_alter_ne, Hso' by done. eauto. }
    exists w'. cbn [forEach]. rewrite (bind_Ok _ _ _ _ _ Hrun).
    split; [exact Hrun'|]. rewrite Hpot', Hbet', Hlen', Hpot, Hbet, Hplayers.
    rewrite length_app. cbn [length]. repeat split; lia.
Qed.

Lemma complete_db_found q err w r :
  find_req q w = Some r ->
  complete_db q err w
  = run_cb (q_cb r) err
      (let w1 := w_dbq (List.filter (fun r' => negb (Nat.eqb (q_id r') q)) (dbq w)) (qnext w) w in
       if err then w1 else w_users_db (apply_op (q_op r) (users_db w)) w1).
Proof.
  intros Hr. unfold complete_db. msteps. rewrite Hr. msteps.
  destruct err; msteps; reflexivity.
Qed.

(** C4 (the code departs from it).  [sitAtTable] fixes the amount of the
    debit when it queues the statement: the bet of that moment.  A failed
    debit changes nothing.  But after a successful debit the callback reads
    [lobby.bet] again: the ledger row is debited by the amount that was
    queued, while the pot grows, and the cached balance drops, by the bet
    the lobby has when the statement completes.  The two differ when the
    table host has declared another bet in between: in the run
    [Example.bet_changed] Bob's debit of 100 is pending and the bet has
    become 30; when the debit completes his ledger row goes from 500 to
    400, the pot from 0 to 30 and his cached balance from 500 to 470.  So
    the pot has grown by an amount other than the confirmed debit. *)
Theorem sitAtTable_pot_differs_from_debit :
  (forall s la w so ud,
      sockets w !! s = Some so -> userData so = Some ud ->
      find_player (pobj w) s (players (lobj w la)) = None ->
      bet (lobj w la) <= balance ud ->
      sitAtTable s la w
      = Ok tt (w_dbq (dbq w ++ [{| q_id := qnext w;
                                   q_op := Debit (bet (lobj w la)) (ud_id ud);
                                   q_cb := SeatCb s la |}])
                     (S (qnext w)) w))
  /\ (forall s la w q r,
        find_req q w = Some r -> q_cb r = SeatCb s la ->
        exists w',
          handle (EvDb q true) w = Ok tt w'
          /\ (lobj w', pobj w', sockets w', users_db w')
             = (lobj w, pobj w, sockets w, users_db w))
  /\ (forall s la w so ud q r amount uid,
        sockets w !! s = Some so -> userData so = Some ud ->
        find_req q w = Some r -> q_op r = Debit amount uid -> q_cb r = SeatCb s la ->
        exists w',
          handle (EvDb q false) w = Ok tt w'
          /\ users_db w' = map (debit_row amount uid) (users_db w)
          /\ pot (lobj w' la) = pot (lobj w la) + bet (lobj w la)
          /\ players (lobj w' la) = players (lobj w la) ++ [pnext w]
          /\ sockets w' !! s
             = Some (set_userData
                       (Some (set_balance (balance ud - bet (lobj w la)) ud)) so))
  /\ (let w := Example.after Example.bet_changed in
      find_req 1 w = Some {| q_id := 1; q_op := Debit 100 2; q_cb := SeatCb "sB" 0 |}
      /\ (bet (lobj w 0%nat), pot (lobj w 0%nat)) = (30, 0)
      /\ map row_balance (users_db w) = [900; 500; 50]
      /\ sockets w !! "sB" = Some (Example.sock 2 "Bob_Ray" 500)
      /\ exists w',
           handle (EvDb 1 false) w = Ok tt w'
           /\ map row_balance (users_db w') = [900; 400; 50]
           /\ pot (lobj w' 0%nat) = 30
           /\ sockets w' !! "sB" = Some (Example.sock 2 "Bob_Ray" 470)).
Proof.
  split; [|split; [|split]].
  - intros s la w so ud Hso Hud Hfree Hok. unfold sitAtTable. msteps. rewrite Hfree.
    rewrite (bind_getUserData _ _ _ _ _ Hso Hud).
    apply Z.ltb_ge in Hok. rewrite Hok. reflexivity.
  - intros s la w q r Hq Hcb.
    cbn [handle]. rewrite (complete_db_found _ _ _ _ Hq), Hcb.
    eexists. split; [reflexivity|]. reflexivity.
  - intros s la w so ud q r amount uid Hso Hud Hq Hop Hcb.
    cbn [handle]. rewrite (complete_db_found _ _ _ _ Hq), Hop, Hcb. cbn [run_cb apply_op].
    match goal with |- context [sitAtTable_cb s la false ?w1] =>
      destruct (sitAtTable_cb_ok s la w1 so ud Hso Hud)
        as (w' & Hrun & Hpot & _ & Hplayers & _ & Hsock & Hdb & _) end.
    wsimpl_in Hpot. wsimpl_in Hplayers. wsimpl_in Hsock. wsimpl_in Hdb.
    exists w'. split; [exact Hrun|]. rewrite Hdb, Hpot, Hplayers, Hsock.
    wsimpl. repeat (split; [reflexivity|]).
    rewrite lookup_alter_eq, Hso. reflexivity.
  - cbv zeta. split; [vm_compute; reflexivity|]. split; [vm_compute; reflexivity|].
    split; [vm_compute; reflexivity|]. split; [vm_compute; reflexivity|].
    eexists. split; [vm_compute; reflexivity|].
    repeat split; vm_compute; reflexivity.
Qed.

Lemma sitAtTable_pot_differs_from_debit_witness :
  let w := Example.after Example.bet_changed in
  exists w',
    handle (EvDb 1 false) w = Ok tt w'
    /\ users_db w' = map (debit_row 100 2) (users_db w)
    /\ pot (lobj w' 0%nat) = pot (lobj w 0%nat) + 30.
Proof.
  intros w.
  assert (Hso : sockets w !! "sB" = Some (Example.sock 2 "Bob_Ray" 500))
    by (vm_compute; reflexivity).
  assert (Hq : find_req 1 w = Some {| q_id := 1; q_op := Debit 100 2; q_cb := SeatCb "sB" 0 |})
    by (vm_compute; reflexivity).
  assert (Hbet : bet (lobj w 0%nat) = 30) by (vm_compute; reflexivity).
  destruct sitAtTable_pot_differs_from_debit as (_ & _ & Hdone & _).
  destruct (Hdone "sB" 0%nat w _ _ 1%nat _ 100 2 Hso eq_refl Hq eq_refl eq_refl)
    as (w' & Hrun & Hrows & Hpot & _).
  exists w'. split; [exact Hrun|]. split; [exact Hrows|]. by rewrite Hpot, Hbet.
Defined.

(** ** What a handler may do to the last rolls *)

Create HintDb frame.

Section Frame.

(** A relation between the worlds before and after a handler that only
    looks at the store of players, and the players whose roll may be set. *)
Variable R : World -> World -> Prop.
Variable may_roll : nat -> Prop.

Hypothesis R_pobj : forall w w', pobj w' = pobj w -> R w w'.
Hypothesis R_trans : forall w1 w2 w3, R w1 w2 -> R w2 w3 -> R w1 w3.
Hypothesis R_clear : forall w a,
  R w (w_pobj (upd (pobj w) a (set_lastRoll None (pobj w a))) (pnext w) w).
Hypothesis R_new : forall w p,
  lastRoll p = None -> R w (w_pobj (upd (pobj w) (pnext w) p) (S (pnext w)) w).
Hypothesis R_roll : forall w a v,
  may_roll a ->
  R w (w_pobj (upd (pobj w) a (set_lastRoll v (pobj w a))) (pnext w) w).

Lemma preserves_ret {A} (a : A) : preserves R (ret a).
Proof. intros w r w' H. injection H as _ <-. by apply R_pobj. Qed.

Lemma preserves_throw {A} e : preserves R (@throw A e).
Proof. intros w r w' H. discriminate. Qed.

Lemma preserves_gets {A} (f : World -> A) : preserves R (gets f).
Proof. intros w r w' H. injection H as _ <-. by apply R_pobj. Qed.

Lemma preserves_modify f :
  (forall w, pobj (f w) = pobj w) -> preserves R (modify f).
Proof. intros Hf w r w' H. injection H as _ <-. by apply R_pobj. Qed.

Lemma preserves_bind {A B} (m : M A) (k : A -> M B) :
  preserves R m -> (forall a, preserves R (k a)) -> preserves R (bind m k).
Proof.
  intros Hm Hk w r w' H. unfold bind in H.
  destruct (m w) as [a w1|] eqn:Hmw; [|discriminate].
  eapply R_trans; [by eapply Hm | by eapply Hk].
Qed.

Lemma preserves_forEach {A} (xs : list A) f :
  (forall x, preserves R (f x)) -> preserves R (forEach xs f).
Proof.
  intros Hf. induction xs as [|x xs IH]; cbn [forEach].
  - apply preserves_ret.
  - apply preserves_bind; [apply Hf | intros _; exact IH].
Qed.

Lemma preserves_setTimeout act d : preserves R (setTimeout act d).
Proof. intros w r w' H. injection H as _ <-. by apply R_pobj. Qed.

Lemma preserves_Math_random : preserves R Math_random.
Proof. intros w r w' H. injection H as _ <-. by apply R_pobj. Qed.

Lemma preserves_getSock s : preserves R (getSock s).
Proof.
  intros w r w' H. unfold getSock in H.
  destruct (sockets w !! s); [|discriminate]. injection H as _ <-. by apply R_pobj.
Qed.

Lemma preserves_newP p : lastRoll p = None -> preserves R (newP p).
Proof. intros Hp w r w' H. injection H as _ <-. by apply R_new. Qed.

Lemma preserves_modP_clear a : preserves R (modP a (set_lastRoll None)).
Proof. intros w r w' H. injection H as _ <-. apply R_clear. Qed.

Lemma preserves_modP_roll a v : may_roll a -> preserves R (modP a (set_lastRoll v)).
Proof. intros Ha w r w' H. injection H as _ <-. by apply R_roll. Qed.

Hint Resolve preserves_ret preserves_throw preserves_gets preserves_setTimeout
  preserves_Math_random preserves_getSock preserves_newP preserves_modP_clear
  preserves_modP_roll : frame.

(** Handlers are built from the steps above. *)
Ltac frame_unfold :=
  unfold getL, modL, getP, emit, emit_update_room, emit_chat, packLobbyData,
    lookupLobby, deleteLobby, clearTimeout, db_run, sendLobbyList,
    io_sockets_get, modSock, getUserData, getRandomInt, from_client.

Ltac frame :=
  repeat progress frame_unfold;
  repeat first
    [ solve [auto with frame]
    | progress frame_unfold
    | apply preserves_bind; [|intros ?]
    | apply preserves_modify; intros ?; reflexivity
    | apply preserves_forEach; intros ?
    | match goal with
      | |- preserves _ (match ?x with _ => _ end) => destruct x
      | |- preserves _ (let _ := _ in _) => cbv zeta
      end ].

Lemma preserves_shuffle_loop i array : preserves R (shuffle_loop i array).
Proof. revert array. induction i as [|i IH]; intros array; cbn [shuffle_loop]; frame. Qed.
Hint Resolve preserves_shuffle_loop : frame.

Lemma preserves_shuffle array : preserves R (shuffle array).
Proof. unfold shuffle. frame. Qed.
Hint Resolve preserves_shuffle : frame.

Lemma preserves_processTurn la : preserves R (processTurn la).
Proof. unfold processTurn. frame. Qed.
Hint Resolve preserves_processTurn : frame.

Lemma preserves_startGame la ps : preserves R (startGame la ps).
Proof. unfold startGame. frame. Qed.
Hint Resolve preserves_startGame : frame.

Lemma preserves_determineWinner la : preserves R (determineWinner la).
Proof. unfold determineWinner. frame. Qed.
Hint Resolve preserves_determineWinner : frame.

Lemma preserves_determineWinner_cb s amount : preserves R (determineWinner_cb s amount).
Proof. unfold determineWinner_cb. frame. Qed.

Lemma preserves_sitAtTable s la : preserves R (sitAtTable s la).
Proof. unfold sitAtTable. frame. Qed.
Hint Resolve preserves_sitAtTable : frame.

Lemma preserves_sitAtTable_cb s la err : preserves R (sitAtTable_cb s la err).
Proof. unfold sitAtTable_cb. frame. Qed.

Lemma preserves_leaveLobby s : preserves R (leaveLobby s).
Proof. unfold leaveLobby. frame. Qed.
Hint Resolve preserves_leaveLobby preserves_sitAtTable_cb preserves_determineWinner_cb : frame.

Lemma preserves_performRoll la a isAuto :
  may_roll a -> preserves R (performRoll la (Some a) isAuto).
Proof. intros Ha. unfold performRoll. frame. Qed.

Lemma preserves_complete_db q err : preserves R (complete_db q err).
Proof. unfold complete_db, run_cb. frame. Qed.

Lemma preserves_on_host_set_bet s amount : preserves R (on_host_set_bet s amount).
Proof. unfold on_host_set_bet. frame. Qed.

Lemma preserves_on_join_table s : preserves R (on_join_table s).
Proof. unfold on_join_table. frame. Qed.

Lemma preserves_on_start_game s : preserves R (on_start_game s).
Proof. unfold on_start_game. frame. Qed.

Lemma preserves_on_leave_lobby s : preserves R (on_leave_lobby s).
Proof. unfold on_leave_lobby. frame. Qed.

Lemma preserves_on_disconnect s : preserves R (on_disconnect s).
Proof. unfold on_disconnect. frame. Qed.

(** A timer that does not roll, or rolls for a player that may roll. *)
Lemma preserves_run_timer act :
  (forall la a, act = AutoRoll la a -> may_roll a) -> preserves R (run_timer act).
Proof.
  intros Hact. destruct act as [la a|la a d1 d2|la]; cbn [run_timer].
  - apply preserves_performRoll. by eapply Hact.
  - frame.
  - frame.
Qed.

End Frame.

Section NullStays.
Variable a : nat.

Lemma null_stays_pobj w w' : pobj w' = pobj w -> null_stays a w w'.
Proof. unfold null_stays. by intros ->. Qed.

Lemma null_stays_trans w1 w2 w3 :
  null_stays a w1 w2 -> null_stays a w2 w3 -> null_stays a w1 w3.
Proof. unfold null_stays. auto. Qed.

Lemma null_stays_clear w b :
  null_stays a w (w_pobj (upd (pobj w) b (set_lastRoll None (pobj w b))) (pnext w) w).
Proof.
  unfold null_stays. wsimpl. intros H.
  destruct (decide (a = b)) as [->|Hne]; [by rewrite upd_eq | by rewrite upd_ne].
Qed.

Lemma null_stays_new w p :
  lastRoll p = None ->
  null_stays a w (w_pobj (upd (pobj w) (pnext w) p) (S (pnext w)) w).
Proof.
  unfold null_stays. wsimpl. intros Hp H.
  destruct (decide (a = pnext w)) as [->|Hne]; [by rewrite upd_eq | by rewrite upd_ne].
Qed.

Lemma null_stays_roll w b v :
  b <> a ->
  null_stays a w (w_pobj (upd (pobj w) b (set_lastRoll v (pobj w b))) (pnext w) w).
Proof. unfold null_stays. wsimpl. intros Hne H. by rewrite upd_ne. Qed.

End NullStays.

Lemma on_roll_dice_cases s w so :
  sockets w !! s = Some so ->
  on_roll_dice s w = Ok tt w
  \/ exists la,
      lobby_of s w = Some la /\ on_turn s (lobj w la)
      /\ on_roll_dice s w
         = performRoll la (find_player (pobj w) s (players (lobj w la))) false w.
Proof.
  intros Hso. unfold on_roll_dice. rewrite (bind_getSock _ _ _ _ Hso).
  rewrite (bind_Ok _ _ _ _ _ (lobby_of_sock _ _ _ Hso)).
  destruct (lobby_of s w) as [la|] eqn:Hla; [|by left]. msteps.
  destruct (GameState_eqb (state (lobj w la)) PLAYING) eqn:Hst; [|by left].
  cbn [negb]. destruct (Js.str_eq_opt s _) eqn:Hturn; [|by left].
  right. exists la. split; [done|]. split; [|done]. split.
  - by apply GameState_eqb_spec.
  - by apply str_eq_opt_spec.
Qed.

Lemma fire_timer_cases t w :
  fire_timer t w = Ok tt w
  \/ exists tm,
      find_timer t w = Some tm /\ tm_due tm <= now w
      /\ fire_timer t w
         = run_timer (tm_act tm)
             (w_timers (List.filter (fun tm' => negb (Nat.eqb (tm_id tm') t)) (timers w))
                       (tnext w) w).
Proof.
  unfold fire_timer. msteps.
  destruct (find_timer t w) as [tm|] eqn:Htm; [|by left].
  destruct (tm_due tm <=? now w) eqn:Hdue; [|by left].
  right. exists tm. split; [done|]. split; [by apply Z.leb_le|]. by msteps.
Qed.

Lemma from_client_cases s (m : M unit) w :
  from_client s m w = Ok tt w
  \/ exists so, sockets w !! s = Some so /\ connected so = true /\ from_client s m w = m w.
Proof.
  unfold from_client, io_sockets_get. msteps.
  destruct (sockets w !! s) as [so|] eqn:Hso; [|by left].
  destruct (connected so) eqn:Hc; [|by left].
  right. by exists so.
Qed.

Ltac null_frame L :=
  eapply L;
  eauto using null_stays_pobj, null_stays_trans, null_stays_clear,
    null_stays_new, null_stays_roll.

Lemma null_stays_handle e w w' a :
  handle e w = Ok tt w' ->
  lastRoll (pobj w a) = None -> lastRoll (pobj w' a) <> None ->
  rolls_for e a w.
Proof.
  intros Hrun Hnull Hset.
  assert (Hframe : forall m : M unit,
             preserves (null_stays a) m -> m w = Ok tt w' -> False).
  { intros m Hm Hmw. apply Hset. by apply (Hm w tt w' Hmw). }
  assert (Hclient : forall s (m : M unit),
             preserves (null_stays a) m -> from_client s m w = Ok tt w' -> False).
  { intros s m Hm Hmw.
    destruct (from_client_cases s m w) as [Hskip | (so & _ & _ & Heq)].
    - rewrite Hskip in Hmw. injection Hmw as <-. by apply Hset.
    - rewrite Heq in Hmw. by apply (Hframe m). }
  destruct e as [s amount|s|s|s|s|s|t|q err|d]; cbn [handle] in Hrun.
  - exfalso. eapply Hclient; [|exact Hrun]. null_frame preserves_on_host_set_bet.
  - exfalso. eapply Hclient; [|exact Hrun]. null_frame preserves_on_join_table.
  - exfalso. eapply Hclient; [|exact Hrun]. null_frame preserves_on_start_game.
  - destruct (from_client_cases s (on_roll_dice s) w) as [Hskip | (so & Hso & Hc & Heq)].
    { rewrite Hskip in Hrun. injection Hrun as <-. by destruct (Hset Hnull). }
    rewrite Heq in Hrun.
    destruct (on_roll_dice_cases s w so Hso) as [Hskip | (la & Hla & Hturn & Heq')].
    { rewrite Hskip in Hrun. injection Hrun as <-. by destruct (Hset Hnull). }
    rewrite Heq' in Hrun.
    destruct (find_player (pobj w) s (players (lobj w la))) as [b|] eqn:Hfind.
    + destruct (decide (b = a)) as [->|Hne].
      * by exists so, la.
      * exfalso. eapply Hframe; [|exact Hrun].
        null_frame (preserves_performRoll (null_stays a) (fun b => b <> a)).
    + exfalso. clear -Hrun. unfold performRoll, bind in Hrun.
      repeat match type of Hrun with
             | match ?x with _ => _ end = _ => destruct x; try discriminate
             end.
  - exfalso. eapply Hclient; [|exact Hrun]. null_frame preserves_on_leave_lobby.
  - exfalso. eapply Hclient; [|exact Hrun]. null_frame preserves_on_disconnect.
  - destruct (fire_timer_cases t w) as [Hskip | (tm & Htm & Hdue & Heq)].
    { rewrite Hskip in Hrun. injection Hrun as <-. by destruct (Hset Hnull). }
    rewrite Heq in Hrun.
    assert (Hother : (exists la, tm_act tm = AutoRoll la a)
                     \/ forall la b, tm_act tm = AutoRoll la b -> b <> a).
    { destruct (tm_act tm) as [la b|la b d1 d2|la]; [|by right|by right].
      destruct (decide (b = a)) as [->|Hne]; [left; by exists la|].
      right. by intros ? ? [= _ <-]. }
    destruct Hother as [[la Hact]|Hother].
    { by exists tm, la. }
    exfalso. apply Hset.
    assert (Hp : preserves (null_stays a) (run_timer (tm_act tm))).
    { null_frame (preserves_run_timer (null_stays a) (fun b => b <> a)). }
    by apply (Hp _ _ _ Hrun).
  - exfalso. eapply Hframe; [|exact Hrun]. null_frame preserves_complete_db.
  - injection Hrun as <-. by destruct (Hset Hnull).
Qed.

Lemma getRandomInt_die {B} (k : Z -> M B) w :
  bind (getRandomInt 1 6) k w = k (die (entropy w (rpos w))) (w_rpos (S (rpos w)) w).
Proof. reflexivity. Qed.

Lemma performRoll_spec la a isAuto w :
  let d1 := die (entropy w (rpos w)) in
  let d2 := die (entropy w (S (rpos w))) in
  performRoll la (Some a) isAuto w
  = Ok tt
      (w_timers
         (cleared (lobj w la) (timers w)
          ++ [ {| tm_id := tnext w; tm_due := now w + 1500; tm_act := Reveal la a d1 d2 |};
               {| tm_id := S (tnext w); tm_due := now w + 3500; tm_act := Advance la |} ])
         (S (S (tnext w)))
         (w_outbox
            (outbox w ++ [ {| e_target := ToRoom (lobby_id (lobj w la));
                              e_event := "dice_rolled";
                              e_payload := PDice (p_id (pobj w a)) d1 d2 (d1 + d2) |} ])
            (w_pobj (upd (pobj w) a (set_lastRoll (Some (d1 + d2)) (pobj w a))) (pnext w)
               (w_rpos (S (S (rpos w))) w)))).
Proof.
  intros d1 d2. unfold performRoll, cleared. msteps.
  destruct (timer (lobj w la)) as [t|]; msteps;
    rewrite !getRandomInt_die; msteps; wsimpl; rewrite <- app_assoc; reflexivity.
Qed.

(** *** Rounding to a double *)

Lemma nearest_small p : 0 <= p < 2 ^ 53 -> Js.nearest p = p.
Proof.
  intros Hp. unfold Js.nearest.
  assert (Z.log2 p < 53).
  { destruct (Z.eq_dec p 0) as [->|Hne]; [cbn; lia|].
    apply Z.log2_lt_pow2; lia. }
  destruct (Z.leb_spec (Z.log2 p - 52) 0); [reflexivity|lia].
Qed.

(** From 2^53 on, [nearest p] is one of the two multiples of the unit
    [2 h] around [p], the upper one only if [p] is at least half a unit
    above the lower; and [p] is at least [2^53 * h]. *)
Lemma nearest_large p :
  2 ^ 53 <= p ->
  exists e h q, 0 < h /\ 2 ^ e = 2 * h /\ 2 ^ 53 * h <= p /\ q = p / (2 * h)
    /\ (Js.nearest p = q * (2 * h)
        \/ Js.nearest p = (q + 1) * (2 * h) /\ h <= p mod (2 * h))
    /\ 1 <= e.
Proof.
  intros Hp. unfold Js.nearest.
  assert (Hlog : 53 <= Z.log2 p) by (apply Z.log2_le_pow2; lia).
  set (e := Z.log2 p - 52).
  destruct (Z.leb_spec e 0); [lia|].
  exists e, (2 ^ (e - 1)), (p / 2 ^ e).
  assert (He : 2 ^ e = 2 * 2 ^ (e - 1)).
  { replace e with (Z.succ (e - 1)) at 1 by lia. rewrite Z.pow_succ_r by lia. reflexivity. }
  assert (Hh : 0 < 2 ^ (e - 1)) by (apply Z.pow_pos_nonneg; lia).
  split; [exact Hh|]. split; [exact He|]. split.
  { destruct (Z.log2_spec p ltac:(lia)) as [Hlo _].
    replace (Z.log2 p) with (53 + (e - 1)) in Hlo by lia.
    rewrite Z.pow_add_r in Hlo by lia. exact Hlo. }
  split; [by rewrite He|]. split; [|lia].
  rewrite <- He.
  destruct (Z.ltb_spec (p mod 2 ^ e) (2 ^ (e - 1))); cbn [orb]; [by left|].
  destruct ((p mod 2 ^ e =? 2 ^ (e - 1)) && Z.even (p / 2 ^ e)); [by left|].
  right. split; [reflexivity|lia].
Qed.

(** [nearest] on the numbers of [52 + e] to [53 + e] bits. *)
Lemma nearest_at p e :
  1 <= e -> 2 ^ (52 + e) <= p < 2 ^ (53 + e) ->
  Js.nearest p
  = if (p mod 2 ^ e <? 2 ^ (e - 1)) || ((p mod 2 ^ e =? 2 ^ (e - 1)) && Z.even (p / 2 ^ e))
    then p / 2 ^ e * 2 ^ e else (p / 2 ^ e + 1) * 2 ^ e.
Proof.
  intros He Hp. unfold Js.nearest.
  assert (Hlog : Z.log2 p = 52 + e).
  { apply Z.log2_unique; [lia|].
    replace (Z.succ (52 + e)) with (53 + e) by lia. exact Hp. }
  rewrite Hlog. replace (52 + e - 52) with e by lia.
  destruct (Z.leb_spec e 0); [lia|reflexivity].
Qed.

(** Rounding up adds at most [p / 2^53]. *)
Lemma nearest_err p : 0 <= p -> (Js.nearest p - p) * 2 ^ 53 <= p.
Proof.
  intros Hp. destruct (Z.lt_ge_cases p (2 ^ 53)) as [Hlt|Hge].
  - rewrite nearest_small by lia. lia.
  - destruct (nearest_large p Hge) as (e & h & q & Hh & _ & Hlo & Hq & Hcase & _).
    pose proof (Z.div_mod p (2 * h) ltac:(lia)) as Hdm.
    pose proof (Z.mod_pos_bound p (2 * h) ltac:(lia)) as Hm.
    rewrite <- Hq in Hdm.
    destruct Hcase as [-> | [-> Hhalf]]; nia.
Qed.

(** Rounding does not go below a multiple of 2^53 that is a double. *)
Lemma nearest_ge t p : 0 <= t < 2 ^ 53 -> t * 2 ^ 53 <= p -> t * 2 ^ 53 <= Js.nearest p.
Proof.
  intros Ht Hp. destruct (Z.lt_ge_cases p (2 ^ 53)) as [Hlt|Hge].
  - rewrite nearest_small by lia. lia.
  - destruct (nearest_large p Hge) as (e & h & q & Hh & He & Hlo & Hq & Hcase & He1).
    enough (Hq' : t * 2 ^ 53 <= q * (2 * h)) by (destruct Hcase as [-> | [-> _]]; lia).
    destruct (Z.le_gt_cases e 53) as [Hle|Hgt].
    + assert (H53 : 2 ^ 53 = 2 ^ (53 - e) * (2 * h)).
      { rewrite <- He, <- Z.pow_add_r by lia. f_equal. lia. }
      assert (Hdiv : t * 2 ^ (53 - e) <= q).
      { rewrite Hq. apply Z.div_le_lower_bound; [lia|].
        rewrite H53 in Hp. lia. }
      rewrite H53. nia.
    + assert (H2h : 2 * h = 2 ^ 53 * 2 ^ (e - 53)).
      { rewrite <- He, <- Z.pow_add_r by lia. f_equal. lia. }
      assert (Hpos : 2 <= 2 ^ (e - 53)).
      { change 2 with (2 ^ 1) at 1. apply Z.pow_le_mono_r; lia. }
      assert (Hq52 : 2 ^ 52 <= q).
      { rewrite Hq. apply Z.div_le_lower_bound; [lia|]. lia. }
      nia.
Qed.

Lemma num_nonneg p : 0 <= p -> Js.num p = Js.nearest p.
Proof. intros Hp. unfold Js.num. destruct (Z.ltb_spec p 0); [lia|reflexivity]. Qed.

(** Integers up to 2^53 in absolute value are doubles. *)
Lemma num_exact x : - 2 ^ 53 <= x <= 2 ^ 53 -> Js.num x = x.
Proof.
  intros Hx. unfold Js.num. destruct (Z.ltb_spec x 0).
  - destruct (Z.eq_dec x (- 2 ^ 53)) as [->|Hne]; [reflexivity|].
    rewrite nearest_small by lia. lia.
  - destruct (Z.eq_dec x (2 ^ 53)) as [->|Hne]; [reflexivity|].
    apply nearest_small. lia.
Qed.

Lemma floor_mul_div k n : Js.floor_mul (Qmake k (2 ^ 53)) n = Js.num (k * n) / 2 ^ 53.
Proof. reflexivity. Qed.

(** The rounded product of a draw and [n] stays below [n]. *)
Lemma floor_mul_range k n :
  0 < n <= 2 ^ 53 -> 0 <= Js.floor_mul (Qmake (k mod 2 ^ 53) (2 ^ 53)) n < n.
Proof.
  intros Hn. rewrite floor_mul_div.
  pose proof (Z.mod_pos_bound k (2 ^ 53) ltac:(lia)) as Hk.
  set (k' := k mod 2 ^ 53) in *.
  assert (Hp : 0 <= k' * n) by nia.
  rewrite num_nonneg by exact Hp.
  pose proof (nearest_ge 0 (k' * n) ltac:(lia) ltac:(lia)) as H0.
  pose proof (nearest_err (k' * n) Hp) as Herr.
  split.
  - apply Z.div_pos; lia.
  - apply Z.div_lt_upper_bound; [lia|].
    destruct (Z.lt_ge_cases (Js.nearest (k' * n)) (2 ^ 53 * n)) as [?|Hge]; [done|].
    exfalso. nia.
Qed.

(** *** A die *)

Ltac face_eval :=
  repeat match goal with
  | |- context [face_start ?x] =>
      let v := eval vm_compute in (face_start x) in
      lazymatch v with Z0 => idtac | Zpos _ => idtac end;
      change (face_start x) with v
  end.

Lemma die_floor k : die k = Js.nearest (6 * (k mod 2 ^ 53)) / 2 ^ 53 + 1.
Proof.
  unfold die. change (Js.num (Js.num (6 - 1) + 1)) with 6.
  pose proof (floor_mul_range k 6 ltac:(lia)) as Hr.
  rewrite num_nonneg, nearest_small by lia.
  rewrite floor_mul_div.
  pose proof (Z.mod_pos_bound k (2 ^ 53) ltac:(lia)).
  rewrite num_nonneg by lia. by rewrite (Z.mul_comm 6).
Qed.

Lemma die_range k : 1 <= die k <= 6.
Proof.
  unfold die. change (Js.num (Js.num (6 - 1) + 1)) with 6.
  pose proof (floor_mul_range k 6 ltac:(lia)) as Hr.
  rewrite num_nonneg, nearest_small by lia. lia.
Qed.

(** The rounded product [k / 2^53 * 6] reaches [F] from the draw
    [face_start F] on. *)
Lemma nearest_six_ge k F :
  0 <= k < 2 ^ 53 -> 1 <= F <= 5 ->
  F * 2 ^ 53 <= Js.nearest (6 * k) <-> face_start F <= k.
Proof.
  intros Hk HF.
  pose proof (nearest_err (6 * k) ltac:(lia)) as Herr.
  assert (HF' : F = 1 \/ F = 2 \/ F = 3 \/ F = 4 \/ F = 5) by lia.
  split.
  - intros Hge. destruct HF' as [-> | [-> | [-> | [-> | ->]]]]; face_eval; lia.
  - intros Hge.
    destruct (Z.le_gt_cases (F * 2 ^ 53) (6 * k)) as [Hle|Hgt];
      [apply nearest_ge; lia|].
    destruct HF' as [-> | [-> | [-> | [-> | ->]]]];
      revert Hge; face_eval; intros Hge; try lia.
    + replace k with 6004799503160661 by lia. vm_compute. discriminate.
    + replace k with 7505999378950826 by lia. vm_compute. discriminate.
Qed.

(** Face [f] is drawn exactly on the draws from [face_start (f - 1)] up to,
    not including, [face_start f]. *)
Lemma die_face k f :
  die k = f <-> face_start (f - 1) <= k mod 2 ^ 53 < face_start f.
Proof.
  rewrite die_floor.
  pose proof (Z.mod_pos_bound k (2 ^ 53) ltac:(lia)) as Hk.
  set (k' := k mod 2 ^ 53) in *.
  pose proof (fun F => nearest_six_ge k' F Hk) as Hth.
  pose proof (nearest_ge 0 (6 * k') ltac:(lia) ltac:(lia)) as H0.
  pose proof (floor_mul_range k 6 ltac:(lia)) as Hr.
  rewrite floor_mul_div in Hr. fold k' in Hr.
  rewrite num_nonneg, (Z.mul_comm k') in Hr by lia.
  set (N := Js.nearest (6 * k')) in *.
  pose proof (Z.div_mod N (2 ^ 53) ltac:(lia)) as Hdm.
  pose proof (Z.mod_pos_bound N (2 ^ 53) ltac:(lia)) as Hm.
  assert (Hcases : f <= 0 \/ f = 1 \/ f = 2 \/ f = 3 \/ f = 4 \/ f = 5 \/ f = 6 \/ 7 <= f)
    by lia.
  pose proof (Hth 1 ltac:(lia)) as H1. pose proof (Hth 2 ltac:(lia)) as H2.
  pose proof (Hth 3 ltac:(lia)) as H3. pose proof (Hth 4 ltac:(lia)) as H4.
  pose proof (Hth 5 ltac:(lia)) as H5. clear Hth.
  revert H1 H2 H3 H4 H5. face_eval. intros H1 H2 H3 H4 H5.
  destruct Hcases as [Hf | [-> | [-> | [-> | [-> | [-> | [-> | Hf]]]]]]].
  - assert (face_start f <= 0); [|lia].
    unfold face_start.
    assert ((f * 2 ^ 53 + 5) / 6 < 1) by (apply Z.div_lt_upper_bound; lia).
    destruct ((4 <=? f) && (f <=? 5)); lia.
  - face_eval. lia.
  - face_eval. lia.
  - face_eval. lia.
  - face_eval. lia.
  - face_eval. lia.
  - face_eval. lia.
  - assert (2 ^ 53 <= face_start (f - 1)); [|lia].
    unfold face_start.
    destruct (Z.leb_spec 4 (f - 1)), (Z.leb_spec (f - 1) 5); cbn [andb]; try lia.
    assert (2 ^ 53 <= (((f - 1) * 2 ^ 53 + 5) / 6)); [|lia].
    apply Z.div_le_lower_bound; lia.
Qed.

(** The six faces have the same number of draws, up to one. *)
Lemma face_count f :
  1 <= f <= 6 -> 2 ^ 53 / 6 <= face_start f - face_start (f - 1) <= 2 ^ 53 / 6 + 1.
Proof.
  intros Hf.
  assert (Hc : f = 1 \/ f = 2 \/ f = 3 \/ f = 4 \/ f = 5 \/ f = 6) by lia.
  destruct Hc as [-> | [-> | [-> | [-> | [-> | ->]]]]]; vm_compute; split; discriminate.
Qed.

(** ** The last roll *)

Lemma handle_roll e w a :
  rolls_for e a w ->
  exists la w0,
    handle e w = performRoll la (Some a) (match e with EvTimer _ => true | _ => false end) w0
    /\ pobj w0 = pobj w /\ entropy w0 = entropy w /\ rpos w0 = rpos w
    /\ lobj w0 = lobj w /\ now w0 = now w /\ tnext w0 = tnext w
    /\ timers w0 = match e with EvTimer t => without t (timers w) | _ => timers w end.
Proof.
  destruct e as [s amount|s|s|s|s|s|t|q err|d]; try done.
  - intros (so & la & Hso & Hc & Hla & [Hst Hturn] & Hfind).
    exists la, w. split; [|done].
    cbn [handle]. unfold from_client, io_sockets_get. msteps. rewrite Hso, Hc.
    unfold on_roll_dice. rewrite (bind_getSock _ _ _ _ Hso).
    rewrite (bind_Ok _ _ _ _ _ (lobby_of_sock _ _ _ Hso)), Hla. msteps.
    apply GameState_eqb_spec in Hst. rewrite Hst. cbn [negb].
    apply str_eq_opt_spec in Hturn. rewrite Hturn. cbn [negb]. msteps.
    by rewrite Hfind.
  - intros (tm & la & Htm & Hdue & Hact).
    exists la, (w_timers (without t (timers w)) (tnext w) w). split; [|done].
    cbn [handle]. unfold fire_timer. msteps. rewrite Htm.
    apply Z.leb_le in Hdue. rewrite Hdue. msteps. rewrite Hact. reflexivity.
Qed.

(** C9. After [startGame] every seated player whose id is in the turn
    order has a null last roll.  An event turns a null last roll into a
    number only if it is a roll for that player: a [roll_dice] message of
    the socket on turn or that player's turn timer.  Such a roll sets the
    last roll to the sum of two dice, each computed by [getRandomInt(1, 6)]
    from its own draw of [Math.random]; a die is between 1 and 6 (so the sum
    is between 2 and 12).  Of the 2^53 equally likely draws, face [f] is
    given by those from [face_start (f - 1)] up to [face_start f], which
    are a sixth of all draws, up to one draw: the faces are uniform as far
    as the rounding of doubles allows. *)
Theorem lastRoll_null_until_roll :
  (forall la participants w,
      exists w',
        startGame la participants w = Ok tt w'
        /\ forall a, a ∈ players (lobj w' la) ->
                     p_id (pobj w' a) ∈ turnOrder (lobj w' la) ->
                     lastRoll (pobj w' a) = None)
  /\ (forall e w w' a,
        handle e w = Ok tt w' ->
        lastRoll (pobj w a) = None -> lastRoll (pobj w' a) <> None ->
        rolls_for e a w)
  /\ (forall e w a,
        rolls_for e a w ->
        exists w',
          handle e w = Ok tt w'
          /\ lastRoll (pobj w' a)
             = Some (die (entropy w (rpos w)) + die (entropy w (S (rpos w)))))
  /\ (forall k, 1 <= die k <= 6)
  /\ (forall k f, die k = f <-> face_start (f - 1) <= k mod 2 ^ 53 < face_start f)
  /\ (forall f, 1 <= f <= 6 ->
        2 ^ 53 / 6 <= face_start f - face_start (f - 1) <= 2 ^ 53 / 6 + 1).
Proof.
  split; [|split; [|split; [|split; [|split]]]].
  - intros la ps w.
    destruct (startGame_spec la ps w) as (order & w' & t & Hrun & _ & Hl & Hp & _).
    exists w'. split; [exact Hrun|]. rewrite Hl, Hp. lsimpl.
    intros a Ha. rewrite (proj1 (clear_rolls_id _ _ _ _)), clear_rolls_lastRoll.
    intros Hin. apply includes_spec in Hin. rewrite Hin.
    by rewrite bool_decide_eq_true_2.
  - apply null_stays_handle.
  - intros e w a Hroll.
    destruct (handle_roll e w a Hroll) as (la & w0 & -> & Hp & He & Hr & _).
    rewrite performRoll_spec. eexists. split; [reflexivity|].
    wsimpl. by rewrite He, Hr.
  - apply die_range.
  - apply die_face.
  - apply face_count.
Qed.

Lemma lastRoll_null_until_roll_witness :
  let w := Example.after Example.started in
  lastRoll (pobj w 1%nat) = None
  /\ rolls_for (EvRollDice "sB") 1%nat w
  /\ (exists w', handle (EvRollDice "sB") w = Ok tt w' /\ lastRoll (pobj w' 1%nat) = Some 6)
  /\ (die 7505999378950825, die 7505999378950826) = (5, 6).
Proof.
  intros w.
  assert (Hroll : rolls_for (EvRollDice "sB") 1%nat w).
  { exists (Example.sock 2 "Bob_Ray" 400), 0%nat.
    repeat split; vm_compute; reflexivity. }
  split; [vm_compute; reflexivity|]. split; [exact Hroll|].
  destruct lastRoll_null_until_roll as (_ & _ & Hsum & _ & Hface & _).
  split.
  - destruct (Hsum _ _ _ Hroll) as (w' & Hrun & Hlast).
    exists w'. split; [exact Hrun|]. rewrite Hlast. vm_compute. reflexivity.
  - rewrite (proj2 (Hface 7505999378950825 5)) by (vm_compute; split; [discriminate|reflexivity]).
    rewrite (proj2 (Hface 7505999378950826 6)) by (vm_compute; split; [discriminate|reflexivity]).
    reflexivity.
Defined.

(** ** Timers in order *)

Lemma elem_of_without t tms tm : tm ∈ without t tms <-> tm ∈ tms /\ tm_id tm <> t.
Proof.
  unfold without. rewrite !list_elem_of_In, filter_In, negb_true_iff, Nat.eqb_neq. done.
Qed.

Lemma without_ids_sub t tms x : x ∈ map tm_id (without t tms) -> x ∈ map tm_id tms.
Proof.
  rewrite !list_elem_of_fmap. intros (tm & -> & Hin).
  apply elem_of_without in Hin as [Hin _]. by exists tm.
Qed.

Lemma NoDup_without t tms : NoDup (map tm_id tms) -> NoDup (map tm_id (without t tms)).
Proof.
  induction tms as [|tm tms IH]; cbn; [done|].
  intros Hnd. apply NoDup_cons in Hnd as [Hnot Hnd].
  destruct (Nat.eqb (tm_id tm) t); cbn; [by apply IH|].
  apply NoDup_cons. split; [|by apply IH].
  intros Hin. apply Hnot. by eapply without_ids_sub.
Qed.

Lemma find_timer_pending w tm :
  NoDup (map tm_id (timers w)) -> tm ∈ timers w ->
  find_timer (tm_id tm) w = Some tm.
Proof.
  unfold find_timer. induction (timers w) as [|x xs IH]; cbn; intros Hnd Hin.
  - by apply elem_of_nil in Hin.
  - apply NoDup_cons in Hnd as [Hnot Hnd].
    destruct (Nat.eqb_spec (tm_id x) (tm_id tm)) as [Heq|Hne].
    + apply elem_of_cons in Hin as [->|Hin]; [done|].
      exfalso. apply Hnot. rewrite Heq. apply list_elem_of_fmap. by exists tm.
    + apply elem_of_cons in Hin as [->|Hin]; [done|]. by apply IH.
Qed.

Lemma fire_timer_pending w tm :
  NoDup (map tm_id (timers w)) -> tm ∈ timers w -> tm_due tm <= now w ->
  fire_timer (tm_id tm) w
  = run_timer (tm_act tm) (w_timers (without (tm_id tm) (timers w)) (tnext w) w).
Proof.
  intros Hnd Hin Hdue. unfold fire_timer. msteps.
  rewrite (find_timer_pending _ _ Hnd Hin).
  apply Z.leb_le in Hdue. rewrite Hdue. by msteps.
Qed.

Lemma handles_wf_ext tms n h h' :
  (forall la, h' la = h la) -> handles_wf tms n h -> handles_wf tms n h'.
Proof.
  intros Hext (Hnd & Hlt & Hh). split; [done|]. split; [done|].
  intros la t Ht. rewrite Hext in Ht. by apply (Hh la t).
Qed.

Lemma handles_wf_without t tms n h :
  handles_wf tms n h -> handles_wf (without t tms) n h.
Proof.
  intros (Hnd & Hlt & Hh). split; [by apply NoDup_without|]. split.
  - rewrite Forall_forall in *. intros tm Hin.
    apply elem_of_without in Hin as [Hin _]. by apply Hlt.
  - intros la t' Ht'. destruct (Hh la t' Ht') as [Hlt' Hauto]. split; [done|].
    intros tm Hin. apply elem_of_without in Hin as [Hin _]. by apply Hauto.
Qed.

Lemma handles_wf_push tm tms n h :
  tm_id tm = n -> handles_wf tms n h -> handles_wf (tms ++ [tm]) (S n) h.
Proof.
  intros Hid (Hnd & Hlt & Hh). split; [|split].
  - rewrite map_app. cbn [map]. apply NoDup_app. split; [done|]. split.
    + intros x Hx Hx'. apply list_elem_of_singleton in Hx'. subst x.
      apply list_elem_of_fmap in Hx as (tm' & Heq & Hin).
      rewrite Forall_forall in Hlt. specialize (Hlt tm' Hin). lia.
    + apply NoDup_singleton.
  - apply Forall_app. split.
    + eapply Forall_impl; [exact Hlt|]. intros; cbn in *; lia.
    + apply Forall_singleton. lia.
  - intros la t Ht. destruct (Hh la t Ht) as [Hlt' Hauto]. split; [lia|].
    intros tm' Hin Hid'. apply elem_of_app in Hin as [Hin|Hin]; [by apply Hauto|].
    apply list_elem_of_singleton in Hin. subst tm'. lia.
Qed.

Lemma handles_wf_set la0 tm tms n h :
  tm ∈ tms -> is_AutoRoll (tm_act tm) ->
  handles_wf tms n h ->
  handles_wf tms n (fun la => if Nat.eqb la la0 then Some (tm_id tm) else h la).
Proof.
  intros Hin Hact (Hnd & Hlt & Hh). split; [done|]. split; [done|].
  intros la t Ht. destruct (Nat.eqb la la0); [|by apply (Hh la t)].
  injection Ht as <-. split.
  - rewrite Forall_forall in Hlt. by apply Hlt.
  - intros tm' Hin' Hid. by rewrite (NoDup_map_inj tm_id tms tm tm' Hnd Hin Hin' Hid).
Qed.

Lemma timers_wf_roll la a isAuto w w' :
  timers_wf w -> performRoll la (Some a) isAuto w = Ok tt w' -> timers_wf w'.
Proof.
  intros Hwf. rewrite performRoll_spec. intros [= <-]. unfold timers_wf. wsimpl.
  replace (cleared (lobj w la) (timers w) ++ _)
    with ((cleared (lobj w la) (timers w)
           ++ [{| tm_id := tnext w; tm_due := now w + 1500;
                  tm_act := Reveal la a (die (entropy w (rpos w)))
                                   (die (entropy w (S (rpos w)))) |}])
          ++ [{| tm_id := S (tnext w); tm_due := now w + 3500; tm_act := Advance la |}])
    by (by rewrite <- app_assoc).
  apply handles_wf_push; [done|]. apply handles_wf_push; [done|].
  unfold cleared. destruct (timer (lobj w la)); [by apply handles_wf_without|done].
Qed.

Lemma processTurn_wf la w :
  timers_wf w ->
  exists w' t,
    processTurn la w = Ok tt w'
    /\ timers_wf w'
    /\ lobj w' la = set_timer t (lobj w la)
    /\ (forall la', la' <> la -> lobj w' la' = lobj w la')
    /\ pobj w' = pobj w /\ now w' = now w /\ sockets w' = sockets w
    /\ lobbies w' = lobbies w /\ entropy w' = entropy w /\ rpos w' = rpos w
    /\ (forall tm, tm ∈ timers w -> ~ is_AutoRoll (tm_act tm) -> tm ∈ timers w').
Proof.
  intros Hwf.
  assert (Heta : lobj w la = set_timer (timer (lobj w la)) (lobj w la))
    by (by destruct (lobj w la)).
  unfold processTurn. msteps.
  destruct (turnOrder (lobj w la) !! turnIndex (lobj w la)) as [pid|];
    [|by exists w, (timer (lobj w la))].
  destruct (find_player (pobj w) pid (players (lobj w la))) as [a|];
    [|by exists w, (timer (lobj w la))].
  msteps.
  set (tm := {| tm_id := tnext w; tm_due := now w + 10000; tm_act := AutoRoll la a |}).
  assert (Hgoal : forall w1,
    timers w1 = cleared (lobj w la) (timers w) -> tnext w1 = tnext w ->
    lobj w1 = lobj w ->
    timers_wf (w_lobj (upd (lobj w1) la (set_timer (Some (tnext w)) (lobj w la)))
                 (w_timers (timers w1 ++ [tm]) (S (tnext w1)) w1))
    /\ forall tm', tm' ∈ timers w -> ~ is_AutoRoll (tm_act tm') -> tm' ∈ timers w1 ++ [tm]).
  { intros w1 Ht Hn Hl. split.
    - unfold timers_wf. wsimpl. rewrite Ht, Hn, Hl.
      eapply handles_wf_ext;
        [|apply (handles_wf_set la tm); [| |apply handles_wf_push; [done|]]].
      + intros la'. cbn beta. unfold upd. by destruct (Nat.eqb la' la).
      + apply elem_of_app. right. by apply list_elem_of_singleton.
      + done.
      + unfold cleared. destruct (timer (lobj w la)); [by apply handles_wf_without|done].
    - intros tm' Hin Hnot. rewrite Ht. apply elem_of_app. left.
      unfold cleared. destruct (timer (lobj w la)) as [t|] eqn:Ht0; [|done].
      apply elem_of_without. split; [done|]. intros Hid.
      apply Hnot. destruct Hwf as (_ & _ & Hh).
      by apply (proj2 (Hh la t Ht0)). }
  destruct (timer (lobj w la)) as [t|] eqn:Ht0; msteps.
  - destruct (Hgoal (w_timers (without t (timers w)) (tnext w)
                       (w_outbox (outbox w ++ [{| e_target := ToRoom (lobby_id (lobj w la));
                          e_event := "turn_notification";
                          e_payload := PTurn pid (p_nickname (pobj w a)) |}]) w)))
      as [Hwf' Hkeep]; try done.
    { wsimpl. unfold cleared. by rewrite Ht0. }
    eexists _, _. split; [reflexivity|]. split; [exact Hwf'|]. wsimpl.
    split; [reflexivity|]. split; [intros la' Hne; by rewrite upd_ne|].
    repeat (split; [reflexivity|]). exact Hkeep.
  - destruct (Hgoal (w_outbox (outbox w ++ [{| e_target := ToRoom (lobby_id (lobj w la));
                          e_event := "turn_notification";
                          e_payload := PTurn pid (p_nickname (pobj w a)) |}]) w))
      as [Hwf' Hkeep]; try done.
    { wsimpl. unfold cleared. by rewrite Ht0. }
    eexists _, _. split; [reflexivity|]. split; [exact Hwf'|]. wsimpl.
    split; [reflexivity|]. split; [intros la' Hne; by rewrite upd_ne|].
    repeat (split; [reflexivity|]). exact Hkeep.
Qed.

Lemma advance_step la w tm :
  timers_wf w -> tm ∈ timers w -> tm_act tm = Advance la -> tm_due tm <= now w ->
  (S (turnIndex (lobj w la)) < length (turnOrder (lobj w la)))%nat ->
  exists w' t,
    handle (EvTimer (tm_id tm)) w = Ok tt w'
    /\ timers_wf w'
    /\ lobj w' la = set_timer t (set_turnIndex (S (turnIndex (lobj w la))) (lobj w la))
    /\ pobj w' = pobj w /\ now w' = now w
    /\ (forall tm', tm' ∈ timers w -> tm_id tm' <> tm_id tm ->
                    ~ is_AutoRoll (tm_act tm') -> tm' ∈ timers w').
Proof.
  intros Hwf Hin Hact Hdue Hlen. cbn [handle].
  rewrite (fire_timer_pending w tm (proj1 Hwf) Hin Hdue), Hact. cbn [run_timer].
  msteps.
  assert (Hin_range : (length (turnOrder (lobj w la)) <=? S (turnIndex (lobj w la)))%nat = false)
    by (apply Nat.leb_gt; lia).
  rewrite Hin_range.
  match goal with |- context [processTurn la ?w0] =>
    destruct (processTurn_wf la w0)
      as (w' & t & Hrun & Hwf' & Hl & _ & Hp & Hn & _ & _ & _ & _ & Hkeep) end.
  { unfold timers_wf. wsimpl.
    eapply handles_wf_ext; [|apply handles_wf_without, Hwf].
    intros la'. cbn beta. unfold upd. by destruct (Nat.eqb la' la) eqn:He;
      [apply Nat.eqb_eq in He as ->|]. }
  wsimpl_in Hl. wsimpl_in Hp. wsimpl_in Hn.
  exists w', t. split; [exact Hrun|]. split; [exact Hwf'|].
  split; [exact Hl|]. split; [exact Hp|]. split; [exact Hn|].
  intros tm' Hin' Hid Hnot. apply Hkeep; [|done]. wsimpl.
  by apply elem_of_without.
Qed.

Lemma find_player_roll h a v s ps :
  find_player (upd h a (set_lastRoll v (h a))) s ps = find_player h s ps.
Proof.
  unfold find_player. induction ps as [|b ps IH]; [done|]. cbn [List.find].
  assert (Hid : p_id (upd h a (set_lastRoll v (h a)) b) = p_id (h b)).
  { destruct (decide (b = a)) as [->|Hne]; [by rewrite upd_eq | by rewrite upd_ne]. }
  by rewrite Hid, IH.
Qed.

(** * Further properties of the handlers *)

(** ** Leaving a lobby *)

(** What [leaveLobby] does for a socket whose lobby is registered, field
    by field. *)

Lemma leaveLobby_spec s w so id la :
  sockets w !! s = Some so ->
  currentLobby so = Some id -> id <> "" ->
  assoc id (lobbies w) = Some la ->
  let l := lobj w la in
  let us := remaining_users s l in
  let ps := remaining_players s w la in
  exists w',
    leaveLobby s w = Ok tt w'
    /\ users (lobj w' la) = us
    /\ players (lobj w' la) = ps
    /\ (roomHostId (lobj w' la), roomHostName (lobj w' la))
       = match us with
         | u :: _ => if String.eqb (roomHostId l) s then (u_id u, u_nickname u)
                     else (roomHostId l, roomHostName l)
         | [] => (roomHostId l, roomHostName l)
         end
    /\ (tableHostId (lobj w' la), state (lobj w' la), bet (lobj w' la))
       = (if Js.str_eq_opt s (tableHostId l)
          then match ps, us with
               | a :: _, _ => (Some (p_id (pobj w a)), state l, bet l)
               | [], _ :: _ => (None, IDLE, 0)
               | [], [] => (tableHostId l, state l, bet l)
               end
          else (tableHostId l, state l, bet l))
    /\ (pot (lobj w' la), turnOrder (lobj w' la), turnIndex (lobj w' la),
        timer (lobj w' la), lastWinnerId (lobj w' la), lobby_id (lobj w' la),
        lobby_name (lobj w' la))
       = (pot l, turnOrder l, turnIndex l, timer l, lastWinnerId l, lobby_id l,
          lobby_name l)
    /\ (forall la', la' <> la -> lobj w' la' = lobj w la')
    /\ lobbies w'
       = match us with
         | [] => List.filter (fun kv => negb (String.eqb (fst kv) id)) (lobbies w)
         | _ :: _ => lobbies w
         end
    /\ sockets w' = alter (set_currentLobby None) s (sockets w)
    /\ outbox w'
       = outbox w
         ++ match us with
            | [] => []
            | _ :: _ => [mkEmit (ToRoom id) "update_room"
                           (PRoom (snapshot (lobj w' la) (pobj w)))]
            end
         ++ [mkEmit (ToSocket s) "left_lobby_success" PNone;
             mkEmit ToAll "lobby_list" (PLobbyList (lobby_list w'))]
    /\ (pobj w', pnext w', users_db w', dbq w', qnext w', timers w', tnext w', now w',
        rpos w')
       = (pobj w, pnext w, users_db w, dbq w, qnext w, timers w, tnext w, now w, rpos w).
Proof.
  intros Hso Hcur Hid Hla l us ps.
  unfold leaveLobby. rewrite (bind_getSock _ _ _ _ Hso), Hcur.
  assert (Ht : Js.truthy (Some id) = true).
  { simpl. apply negb_true_iff. by apply String.eqb_neq. }
  rewrite Ht. cbn [negb default]. msteps. rewrite Hla. msteps.
  fold l. fold (remaining_users s l). fold us.
  change (List.filter _ (players l)) with ps.
  destruct us as [|u us']; destruct ps as [|a ps'];
    destruct (String.eqb (roomHostId l) s);
    destruct (Js.str_eq_opt s (tableHostId l)); msteps;
    (eexists; split; [reflexivity|]; wsimpl; lsimpl;
     repeat (split; [reflexivity|]);
     split; [intros la' Hne; by rewrite ?upd_ne|];
     split; [reflexivity|]; split; [reflexivity|];
     split; [unfold mkEmit, snapshot, lobby_list; wsimpl; lsimpl;
             rewrite <- ?app_assoc; reflexivity|]; reflexivity).
Qed.

Lemma find_player_removed h s ps :
  find_player h s (List.filter (fun a => negb (String.eqb (p_id (h a)) s)) ps) = None.
Proof.
  unfold find_player. induction ps as [|a ps IH]; [done|]. cbn [List.filter].
  destruct (String.eqb (p_id (h a)) s) eqn:He; cbn [negb]; [done|].
  cbn [List.find]. by rewrite He.
Qed.

Lemma assoc_deleted id l :
  assoc id (List.filter (fun kv => negb (String.eqb (fst kv) id)) l) = None.
Proof.
  induction l as [|[k v] l IH]; [done|]. cbn [List.filter fst].
  destruct (String.eqb k id) eqn:He; cbn [negb]; [done|].
  cbn [assoc]. by rewrite He.
Qed.

Lemma assoc_deleted_ne id id' l :
  id' <> id ->
  assoc id' (List.filter (fun kv => negb (String.eqb (fst kv) id)) l) = assoc id' l.
Proof.
  intros Hne. induction l as [|[k v] l IH]; [done|]. cbn [List.filter fst].
  destruct (String.eqb_spec k id) as [->|Hk]; cbn [negb assoc].
  - destruct (String.eqb_spec id id'); [congruence|done].
  - by rewrite IH.
Qed.

Lemma filter_elem_of_keep {A} (f : A -> bool) (l : list A) x :
  x ∈ List.filter f l <-> x ∈ l /\ f x = true.
Proof.
  rewrite !list_elem_of_In. apply filter_In.
Qed.

(** X1. [leaveLobby], for a socket in a registered lobby, removes the
    socket from the members and from the seated players and nobody else:
    both lists are the old ones, in their order, without the entries whose
    id is the socket's.  Afterwards no seat is found under the socket's id
    and the socket is in no lobby. *)
Theorem leaveLobby_removes_member s w so id la :
  sockets w !! s = Some so ->
  currentLobby so = Some id -> id <> "" ->
  assoc id (lobbies w) = Some la ->
  exists w',
    leaveLobby s w = Ok tt w'
    /\ users (lobj w' la) = remaining_users s (lobj w la)
    /\ players (lobj w' la) = remaining_players s w la
    /\ (forall u, u ∈ users (lobj w' la) <-> u ∈ users (lobj w la) /\ u_id u <> s)
    /\ (forall a, a ∈ players (lobj w' la)
                  <-> a ∈ players (lobj w la) /\ p_id (pobj w a) <> s)
    /\ find_player (pobj w') s (players (lobj w' la)) = None
    /\ lobby_of s w' = None.
Proof.
  intros Hso Hcur Hid Hla.
  destruct (leaveLobby_spec s w so id la Hso Hcur Hid Hla)
    as (w' & Hrun & Hus & Hps & _ & _ & _ & _ & _ & Hsock & _ & Hrest).
  assert (Hp : pobj w' = pobj w) by congruence.
  exists w'. split; [exact Hrun|]. split; [exact Hus|]. split; [exact Hps|].
  split; [|split; [|split]].
  - intros u. rewrite Hus. unfold remaining_users. rewrite filter_elem_of_keep.
    rewrite negb_true_iff, String.eqb_neq. done.
  - intros a. rewrite Hps. unfold remaining_players. rewrite filter_elem_of_keep.
    rewrite negb_true_iff, String.eqb_neq. done.
  - rewrite Hps, Hp. apply find_player_removed.
  - unfold lobby_of. rewrite Hsock, lookup_alter_eq, Hso. reflexivity.
Qed.

Lemma leaveLobby_removes_member_witness :
  let w := Example.after Example.seated in
  exists w',
    leaveLobby "sB" w = Ok tt w'
    /\ users (lobj w' 0%nat) = [Example.ann; Example.cid]
    /\ players (lobj w 0%nat) = [0%nat; 1%nat]
    /\ players (lobj w' 0%nat) = [0%nat]
    /\ lobby_of "sB" w' = None.
Proof.
  intros w.
  assert (Hso : sockets w !! "sB" = Some (Example.sock 2 "Bob_Ray" 400))
    by (vm_compute; reflexivity).
  assert (Hla : assoc "room_a" (lobbies w) = Some 0%nat) by (vm_compute; reflexivity).
  assert (Hid : "room_a" <> "") by discriminate.
  destruct (leaveLobby_removes_member "sB" w _ "room_a" 0%nat Hso eq_refl Hid Hla)
    as (w' & Hrun & Hus & Hps & _ & _ & _ & Hout).
  exists w'. split; [exact Hrun|].
  split; [rewrite Hus; vm_compute; reflexivity|].
  split; [vm_compute; reflexivity|].
  split; [rewrite Hps; vm_compute; reflexivity|exact Hout].
Defined.

(** X2. [leaveLobby] moves no money: the pot of the lobby, the ledger, the
    pending database statements and the cached balance of every socket are
    as before.  A seated player who leaves is not refunded. *)
Theorem leaveLobby_moves_no_money s w so id la :
  sockets w !! s = Some so ->
  currentLobby so = Some id -> id <> "" ->
  assoc id (lobbies w) = Some la ->
  exists w',
    leaveLobby s w = Ok tt w'
    /\ pot (lobj w' la) = pot (lobj w la)
    /\ users_db w' = users_db w
    /\ dbq w' = dbq w
    /\ forall s', userData <$> (sockets w' !! s') = userData <$> (sockets w !! s').
Proof.
  intros Hso Hcur Hid Hla.
  destruct (leaveLobby_spec s w so id la Hso Hcur Hid Hla)
    as (w' & Hrun & _ & _ & _ & _ & Hkeep & _ & _ & Hsock & _ & Hrest).
  exists w'. split; [exact Hrun|].
  split; [congruence|]. split; [congruence|]. split; [congruence|].
  intros s'. rewrite Hsock.
  destruct (decide (s' = s)) as [->|Hne].
  - rewrite lookup_alter_eq, Hso. reflexivity.
  - by rewrite lookup_alter_ne.
Qed.

Lemma leaveLobby_moves_no_money_witness :
  let w := Example.after Example.seated in
  exists w',
    leaveLobby "sB" w = Ok tt w'
    /\ find_player (pobj w) "sB" (players (lobj w 0%nat)) = Some 1%nat
    /\ find_player (pobj w') "sB" (players (lobj w' 0%nat)) = None
    /\ pot (lobj w' 0%nat) = 200
    /\ map row_balance (users_db w') = [900; 400; 50]
    /\ dbq w' = []
    /\ (balance <$> (sockets w' !! "sB" ≫= userData)) = Some 400.
Proof.
  intros w.
  assert (Hso : sockets w !! "sB" = Some (Example.sock 2 "Bob_Ray" 400))
    by (vm_compute; reflexivity).
  assert (Hla : assoc "room_a" (lobbies w) = Some 0%nat) by (vm_compute; reflexivity).
  assert (Hid : "room_a" <> "") by discriminate.
  destruct (leaveLobby_moves_no_money "sB" w _ "room_a" 0%nat Hso eq_refl Hid Hla)
    as (w' & Hrun & Hpot & Hdb & Hq & Hbal).
  exists w'. split; [exact Hrun|].
  split; [vm_compute; reflexivity|].
  split; [vm_compute in Hrun; injection Hrun as <-; vm_compute; reflexivity|].
  split; [rewrite Hpot; vm_compute; reflexivity|].
  split; [rewrite Hdb; vm_compute; reflexivity|].
  split; [rewrite Hq; vm_compute; reflexivity|].
  specialize (Hbal "sB"). rewrite Hso in Hbal.
  destruct (sockets w' !! "sB") as [so'|]; [|discriminate].
  injection Hbal as Hbal. cbn. rewrite Hbal. reflexivity.
Defined.

(** X3. [leaveLobby] does not touch the round: the turn order, the turn
    index, the lobby's timer handle, the pending timers and the player
    objects are as before, and so is the state unless the table host is
    the one leaving.  A player who leaves stays in the turn order and the
    turn timer stays armed. *)
Theorem leaveLobby_keeps_round s w so id la :
  sockets w !! s = Some so ->
  currentLobby so = Some id -> id <> "" ->
  assoc id (lobbies w) = Some la ->
  exists w',
    leaveLobby s w = Ok tt w'
    /\ turnOrder (lobj w' la) = turnOrder (lobj w la)
    /\ turnIndex (lobj w' la) = turnIndex (lobj w la)
    /\ timer (lobj w' la) = timer (lobj w la)
    /\ timers w' = timers w
    /\ pobj w' = pobj w
    /\ (tableHostId (lobj w la) <> Some s -> state (lobj w' la) = state (lobj w la)).
Proof.
  intros Hso Hcur Hid Hla.
  destruct (leaveLobby_spec s w so id la Hso Hcur Hid Hla)
    as (w' & Hrun & _ & _ & _ & Htable & Hkeep & _ & _ & _ & _ & Hrest).
  exists w'. split; [exact Hrun|].
  repeat (split; [congruence|]).
  intros Hth.
  destruct (Js.str_eq_opt s (tableHostId (lobj w la))) eqn:He.
  - apply str_eq_opt_spec in He. congruence.
  - congruence.
Qed.

Lemma leaveLobby_keeps_round_witness :
  let w := Example.after Example.started in
  exists w',
    on_disconnect "sB" w = Ok tt w'
    /\ state (lobj w' 0%nat) = PLAYING
    /\ turnOrder (lobj w' 0%nat) !! turnIndex (lobj w' 0%nat) = Some "sB"
    /\ map tm_act (timers w') = [AutoRoll 0 1]
    /\ p_id (pobj w' 1%nat) = "sB"
    /\ players (lobj w' 0%nat) = [0%nat].
Proof.
  intros w. unfold on_disconnect. msteps.
  set (w1 := w_sockets _ w).
  assert (Hso : sockets w1 !! "sB"
                = Some (set_connected false (Example.sock 2 "Bob_Ray" 400)))
    by (vm_compute; reflexivity).
  assert (Hla : assoc "room_a" (lobbies w1) = Some 0%nat) by (vm_compute; reflexivity).
  assert (Hid : "room_a" <> "") by discriminate.
  assert (Hth : tableHostId (lobj w1 0%nat) <> Some "sB") by (vm_compute; discriminate).
  destruct (leaveLobby_keeps_round "sB" w1 _ "room_a" 0%nat Hso eq_refl Hid Hla)
    as (w' & Hrun & Hto & Hti & _ & Htm & Hp & Hst).
  exists w'. split; [exact Hrun|].
  split; [rewrite (Hst Hth); vm_compute; reflexivity|].
  split; [rewrite Hto, Hti; vm_compute; reflexivity|].
  split; [rewrite Htm; vm_compute; reflexivity|].
  split; [rewrite Hp; vm_compute; reflexivity|].
  vm_compute in Hrun. injection Hrun as <-. vm_compute. reflexivity.
Defined.

(** X4. The room host.  When somebody else leaves, the room host stays;
    when the room host leaves, the first remaining member becomes room
    host, by id and by name.  So if the room host was a member before,
    and members remain, the room host is a member afterwards. *)
Theorem leaveLobby_room_host s w so id la :
  sockets w !! s = Some so ->
  currentLobby so = Some id -> id <> "" ->
  assoc id (lobbies w) = Some la ->
  {| u_id := roomHostId (lobj w la); u_nickname := roomHostName (lobj w la) |}
    ∈ users (lobj w la) ->
  exists w',
    leaveLobby s w = Ok tt w'
    /\ (roomHostId (lobj w la) <> s ->
        roomHostId (lobj w' la) = roomHostId (lobj w la)
        /\ roomHostName (lobj w' la) = roomHostName (lobj w la))
    /\ (roomHostId (lobj w la) = s ->
        forall u, head (remaining_users s (lobj w la)) = Some u ->
          roomHostId (lobj w' la) = u_id u /\ roomHostName (lobj w' la) = u_nickname u)
    /\ (users (lobj w' la) <> [] ->
        {| u_id := roomHostId (lobj w' la); u_nickname := roomHostName (lobj w' la) |}
          ∈ users (lobj w' la)).
Proof.
  intros Hso Hcur Hid Hla Hhost.
  destruct (leaveLobby_spec s w so id la Hso Hcur Hid Hla)
    as (w' & Hrun & Hus & _ & Hroom & _).
  exists w'. split; [exact Hrun|].
  rewrite Hus.
  destruct (String.eqb_spec (roomHostId (lobj w la)) s) as [He|He].
  - split; [done|]. split.
    + intros _ u Hu. destruct (remaining_users s (lobj w la)) as [|u' us]; [done|].
      injection Hu as ->. by injection Hroom as -> ->.
    + intros Hne. destruct (remaining_users s (lobj w la)) as [|u' us]; [done|].
      injection Hroom as -> ->. destruct u'. apply elem_of_cons. by left.
  - assert (Hsame : roomHostId (lobj w' la) = roomHostId (lobj w la)
                    /\ roomHostName (lobj w' la) = roomHostName (lobj w la)).
    { destruct (remaining_users s (lobj w la)); by injection Hroom as -> ->. }
    destruct Hsame as [-> ->]. split; [done|]. split; [done|].
    intros _. unfold remaining_users. apply filter_elem_of_keep.
    split; [exact Hhost|]. cbn [u_id]. apply negb_true_iff. by apply String.eqb_neq.
Qed.

Lemma leaveLobby_room_host_witness :
  let w := Example.after Example.seated in
  exists w',
    leaveLobby "sA" w = Ok tt w'
    /\ (roomHostId (lobj w 0%nat), roomHostName (lobj w 0%nat)) = ("sA", "Ann_Lee")
    /\ (roomHostId (lobj w' 0%nat), roomHostName (lobj w' 0%nat)) = ("sB", "Bob_Ray").
Proof.
  intros w.
  assert (Hso : sockets w !! "sA" = Some (Example.sock 1 "Ann_Lee" 900))
    by (vm_compute; reflexivity).
  assert (Hla : assoc "room_a" (lobbies w) = Some 0%nat) by (vm_compute; reflexivity).
  assert (Hid : "room_a" <> "") by discriminate.
  assert (Hhost : {| u_id := roomHostId (lobj w 0%nat);
                     u_nickname := roomHostName (lobj w 0%nat) |} ∈ users (lobj w 0%nat)).
  { replace (users (lobj w 0%nat)) with [Example.ann; Example.bob; Example.cid]
      by (vm_compute; reflexivity).
    replace (roomHostId (lobj w 0%nat)) with "sA" by (vm_compute; reflexivity).
    replace (roomHostName (lobj w 0%nat)) with "Ann_Lee" by (vm_compute; reflexivity).
    apply elem_of_cons. by left. }
  assert (Hr : roomHostId (lobj w 0%nat) = "sA") by (vm_compute; reflexivity).
  assert (Hhd : head (remaining_users "sA" (lobj w 0%nat)) = Some Example.bob)
    by (vm_compute; reflexivity).
  destruct (leaveLobby_room_host "sA" w _ "room_a" 0%nat Hso eq_refl Hid Hla Hhost)
    as (w' & Hrun & _ & Hsucc & _).
  destruct (Hsucc Hr _ Hhd) as [Hi Hn].
  exists w'. split; [exact Hrun|].
  split; [vm_compute; reflexivity|]. rewrite Hi, Hn. reflexivity.
Defined.

(** X5. The table host.  When somebody else leaves, the table host, the
    state and the bet stay.  When the table host leaves and players remain
    seated, the first of them becomes table host and is seated under that
    id; the state, the bet and the pot stay, also while a round is on. *)
Theorem leaveLobby_table_host s w so id la :
  sockets w !! s = Some so ->
  currentLobby so = Some id -> id <> "" ->
  assoc id (lobbies w) = Some la ->
  exists w',
    leaveLobby s w = Ok tt w'
    /\ (tableHostId (lobj w la) <> Some s ->
        (tableHostId (lobj w' la), state (lobj w' la), bet (lobj w' la))
        = (tableHostId (lobj w la), state (lobj w la), bet (lobj w la)))
    /\ (tableHostId (lobj w la) = Some s ->
        forall a, head (remaining_players s w la) = Some a ->
          tableHostId (lobj w' la) = Some (p_id (pobj w' a))
          /\ find_player (pobj w') (p_id (pobj w' a)) (players (lobj w' la)) = Some a
          /\ (state (lobj w' la), bet (lobj w' la), pot (lobj w' la))
             = (state (lobj w la), bet (lobj w la), pot (lobj w la))).
Proof.
  intros Hso Hcur Hid Hla.
  destruct (leaveLobby_spec s w so id la Hso Hcur Hid Hla)
    as (w' & Hrun & _ & Hps & _ & Htable & Hkeep & _ & _ & _ & _ & Hrest).
  assert (Hp : pobj w' = pobj w) by congruence.
  exists w'. split; [exact Hrun|]. split.
  - intros Hne. rewrite Htable.
    destruct (Js.str_eq_opt s (tableHostId (lobj w la))) eqn:He; [|done].
    apply str_eq_opt_spec in He. congruence.
  - intros Hth a Ha. rewrite Hps, Hp.
    assert (He : Js.str_eq_opt s (tableHostId (lobj w la)) = true)
      by (by apply str_eq_opt_spec).
    rewrite He in Htable.
    destruct (remaining_players s w la) as [|a' ps]; [done|].
    injection Ha as ->. injection Htable as -> -> ->.
    split; [done|]. split; [|congruence].
    unfold find_player. cbn [List.find]. by rewrite String.eqb_refl.
Qed.

Lemma leaveLobby_table_host_witness :
  let w := Example.after Example.started in
  exists w',
    on_disconnect "sA" w = Ok tt w'
    /\ tableHostId (lobj w 0%nat) = Some "sA"
    /\ tableHostId (lobj w' 0%nat) = Some "sB"
    /\ (state (lobj w' 0%nat), bet (lobj w' 0%nat), pot (lobj w' 0%nat))
       = (PLAYING, 100, 200).
Proof.
  intros w. unfold on_disconnect. msteps.
  set (w1 := w_sockets _ w).
  assert (Hso : sockets w1 !! "sA"
                = Some (set_connected false (Example.sock 1 "Ann_Lee" 900)))
    by (vm_compute; reflexivity).
  assert (Hla : assoc "room_a" (lobbies w1) = Some 0%nat) by (vm_compute; reflexivity).
  assert (Hid : "room_a" <> "") by discriminate.
  assert (Hth : tableHostId (lobj w1 0%nat) = Some "sA") by (vm_compute; reflexivity).
  assert (Hhd : head (remaining_players "sA" w1 0%nat) = Some 1%nat)
    by (vm_compute; reflexivity).
  destruct (leaveLobby_table_host "sA" w1 _ "room_a" 0%nat Hso eq_refl Hid Hla)
    as (w' & Hrun & _ & Hsucc).
  destruct (Hsucc Hth _ Hhd) as (Ht & _ & Hsame).
  exists w'. split; [exact Hrun|].
  split; [vm_compute; reflexivity|].
  split.
  - rewrite Ht. vm_compute in Hrun. injection Hrun as <-. vm_compute. reflexivity.
  - rewrite Hsame. vm_compute. reflexivity.
Defined.

(** X6. When the last member leaves, the lobby is deleted from the
    registry and every other entry stays.  Nothing is sent to the room:
    the leaver gets [left_lobby_success] and everybody the new list of
    lobbies. *)
Theorem leaveLobby_last_member_deletes s w so id la :
  sockets w !! s = Some so ->
  currentLobby so = Some id -> id <> "" ->
  assoc id (lobbies w) = Some la ->
  remaining_users s (lobj w la) = [] ->
  exists w',
    leaveLobby s w = Ok tt w'
    /\ assoc id (lobbies w') = None
    /\ (forall id', id' <> id -> assoc id' (lobbies w') = assoc id' (lobbies w))
    /\ outbox w'
       = outbox w ++ [mkEmit (ToSocket s) "left_lobby_success" PNone;
                      mkEmit ToAll "lobby_list" (PLobbyList (lobby_list w'))].
Proof.
  intros Hso Hcur Hid Hla Hempty.
  destruct (leaveLobby_spec s w so id la Hso Hcur Hid Hla)
    as (w' & Hrun & _ & _ & _ & _ & _ & _ & Hreg & _ & Hout & _).
  rewrite Hempty in Hreg, Hout.
  exists w'. split; [exact Hrun|]. rewrite Hreg.
  split; [apply assoc_deleted|]. split; [intros id' Hne; by apply assoc_deleted_ne|].
  exact Hout.
Qed.

Lemma leaveLobby_last_member_deletes_witness :
  let w := Example.after [EvLeaveLobby "sB"; EvLeaveLobby "sC"] in
  exists w',
    leaveLobby "sA" w = Ok tt w'
    /\ users (lobj w 0%nat) = [Example.ann]
    /\ assoc "room_a" (lobbies w) = Some 0%nat
    /\ assoc "room_a" (lobbies w') = None
    /\ outbox w'
       = outbox w ++ [mkEmit (ToSocket "sA") "left_lobby_success" PNone;
                      mkEmit ToAll "lobby_list" (PLobbyList [])].
Proof.
  intros w.
  assert (Hso : sockets w !! "sA" = Some (Example.sock 1 "Ann_Lee" 1000))
    by (vm_compute; reflexivity).
  assert (Hla : assoc "room_a" (lobbies w) = Some 0%nat) by (vm_compute; reflexivity).
  assert (Hid : "room_a" <> "") by discriminate.
  assert (Hempty : remaining_users "sA" (lobj w 0%nat) = []) by (vm_compute; reflexivity).
  destruct (leaveLobby_last_member_deletes "sA" w _ "room_a" 0%nat Hso eq_refl Hid Hla Hempty)
    as (w' & Hrun & Hnone & _ & Hout).
  exists w'. split; [exact Hrun|].
  split; [vm_compute; reflexivity|]. split; [exact Hla|]. split; [exact Hnone|].
  rewrite Hout. do 3 f_equal.
  vm_compute in Hrun. injection Hrun as <-. vm_compute. reflexivity.
Defined.

(** X7. When members remain, the registry stays as it is and the room is
    sent [update_room] with the lobby as it is after the leave (the new
    hosts and lists), before the leaver gets [left_lobby_success] and
    everybody the list of lobbies. *)
Theorem leaveLobby_members_remain s w so id la :
  sockets w !! s = Some so ->
  currentLobby so = Some id -> id <> "" ->
  assoc id (lobbies w) = Some la ->
  remaining_users s (lobj w la) <> [] ->
  exists w',
    leaveLobby s w = Ok tt w'
    /\ lobbies w' = lobbies w
    /\ outbox w'
       = outbox w
         ++ [mkEmit (ToRoom id) "update_room" (PRoom (snapshot (lobj w' la) (pobj w')));
             mkEmit (ToSocket s) "left_lobby_success" PNone;
             mkEmit ToAll "lobby_list" (PLobbyList (lobby_list w'))].
Proof.
  intros Hso Hcur Hid Hla Hne.
  destruct (leaveLobby_spec s w so id la Hso Hcur Hid Hla)
    as (w' & Hrun & _ & _ & _ & _ & _ & _ & Hreg & _ & Hout & Hrest).
  assert (Hp : pobj w' = pobj w) by congruence.
  exists w'. split; [exact Hrun|]. rewrite Hp.
  destruct (remaining_users s (lobj w la)); [done|]. by split.
Qed.

Lemma leaveLobby_members_remain_witness :
  let w := Example.after Example.seated in
  exists w',
    leaveLobby "sA" w = Ok tt w'
    /\ lobbies w' = [("room_a", 0%nat)]
    /\ exists snap info,
        outbox w'
        = outbox w
          ++ [mkEmit (ToRoom "room_a") "update_room" (PRoom snap);
              mkEmit (ToSocket "sA") "left_lobby_success" PNone;
              mkEmit ToAll "lobby_list" (PLobbyList [info])]
        /\ (s_roomHostId snap, s_tableHostId snap, s_users snap, s_pot snap)
           = ("sB", Some "sB", [Example.bob; Example.cid], 200)
        /\ (li_users info, li_host info) = (2%nat, "Bob_Ray").
Proof.
  intros w.
  assert (Hso : sockets w !! "sA" = Some (Example.sock 1 "Ann_Lee" 900))
    by (vm_compute; reflexivity).
  assert (Hla : assoc "room_a" (lobbies w) = Some 0%nat) by (vm_compute; reflexivity).
  assert (Hid : "room_a" <> "") by discriminate.
  assert (Hne : remaining_users "sA" (lobj w 0%nat) <> []) by (vm_compute; discriminate).
  destruct (leaveLobby_members_remain "sA" w _ "room_a" 0%nat Hso eq_refl Hid Hla Hne)
    as (w' & Hrun & Hreg & Hout).
  exists w'. split; [exact Hrun|].
  split; [rewrite Hreg; vm_compute; reflexivity|].
  vm_compute in Hrun. injection Hrun as Hw.
  eexists _, _. split; [rewrite Hout, <- Hw; vm_compute; reflexivity|].
  split; reflexivity.
Defined.

(** X8. For a socket that is in no lobby, [leaveLobby] and the
    [leave_lobby] handler change nothing and send nothing, not even
    [left_lobby_success]; a disconnect only marks the socket as gone. *)
Theorem leaveLobby_outside_lobby s w so :
  sockets w !! s = Some so ->
  currentLobby so = None ->
  leaveLobby s w = Ok tt w
  /\ on_leave_lobby s w = Ok tt w
  /\ exists w', on_disconnect s w = Ok tt w'
       /\ sockets w' = alter (set_connected false) s (sockets w)
       /\ lobbies w' = lobbies w /\ lobj w' = lobj w /\ outbox w' = outbox w.
Proof.
  intros Hso Hcur.
  assert (H : leaveLobby s w = Ok tt w).
  { unfold leaveLobby. by rewrite (bind_getSock _ _ _ _ Hso), Hcur. }
  split; [exact H|]. split.
  - unfold on_leave_lobby. rewrite (bind_getSock _ _ _ _ Hso), Hcur. msteps. exact H.
  - unfold on_disconnect. msteps. unfold leaveLobby.
    erewrite bind_getSock
      by (wsimpl; rewrite lookup_alter_eq, Hso; reflexivity).
    cbn [set_connected currentLobby]. rewrite Hcur. cbn [Js.truthy negb].
    eexists. split; [reflexivity|]. done.
Qed.

Lemma leaveLobby_outside_lobby_witness :
  let w := Example.after [EvLeaveLobby "sB"] in
  leaveLobby "sB" w = Ok tt w /\ on_leave_lobby "sB" w = Ok tt w.
Proof.
  intros w.
  assert (Hso : sockets w !! "sB"
                = Some (set_currentLobby None (Example.sock 2 "Bob_Ray" 500)))
    by (vm_compute; reflexivity).
  destruct (leaveLobby_outside_lobby "sB" w _ Hso eq_refl) as (H1 & H2 & _).
  by split.
Defined.

(** X9. A seated player cannot leave by the [leave_lobby] message: the
    handler only answers with an error.  A disconnect of the same socket
    does remove it: afterwards it has no seat, is no member and is in no
    lobby. *)
Theorem leave_lobby_seated_refused s w so id la a :
  sockets w !! s = Some so ->
  currentLobby so = Some id -> id <> "" ->
  assoc id (lobbies w) = Some la ->
  find_player (pobj w) s (players (lobj w la)) = Some a ->
  on_leave_lobby s w
  = Ok tt (with_emit (ToSocket s) "error_msg"
             (PText "You cannot leave while seated at the table!") w)
  /\ exists w',
       on_disconnect s w = Ok tt w'
       /\ find_player (pobj w') s (players (lobj w' la)) = None
       /\ (forall u, u ∈ users (lobj w' la) -> u_id u <> s)
       /\ sockets w' !! s = Some (set_currentLobby None (set_connected false so)).
Proof.
  intros Hso Hcur Hid Hla Hseat. split.
  - unfold on_leave_lobby. rewrite (bind_getSock _ _ _ _ Hso), Hcur. msteps.
    rewrite Hla. msteps. rewrite Hseat. reflexivity.
  - unfold on_disconnect. msteps.
    set (w1 := w_sockets _ w).
    assert (Hso1 : sockets w1 !! s = Some (set_connected false so)).
    { unfold w1. wsimpl. by rewrite lookup_alter_eq, Hso. }
    destruct (leaveLobby_spec s w1 _ id la Hso1 Hcur Hid Hla)
      as (w' & Hrun & Hus & Hps & _ & _ & _ & _ & _ & Hsock & _ & Hrest).
    assert (Hp : pobj w' = pobj w1) by congruence.
    exists w'. split; [exact Hrun|]. split; [|split].
    + rewrite Hps, Hp. apply find_player_removed.
    + intros u. rewrite Hus. unfold remaining_users. rewrite filter_elem_of_keep.
      rewrite negb_true_iff, String.eqb_neq. tauto.
    + rewrite Hsock, lookup_alter_eq, Hso1. reflexivity.
Qed.

Lemma leave_lobby_seated_refused_witness :
  let w := Example.after Example.seated in
  on_leave_lobby "sB" w
  = Ok tt (with_emit (ToSocket "sB") "error_msg"
             (PText "You cannot leave while seated at the table!") w)
  /\ exists w',
       on_disconnect "sB" w = Ok tt w'
       /\ find_player (pobj w') "sB" (players (lobj w' 0%nat)) = None.
Proof.
  intros w.
  assert (Hso : sockets w !! "sB" = Some (Example.sock 2 "Bob_Ray" 400))
    by (vm_compute; reflexivity).
  assert (Hla : assoc "room_a" (lobbies w) = Some 0%nat) by (vm_compute; reflexivity).
  assert (Hid : "room_a" <> "") by discriminate.
  assert (Hseat : find_player (pobj w) "sB" (players (lobj w 0%nat)) = Some 1%nat)
    by (vm_compute; reflexivity).
  destruct (leave_lobby_seated_refused "sB" w _ "room_a" 0%nat 1%nat Hso eq_refl Hid Hla Hseat)
    as (Hrefused & w' & Hrun & Hgone & _).
  split; [exact Hrefused|]. exists w'. by split.
Defined.

(** ** Opening a table *)

(** What [host_set_bet] does when it passes its three guards. *)

Lemma on_host_set_bet_spec s amount w so ud la n :
  sockets w !! s = Some so -> userData so = Some ud ->
  lobby_of s w = Some la ->
  state (lobj w la) <> PLAYING ->
  table_occupied s (lobj w la) = false ->
  Js.parseInt amount = Some n -> 0 < n ->
  let chat := mkEmit (ToRoom (lobby_id (lobj w la))) "chat_msg"
                (PChat "SYSTEM" ("Table opened! Bet: " +:+ show n +:+ " " +:+ rouble)) in
  exists w',
    on_host_set_bet s amount w = Ok tt w'
    /\ lobj w' la = opened s n (lobj w la)
    /\ (forall la', la' <> la -> lobj w' la' = lobj w la')
    /\ (dbq w', qnext w', outbox w')
       = (if balance ud <? n
          then (dbq w, qnext w,
                outbox w ++ [mkEmit (ToSocket s) "error_msg" (PText "Insufficient funds"); chat])
          else (dbq w ++ [{| q_id := qnext w; q_op := Debit n (ud_id ud); q_cb := SeatCb s la |}],
                S (qnext w), outbox w ++ [chat]))
    /\ (lobbies w', pobj w', pnext w', sockets w', users_db w', timers w', tnext w', now w', rpos w')
       = (lobbies w, pobj w, pnext w, sockets w, users_db w, timers w, tnext w, now w, rpos w).
Proof.
  intros Hso Hud Hla Hst Hocc Hn Hpos chat.
  unfold on_host_set_bet. rewrite (bind_getSock _ _ _ _ Hso).
  rewrite (bind_Ok _ _ _ _ _ (lobby_of_sock _ _ _ Hso)), Hla. msteps.
  destruct (GameState_eqb (state (lobj w la)) PLAYING) eqn:He.
  { by apply GameState_eqb_spec in He. }
  rewrite Hocc, Hn. assert (Hle : (n <=? 0) = false) by (apply Z.leb_gt; lia).
  rewrite Hle. msteps. unfold sitAtTable. msteps. cbn [find_player List.find].
  erewrite bind_bind, bind_getUserData by (wsimpl; eassumption).
  destruct (balance ud <? n); msteps;
    (eexists; split; [reflexivity|]; wsimpl; split; [reflexivity|];
     split; [intros la' Hne; by rewrite ?upd_ne|];
     split; [unfold chat, mkEmit; rewrite <- ?app_assoc; reflexivity|reflexivity]).
Qed.

Lemma table_occupied_spec s l :
  table_occupied s l = true
  <-> (state l = BETTING \/ state l = PLAYING)
      /\ exists h, tableHostId l = Some h /\ h <> "" /\ h <> s.
Proof.
  unfold table_occupied. rewrite !andb_true_iff, !negb_true_iff. split.
  - intros [[[Ht Hne] Hidle] Hfin]. split.
    + destruct (state l); try discriminate; auto.
    + destruct (tableHostId l) as [h|]; [|discriminate]. exists h.
      cbn in Ht, Hne. apply negb_true_iff in Ht.
      apply String.eqb_neq in Ht, Hne. done.
  - intros [Hst (h & -> & Hh & Hs)]. cbn.
    repeat split.
    + apply negb_true_iff. by apply String.eqb_neq.
    + apply String.eqb_neq. done.
    + by destruct Hst as [-> | ->].
    + by destruct Hst as [-> | ->].
Qed.

(** X10. When no round is on, nobody else holds the table and [parseInt]
    of the amount is [n] with [0 < n < 2^53], [host_set_bet] sets the bet
    to [n], the state
    to BETTING and the table host to the requester, empties the seats and
    sets the pot to 0 and the last winner to [null].  The ledger and the
    cached balances are untouched, so whoever was seated loses the seat
    and the stake without a refund.  The requester is not seated yet: the
    only statement queued is the debit of [n] from the requester, and none
    is queued when the requester's cached balance is below [n]; then the
    requester is told 'Insufficient funds' and holds a table without a
    seat. *)
Theorem host_set_bet_opens_table s amount w so ud la n :
  sockets w !! s = Some so -> userData so = Some ud ->
  lobby_of s w = Some la ->
  state (lobj w la) <> PLAYING ->
  table_occupied s (lobj w la) = false ->
  Js.parseInt amount = Some n -> 0 < n < 2 ^ 53 ->
  exists w',
    on_host_set_bet s amount w = Ok tt w'
    /\ (bet (lobj w' la), state (lobj w' la), tableHostId (lobj w' la))
       = (n, BETTING, Some s)
    /\ (players (lobj w' la), pot (lobj w' la), lastWinnerId (lobj w' la)) = ([], 0, None)
    /\ users (lobj w' la) = users (lobj w la)
    /\ users_db w' = users_db w /\ sockets w' = sockets w
    /\ dbq w'
       = dbq w ++ (if balance ud <? n then []
                   else [{| q_id := qnext w; q_op := Debit n (ud_id ud);
                            q_cb := SeatCb s la |}])
    /\ (balance ud < n ->
        exists e, outbox w' = outbox w ++ [mkEmit (ToSocket s) "error_msg"
                                             (PText "Insufficient funds"); e]).
Proof.
  intros Hso Hud Hla Hst Hocc Hn [Hpos _].
  destruct (on_host_set_bet_spec s amount w so ud la n Hso Hud Hla Hst Hocc Hn Hpos)
    as (w' & Hrun & Hl & _ & Hq & Hrest).
  exists w'. split; [exact Hrun|]. rewrite Hl. cbn.
  split; [done|]. split; [done|]. split; [done|].
  split; [congruence|]. split; [congruence|].
  destruct (balance ud <? n) eqn:Hb.
  - injection Hq as -> _ ->. rewrite app_nil_r. split; [done|]. intros _. by eexists.
  - injection Hq as -> _ ->. split; [done|]. intros Hlt. apply Z.ltb_ge in Hb. lia.
Qed.

Lemma host_set_bet_opens_table_witness :
  let w := Example.after Example.seated in
  exists w',
    on_host_set_bet "sA" "250" w = Ok tt w'
    /\ (players (lobj w 0%nat), pot (lobj w 0%nat)) = ([0%nat; 1%nat], 200)
    /\ (bet (lobj w' 0%nat), state (lobj w' 0%nat), tableHostId (lobj w' 0%nat))
       = (250, BETTING, Some "sA")
    /\ (players (lobj w' 0%nat), pot (lobj w' 0%nat), lastWinnerId (lobj w' 0%nat))
       = ([], 0, None)
    /\ map row_balance (users_db w') = [900; 400; 50]
    /\ dbq w' = [{| q_id := 2; q_op := Debit 250 1; q_cb := SeatCb "sA" 0 |}].
Proof.
  intros w.
  assert (Hso : sockets w !! "sA" = Some (Example.sock 1 "Ann_Lee" 900))
    by (vm_compute; reflexivity).
  assert (Hla : lobby_of "sA" w = Some 0%nat) by (vm_compute; reflexivity).
  assert (Hst : state (lobj w 0%nat) <> PLAYING) by (vm_compute; discriminate).
  assert (Hocc : table_occupied "sA" (lobj w 0%nat) = false) by (vm_compute; reflexivity).
  assert (Hn : Js.parseInt "250" = Some 250) by (vm_compute; reflexivity).
  destruct (host_set_bet_opens_table "sA" "250" w _ _ 0%nat 250 Hso eq_refl Hla Hst Hocc Hn)
    as (w' & Hrun & Hopen & Hreset & _ & Hdb & _ & Hq & _); [lia|].
  exists w'. split; [exact Hrun|]. split; [vm_compute; reflexivity|].
  split; [exact Hopen|]. split; [exact Hreset|].
  split; [rewrite Hdb; vm_compute; reflexivity|].
  rewrite Hq. vm_compute. reflexivity.
Defined.

(** X11. The guards of [host_set_bet], whatever the amount: while a round
    is on everybody, the table host included, is told 'Game in progress';
    while bets are open and somebody else holds the table the requester is
    told 'Table occupied'; in both cases nothing else changes.  An idle or
    finished table is never occupied: any member may open the next one. *)
Theorem host_set_bet_guards s amount w so la :
  sockets w !! s = Some so ->
  lobby_of s w = Some la ->
  (state (lobj w la) = PLAYING ->
   on_host_set_bet s amount w
   = Ok tt (with_emit (ToSocket s) "error_msg" (PText "Game in progress") w))
  /\ (state (lobj w la) = BETTING ->
      forall h, tableHostId (lobj w la) = Some h -> h <> "" -> h <> s ->
      on_host_set_bet s amount w
      = Ok tt (with_emit (ToSocket s) "error_msg" (PText "Table occupied") w))
  /\ (state (lobj w la) = IDLE \/ state (lobj w la) = FINISHED ->
      table_occupied s (lobj w la) = false).
Proof.
  intros Hso Hla.
  assert (Hrun : on_host_set_bet s amount w
    = (let l := lobj w la in
       if GameState_eqb (state l) PLAYING
       then emit (ToSocket s) "error_msg" (PText "Game in progress")
       else if table_occupied s l
       then emit (ToSocket s) "error_msg" (PText "Table occupied")
       else
        match Js.parseInt amount with
        | None => emit (ToSocket s) "error_msg" (PText "Invalid bet")
        | Some amount =>
            if amount <=? 0
            then emit (ToSocket s) "error_msg" (PText "Invalid bet")
            else
              modL la (set_bet amount);;
              modL la (set_state BETTING);;
              modL la (set_tableHostId (Some s));;
              modL la (set_players []);;
              modL la (set_pot 0);;
              modL la (set_lastWinnerId None);;
              sitAtTable s la;;
              emit_chat la "SYSTEM"
                ("Table opened! Bet: " +:+ show amount +:+ " " +:+ rouble)
        end) w).
  { unfold on_host_set_bet. rewrite (bind_getSock _ _ _ _ Hso).
    rewrite (bind_Ok _ _ _ _ _ (lobby_of_sock _ _ _ Hso)), Hla. by msteps. }
  rewrite Hrun. cbv zeta. split; [|split].
  - intros ->. reflexivity.
  - intros Hst h Hh Hne Hs.
    assert (Hocc : table_occupied s (lobj w la) = true).
    { apply table_occupied_spec. split; [by left|]. by exists h. }
    rewrite Hst, Hocc. reflexivity.
  - intros Hst. destruct (table_occupied s (lobj w la)) eqn:Hocc; [|done].
    apply table_occupied_spec in Hocc as [[H|H] _]; destruct Hst; congruence.
Qed.

Lemma host_set_bet_guards_witness :
  let w := Example.after Example.seated in
  let w2 := Example.after Example.started in
  on_host_set_bet "sB" "5" w
  = Ok tt (with_emit (ToSocket "sB") "error_msg" (PText "Table occupied") w)
  /\ on_host_set_bet "sA" "5" w2
     = Ok tt (with_emit (ToSocket "sA") "error_msg" (PText "Game in progress") w2).
Proof.
  intros w w2.
  assert (Hso : sockets w !! "sB" = Some (Example.sock 2 "Bob_Ray" 400))
    by (vm_compute; reflexivity).
  assert (Hla : lobby_of "sB" w = Some 0%nat) by (vm_compute; reflexivity).
  assert (Hst : state (lobj w 0%nat) = BETTING) by (vm_compute; reflexivity).
  assert (Hth : tableHostId (lobj w 0%nat) = Some "sA") by (vm_compute; reflexivity).
  assert (Hso2 : sockets w2 !! "sA" = Some (Example.sock 1 "Ann_Lee" 900))
    by (vm_compute; reflexivity).
  assert (Hla2 : lobby_of "sA" w2 = Some 0%nat) by (vm_compute; reflexivity).
  assert (Hst2 : state (lobj w2 0%nat) = PLAYING) by (vm_compute; reflexivity).
  destruct (host_set_bet_guards "sB" "5" w _ 0%nat Hso Hla) as (_ & Hocc & _).
  destruct (host_set_bet_guards "sA" "5" w2 _ 0%nat Hso2 Hla2) as (Hplay & _ & _).
  split.
  - apply (Hocc Hst "sA" Hth); discriminate.
  - apply (Hplay Hst2).
Defined.

(** [parseInt] reads back the decimal numeral of an integer. *)

Lemma digit_val_pretty d :
  (d < 10)%N -> Js.digit_val (pretty_N_char d) = Some (Z.of_N d).
Proof.
  intros Hd.
  assert (d = 0 \/ d = 1 \/ d = 2 \/ d = 3 \/ d = 4 \/ d = 5 \/ d = 6 \/ d = 7
          \/ d = 8 \/ d = 9)%N as Hcases by lia.
  repeat (destruct Hcases as [->|Hcases]; [reflexivity|]). by subst.
Qed.

Lemma digits_pretty_N_go x s :
  (0 < x)%N ->
  Js.digits 10 (pretty_N_go x s) None = Js.digits 10 s (Some (Z.of_N x)).
Proof.
  revert s. induction (N.lt_wf_0 x) as [x _ IH]; intros s Hx.
  rewrite pretty_N_go_step by done.
  assert (Hmod : (x `mod` 10 < 10)%N) by (apply N.mod_lt; lia).
  assert (Hdm : x = (10 * (x `div` 10) + x `mod` 10)%N) by (apply N.div_mod; lia).
  destruct (decide (x `div` 10 = 0)%N) as [Hz|Hnz].
  - rewrite Hz, pretty_N_go_0. cbn [Js.digits].
    rewrite (digit_val_pretty _ Hmod).
    assert (Hlt : (Z.of_N (x `mod` 10) <? 10) = true) by (apply Z.ltb_lt; lia).
    rewrite Hlt. do 2 f_equal. lia.
  - rewrite IH; [|apply N.div_lt; lia|lia]. cbn [Js.digits].
    rewrite (digit_val_pretty _ Hmod).
    assert (Hlt : (Z.of_N (x `mod` 10) <? 10) = true) by (apply Z.ltb_lt; lia).
    rewrite Hlt. do 2 f_equal. lia.
Qed.

Lemma pretty_N_go_head x s :
  (0 < x)%N ->
  exists d r, (0 < d < 10)%N /\ pretty_N_go x s = String (pretty_N_char d) r.
Proof.
  revert s. induction (N.lt_wf_0 x) as [x _ IH]; intros s Hx.
  rewrite pretty_N_go_step by done.
  destruct (decide (x `div` 10 = 0)%N) as [Hz|Hnz].
  - rewrite Hz, pretty_N_go_0. exists (x `mod` 10)%N, s. split; [|done].
    assert (Hdm : x = (10 * (x `div` 10) + x `mod` 10)%N) by (apply N.div_mod; lia).
    assert (Hmod : (x `mod` 10 < 10)%N) by (apply N.mod_lt; lia). lia.
  - apply IH; [apply N.div_lt; lia|by apply N.neq_0_lt_0].
Qed.

Lemma parseInt_digits_head d r :
  (0 < d < 10)%N ->
  Js.parseInt (String (pretty_N_char d) r)
  = match Js.digits 10 (String (pretty_N_char d) r) None with
    | Some n => Some (Js.num (1 * n))
    | None => None
    end.
Proof.
  intros Hd.
  assert (d = 1 \/ d = 2 \/ d = 3 \/ d = 4 \/ d = 5 \/ d = 6 \/ d = 7
          \/ d = 8 \/ d = 9)%N as Hcases by lia.
  repeat (destruct Hcases as [->|Hcases]; [reflexivity|]). by subst.
Qed.

Lemma parseInt_minus_digits_head d r :
  (0 < d < 10)%N ->
  Js.parseInt (String "-" (String (pretty_N_char d) r))
  = match Js.digits 10 (String (pretty_N_char d) r) None with
    | Some n => Some (Js.num (-1 * n))
    | None => None
    end.
Proof.
  intros Hd.
  assert (d = 1 \/ d = 2 \/ d = 3 \/ d = 4 \/ d = 5 \/ d = 6 \/ d = 7
          \/ d = 8 \/ d = 9)%N as Hcases by lia.
  repeat (destruct Hcases as [->|Hcases]; [reflexivity|]). by subst.
Qed.

(** Reading back the numeral of an integer that is a double. *)
Lemma parseInt_show n : - 2 ^ 53 <= n <= 2 ^ 53 -> Js.parseInt (show n) = Some n.
Proof.
  intros Hn.
  unfold show, pretty, pretty_Z. destruct n as [|p|p]; [reflexivity| |].
  - unfold pretty, pretty_positive, pretty, pretty_N.
    destruct (decide (N.pos p = 0%N)) as [|_]; [done|].
    pose proof (digits_pretty_N_go (N.pos p) "" ltac:(lia)) as Hd.
    destruct (pretty_N_go_head (N.pos p) "" ltac:(lia)) as (d & r & Hrange & Hs).
    rewrite Hs in *. rewrite (parseInt_digits_head _ _ Hrange), Hd.
    cbn [Js.digits]. f_equal. rewrite num_exact by lia. lia.
  - unfold pretty, pretty_positive, pretty, pretty_N.
    destruct (decide (N.pos p = 0%N)) as [|_]; [done|].
    pose proof (digits_pretty_N_go (N.pos p) "" ltac:(lia)) as Hd.
    destruct (pretty_N_go_head (N.pos p) "" ltac:(lia)) as (d & r & Hrange & Hs).
    rewrite Hs in *.
    change (Js.parseInt (String "-" (String (pretty_N_char d) r)) = Some (Z.neg p)).
    rewrite (parseInt_minus_digits_head _ _ Hrange), Hd.
    cbn [Js.digits]. f_equal. rewrite num_exact by lia. lia.
Qed.

(** X12. Every positive integer below 2^53, sent as its decimal numeral,
    is accepted by [host_set_bet] (past the first two guards) with exactly
    that bet, and the room is told 'Table opened!' with the same
    numeral. *)
Theorem host_set_bet_accepts_numeral s w so ud la n :
  sockets w !! s = Some so -> userData so = Some ud ->
  lobby_of s w = Some la ->
  state (lobj w la) <> PLAYING ->
  table_occupied s (lobj w la) = false ->
  0 < n < 2 ^ 53 ->
  exists w',
    on_host_set_bet s (show n) w = Ok tt w'
    /\ (bet (lobj w' la), state (lobj w' la), tableHostId (lobj w' la))
       = (n, BETTING, Some s)
    /\ last (outbox w')
       = Some (mkEmit (ToRoom (lobby_id (lobj w la))) "chat_msg"
                 (PChat "SYSTEM" ("Table opened! Bet: " +:+ show n +:+ " " +:+ rouble))).
Proof.
  intros Hso Hud Hla Hst Hocc [Hpos Hbig].
  destruct (on_host_set_bet_spec s (show n) w so ud la n Hso Hud Hla Hst Hocc
              (parseInt_show n ltac:(lia)) Hpos) as (w' & Hrun & Hl & _ & Hq & _).
  exists w'. split; [exact Hrun|]. rewrite Hl. split; [reflexivity|].
  destruct (balance ud <? n); injection Hq as _ _ ->.
  - by rewrite last_app.
  - by rewrite last_app.
Qed.

Lemma host_set_bet_accepts_numeral_witness :
  exists w',
    on_host_set_bet "sB" (show 125) Example.w0 = Ok tt w'
    /\ (bet (lobj w' 0%nat), state (lobj w' 0%nat), tableHostId (lobj w' 0%nat))
       = (125, BETTING, Some "sB").
Proof.
  assert (Hso : sockets Example.w0 !! "sB" = Some (Example.sock 2 "Bob_Ray" 500))
    by (vm_compute; reflexivity).
  assert (Hla : lobby_of "sB" Example.w0 = Some 0%nat) by (vm_compute; reflexivity).
  assert (Hst : state (lobj Example.w0 0%nat) <> PLAYING) by (vm_compute; discriminate).
  assert (Hocc : table_occupied "sB" (lobj Example.w0 0%nat) = false)
    by (vm_compute; reflexivity).
  assert (Hn : 0 < 125 < 2 ^ 53) by lia.
  destruct (host_set_bet_accepts_numeral "sB" Example.w0 _ _ 0%nat 125 Hso eq_refl Hla
              Hst Hocc Hn) as (w' & Hrun & Hopen & _).
  exists w'. split; [exact Hrun|exact Hopen].
Defined.

(** ** Taking a seat *)

(** X13. [join_table] from a socket that is in no lobby, or whose lobby is
    not in state BETTING, is ignored: the world is unchanged, nothing is
    sent and no debit is requested. *)
Theorem join_table_outside_betting s w :
  is_Some (sockets w !! s) ->
  (forall la, lobby_of s w = Some la -> state (lobj w la) <> BETTING) ->
  on_join_table s w = Ok tt w /\ handle (EvJoinTable s) w = Ok tt w.
Proof.
  intros [so Hso] Hnot.
  assert (H : on_join_table s w = Ok tt w).
  { unfold on_join_table. rewrite (bind_getSock _ _ _ _ Hso).
    rewrite (bind_Ok _ _ _ _ _ (lobby_of_sock _ _ _ Hso)).
    destruct (lobby_of s w) as [la|] eqn:Hla; [|done].
    specialize (Hnot la eq_refl). msteps.
    destruct (GameState_eqb (state (lobj w la)) BETTING) eqn:Hst; [|done].
    by apply GameState_eqb_spec in Hst. }
  split; [done|].
  unfold handle, from_client, bind, io_sockets_get, gets. rewrite Hso.
  by destruct (connected so).
Qed.

Lemma join_table_outside_betting_witness :
  let w := Example.after Example.started in
  on_join_table "sC" w = Ok tt w /\ handle (EvJoinTable "sC") w = Ok tt w.
Proof.
  apply join_table_outside_betting.
  - vm_compute. eexists. reflexivity.
  - intros la Hla. vm_compute in Hla. injection Hla as <-. vm_compute. discriminate.
Defined.









(** ** Starting a round *)

(** X15. [start_game] from a socket that is not the table host, or while
    bets are not open, is ignored without an answer.  From the table host
    with fewer than two seated players it only answers 'Need at least 2
    players'. *)
Theorem start_game_refused s w so la :
  sockets w !! s = Some so ->
  lobby_of s w = Some la ->
  (tableHostId (lobj w la) <> Some s \/ state (lobj w la) <> BETTING ->
   on_start_game s w = Ok tt w)
  /\ (tableHostId (lobj w la) = Some s -> state (lobj w la) = BETTING ->
      (length (players (lobj w la)) < 2)%nat ->
      on_start_game s w
      = Ok tt (with_emit (ToSocket s) "error_msg" (PText "Need at least 2 players") w)).
Proof.
  intros Hso Hla.
  unfold on_start_game. rewrite (bind_getSock _ _ _ _ Hso).
  rewrite (bind_Ok _ _ _ _ _ (lobby_of_sock _ _ _ Hso)), Hla. msteps. split.
  - intros Hnot.
    destruct (Js.str_eq_opt s (tableHostId (lobj w la))) eqn:Hh; [|done].
    destruct (GameState_eqb (state (lobj w la)) BETTING) eqn:Hst; [|done].
    apply str_eq_opt_spec in Hh. apply GameState_eqb_spec in Hst. by destruct Hnot.
  - intros Hh Hst Hlen.
    apply str_eq_opt_spec in Hh. rewrite Hh, Hst. cbn [negb orb GameState_eqb].
    apply Nat.ltb_lt in Hlen. rewrite Hlen. reflexivity.
Qed.

Lemma start_game_refused_witness :
  let w1 := Example.after Example.open_table in
  let w2 := Example.after Example.seated in
  on_start_game "sA" w1
  = Ok tt (with_emit (ToSocket "sA") "error_msg" (PText "Need at least 2 players") w1)
  /\ on_start_game "sB" w2 = Ok tt w2.
Proof.
  intros w1 w2.
  assert (Hso1 : sockets w1 !! "sA" = Some (Example.sock 1 "Ann_Lee" 900))
    by (vm_compute; reflexivity).
  assert (Hla1 : lobby_of "sA" w1 = Some 0%nat) by (vm_compute; reflexivity).
  assert (Hh1 : tableHostId (lobj w1 0%nat) = Some "sA") by (vm_compute; reflexivity).
  assert (Hst1 : state (lobj w1 0%nat) = BETTING) by (vm_compute; reflexivity).
  assert (Hlen1 : (length (players (lobj w1 0%nat)) < 2)%nat) by (vm_compute; lia).
  assert (Hso2 : sockets w2 !! "sB" = Some (Example.sock 2 "Bob_Ray" 400))
    by (vm_compute; reflexivity).
  assert (Hla2 : lobby_of "sB" w2 = Some 0%nat) by (vm_compute; reflexivity).
  assert (Hh2 : tableHostId (lobj w2 0%nat) <> Some "sB") by (vm_compute; discriminate).
  destruct (start_game_refused "sA" w1 _ 0%nat Hso1 Hla1) as [_ Hfew].
  destruct (start_game_refused "sB" w2 _ 0%nat Hso2 Hla2) as [Hnot _].
  split; [exact (Hfew Hh1 Hst1 Hlen1)|]. apply Hnot. by left.
Defined.

Lemma processTurn_arms la w pid a :
  turnOrder (lobj w la) !! turnIndex (lobj w la) = Some pid ->
  find_player (pobj w) pid (players (lobj w la)) = Some a ->
  exists w',
    processTurn la w = Ok tt w'
    /\ lobj w' la = set_timer (Some (tnext w)) (lobj w la)
    /\ (forall la', la' <> la -> lobj w' la' = lobj w la')
    /\ timers w'
       = cleared (lobj w la) (timers w)
         ++ [{| tm_id := tnext w; tm_due := now w + 10000; tm_act := AutoRoll la a |}]
    /\ tnext w' = S (tnext w)
    /\ outbox w'
       = outbox w ++ [mkEmit (ToRoom (lobby_id (lobj w la))) "turn_notification"
                        (PTurn pid (p_nickname (pobj w a)))]
    /\ (lobbies w', pobj w', pnext w', sockets w', users_db w', dbq w', qnext w', now w', rpos w')
       = (lobbies w, pobj w, pnext w, sockets w, users_db w, dbq w, qnext w, now w, rpos w).
Proof.
  intros Hturn Hfind. unfold processTurn. msteps. rewrite Hturn, Hfind. msteps.
  unfold cleared.
  destruct (timer (lobj w la)) as [t|]; msteps;
    (eexists; split; [reflexivity|]; wsimpl; split; [reflexivity|];
     split; [intros la' Hne; by rewrite upd_ne|]; done).
Qed.

Lemma startGame_steps la ps w :
  exists order w1,
    order ≡ₚ map (fun a => p_id (pobj w a)) ps
    /\ startGame la ps w = processTurn la w1
    /\ lobj w1 la
       = set_lastWinnerId None (set_turnIndex 0
           (set_turnOrder order (set_state PLAYING (lobj w la))))
    /\ (forall la', la' <> la -> lobj w1 la' = lobj w la')
    /\ pobj w1 = clear_rolls order (players (lobj w la)) (pobj w)
    /\ rpos w1 = (length ps - 1 + rpos w)%nat
    /\ outbox w1
       = outbox w
         ++ [mkEmit (ToRoom (lobby_id (lobj w la))) "update_room"
               (PRoom (snapshot (lobj w1 la) (pobj w1)));
             mkEmit (ToRoom (lobby_id (lobj w la))) "chat_msg"
               (PChat "SYSTEM" ("Game Started! Pot: " +:+ show (pot (lobj w la))
                                +:+ " " +:+ rouble))]
    /\ (lobbies w1, pnext w1, sockets w1, users_db w1, dbq w1, qnext w1, timers w1,
        tnext w1, now w1)
       = (lobbies w, pnext w, sockets w, users_db w, dbq w, qnext w, timers w,
          tnext w, now w).
Proof.
  unfold startGame. msteps.
  match goal with |- context [bind (shuffle ?xs) _ ?w1] =>
    destruct (shuffle_spec xs w1) as (order & Hsh & Hperm) end.
  setoid_rewrite (bind_Ok _ _ _ _ _ Hsh). msteps.
  cbn [players turnOrder pot set_lastWinnerId set_turnIndex set_turnOrder set_state].
  setoid_rewrite (bind_Ok _ _ _ _ _ (forEach_clear _ _ _)). msteps.
  exists order. eexists. split; [exact Hperm|]. split; [reflexivity|]. wsimpl.
  split; [reflexivity|]. split; [intros la' Hne; by rewrite !upd_ne|].
  split; [reflexivity|]. rewrite length_map. split; [reflexivity|].
  split; [|reflexivity].
  unfold mkEmit, snapshot. lsimpl. by rewrite <- app_assoc.
Qed.

Lemma find_player_some h pid ps :
  pid ∈ map (fun a => p_id (h a)) ps ->
  exists a, find_player h pid ps = Some a /\ a ∈ ps /\ p_id (h a) = pid.
Proof.
  unfold find_player. induction ps as [|b ps IH]; cbn [map List.find].
  - intros H. by apply elem_of_nil in H.
  - intros H. destruct (String.eqb_spec (p_id (h b)) pid) as [He|He].
    + exists b. split; [done|]. split; [apply elem_of_cons; by left|done].
    + apply elem_of_cons in H as [H|H]; [congruence|].
      destruct (IH H) as (a & Hf & Hin & Hid). exists a.
      split; [done|]. split; [apply elem_of_cons; by right|done].
Qed.

(** X16. [start_game] from the table host with at least two seated players
    starts the round: the state is PLAYING, the turn index 0 and the turn
    order a permutation of the seated ids.  The first in the order is a
    seated player with a null last roll; the room is told it is that
    player's turn, and a turn timer that will roll for that player is armed
    10000 ms ahead under the handle the lobby holds.  The seats, the pot
    and the bet are as before. *)
Theorem start_game_arms_turn_timer s w so la :
  sockets w !! s = Some so ->
  lobby_of s w = Some la ->
  tableHostId (lobj w la) = Some s ->
  state (lobj w la) = BETTING ->
  (2 <= length (players (lobj w la)))%nat ->
  exists w' pid a,
    on_start_game s w = Ok tt w'
    /\ (state (lobj w' la), turnIndex (lobj w' la)) = (PLAYING, 0%nat)
    /\ turnOrder (lobj w' la) ≡ₚ map (fun b => p_id (pobj w b)) (players (lobj w la))
    /\ head (turnOrder (lobj w' la)) = Some pid
    /\ find_player (pobj w') pid (players (lobj w' la)) = Some a
    /\ lastRoll (pobj w' a) = None
    /\ timer (lobj w' la) = Some (tnext w)
    /\ timers w'
       = cleared (lobj w la) (timers w)
         ++ [{| tm_id := tnext w; tm_due := now w + 10000; tm_act := AutoRoll la a |}]
    /\ last (outbox w')
       = Some (mkEmit (ToRoom (lobby_id (lobj w la))) "turn_notification"
                 (PTurn pid (p_nickname (pobj w a))))
    /\ (players (lobj w' la), pot (lobj w' la), bet (lobj w' la))
       = (players (lobj w la), pot (lobj w la), bet (lobj w la)).
Proof.
  intros Hso Hla Hh Hst Hlen.
  unfold on_start_game. rewrite (bind_getSock _ _ _ _ Hso).
  rewrite (bind_Ok _ _ _ _ _ (lobby_of_sock _ _ _ Hso)), Hla. msteps.
  rewrite Hh, Hst. cbn [Js.str_eq_opt]. rewrite String.eqb_refl.
  cbn [negb orb GameState_eqb].
  assert (Hge : (length (players (lobj w la)) <? 2)%nat = false) by (apply Nat.ltb_ge; lia).
  rewrite Hge.
  destruct (startGame_steps la (players (lobj w la)) w)
    as (order & w1 & Hperm & Hrun & Hl1 & _ & Hp1 & _ & Hout1 & Hrest1).
  rewrite Hrun.
  destruct order as [|pid order'] eqn:Horder.
  { apply Permutation_length in Hperm. rewrite length_map in Hperm. cbn in Hperm. lia. }
  rewrite <- Horder in *.
  assert (Hpid : pid ∈ map (fun b => p_id (pobj w1 b)) (players (lobj w1 la))).
  { rewrite Hl1, Hp1. cbn [players set_lastWinnerId set_turnIndex set_turnOrder set_state].
    erewrite map_ext; [|intros b; apply clear_rolls_id].
    rewrite <- Hperm, Horder. apply elem_of_cons. by left. }
  destruct (find_player_some _ _ _ Hpid) as (a & Hfind & Hin & Hid).
  assert (Hturn : turnOrder (lobj w1 la) !! turnIndex (lobj w1 la) = Some pid).
  { rewrite Hl1. cbn. by rewrite Horder. }
  destruct (processTurn_arms la w1 pid a Hturn Hfind)
    as (w' & Hrun' & Hl' & _ & Htm & _ & Hout & Hrest).
  assert (Hp' : pobj w' = pobj w1) by congruence.
  assert (Ht1 : (timers w1, tnext w1, now w1) = (timers w, tnext w, now w)) by congruence.
  injection Ht1 as Htm1 Htn1 Hnow1.
  exists w', pid, a. split; [exact Hrun'|].
  rewrite Hl', Hp', Hl1. cbn.
  split; [done|]. split; [done|]. split; [by rewrite Horder|].
  split; [rewrite Hl1 in Hfind; exact Hfind|].
  split.
  { rewrite Hp1, clear_rolls_lastRoll.
    rewrite Hl1 in Hin. cbn in Hin.
    rewrite (bool_decide_eq_true_2 _ Hin).
    assert (Hinc : includes order (p_id (pobj w a)) = true).
    { apply includes_spec. rewrite Hp1 in Hid.
      rewrite (proj1 (clear_rolls_id _ _ _ _)) in Hid. rewrite Hid, Horder.
      apply elem_of_cons. by left. }
    by rewrite Hinc. }
  split; [by rewrite Htn1|].
  split.
  { rewrite Htm, Htm1, Htn1, Hnow1. unfold cleared. rewrite Hl1. reflexivity. }
  split; [|done].
  rewrite Hout, last_snoc, Hl1, Hp1. cbn.
  by rewrite (proj2 (clear_rolls_id _ _ _ _)).
Qed.

Lemma start_game_arms_turn_timer_witness :
  let w := Example.after Example.seated in
  exists w',
    on_start_game "sA" w = Ok tt w'
    /\ state (lobj w' 0%nat) = PLAYING
    /\ turnOrder (lobj w' 0%nat) = ["sB"; "sA"]
    /\ timers w' = [{| tm_id := 0; tm_due := 10000; tm_act := AutoRoll 0 1 |}]
    /\ timer (lobj w' 0%nat) = Some 0%nat.
Proof.
  intros w.
  assert (Hso : sockets w !! "sA" = Some (Example.sock 1 "Ann_Lee" 900))
    by (vm_compute; reflexivity).
  assert (Hla : lobby_of "sA" w = Some 0%nat) by (vm_compute; reflexivity).
  assert (Hh : tableHostId (lobj w 0%nat) = Some "sA") by (vm_compute; reflexivity).
  assert (Hst : state (lobj w 0%nat) = BETTING) by (vm_compute; reflexivity).
  assert (Hlen : (2 <= length (players (lobj w 0%nat)))%nat) by (vm_compute; lia).
  destruct (start_game_arms_turn_timer "sA" w _ 0%nat Hso Hla Hh Hst Hlen)
    as (w' & pid & a & Hrun & _).
  exists w'. split; [exact Hrun|].
  vm_compute in Hrun. injection Hrun as <-.
  repeat split; vm_compute; reflexivity.
Defined.

(** ** Random numbers *)

(** Every index below [n] is the rounded product of some draw and [n], as
    long as [n] is at most 2^52. *)
Lemma floor_mul_hit n t :
  0 <= t < n -> n <= 2 ^ 52 ->
  exists k, 0 <= k < 2 ^ 53 /\ Js.floor_mul (Qmake (k mod 2 ^ 53) (2 ^ 53)) n = t.
Proof.
  intros Ht Hn.
  set (k := (t * 2 ^ 53 + n - 1) / n).
  pose proof (Z.div_mod (t * 2 ^ 53 + n - 1) n ltac:(lia)) as Hdm.
  pose proof (Z.mod_pos_bound (t * 2 ^ 53 + n - 1) n ltac:(lia)) as Hm.
  fold k in Hdm.
  assert (Hlo : t * 2 ^ 53 <= k * n) by lia.
  assert (Hhi : k * n < t * 2 ^ 53 + n) by lia.
  assert (Hk : 0 <= k < 2 ^ 53).
  { split; [apply Z.div_pos; nia|].
    apply Z.div_lt_upper_bound; [lia|]. nia. }
  exists k. split; [exact Hk|].
  rewrite Z.mod_small by exact Hk. rewrite floor_mul_div.
  assert (Hp : 0 <= k * n) by nia.
  rewrite num_nonneg by exact Hp.
  pose proof (nearest_ge t (k * n) ltac:(lia) Hlo) as Hge.
  pose proof (nearest_err (k * n) Hp) as Herr.
  apply Z.le_antisymm.
  - apply Z.lt_succ_r. apply Z.div_lt_upper_bound; [lia|].
    destruct (Z.lt_ge_cases (Js.nearest (k * n)) (2 ^ 53 * Z.succ t)) as [?|Hbig]; [done|].
    exfalso. lia.
  - apply Z.div_le_lower_bound; lia.
Qed.

(** X17. For doubles [min <= max] that are integers of at most 2^53 in
    absolute value, less than 2^53 apart, [getRandomInt(min, max)] uses one
    draw and returns an integer between [min] and [max] inclusive: there
    every sum and difference of the code is exact, and the rounded product
    stays below [max - min + 1].  When they are less than 2^52 apart, each
    integer of the range is returned for some draw. *)
Theorem getRandomInt_range min max :
  - 2 ^ 53 <= min -> min <= max -> max <= 2 ^ 53 -> max - min < 2 ^ 53 ->
  (forall w, exists v,
      getRandomInt min max w = Ok v (w_rpos (S (rpos w)) w) /\ min <= v <= max)
  /\ (max - min < 2 ^ 52 ->
      forall t, min <= t <= max ->
        exists k, 0 <= k < 2 ^ 53
          /\ forall w, entropy w (rpos w) = k ->
               getRandomInt min max w = Ok t (w_rpos (S (rpos w)) w)).
Proof.
  intros Hmin Hle Hmax Hwide.
  assert (Hn : Js.num (Js.num (max - min) + 1) = max - min + 1).
  { rewrite (num_exact (max - min)) by lia. apply num_exact. lia. }
  split.
  - intros w. eexists. split; [reflexivity|]. rewrite Hn.
    pose proof (floor_mul_range (entropy w (rpos w)) (max - min + 1) ltac:(lia)).
    rewrite num_exact by lia. lia.
  - intros Hsmall t Ht.
    destruct (floor_mul_hit (max - min + 1) (t - min)) as (k & Hk & Hv); [lia|lia|].
    exists k. split; [exact Hk|]. intros w Hw.
    unfold getRandomInt, Math_random, bind, ret. rewrite Hw, Hn, Hv. f_equal.
    rewrite num_exact by lia. lia.
Qed.

Lemma getRandomInt_range_witness :
  (exists v, getRandomInt 1 6 Example.w0 = Ok v (w_rpos 1 Example.w0) /\ 1 <= v <= 6)
  /\ exists k, 0 <= k < 2 ^ 53
       /\ forall w, entropy w (rpos w) = k -> getRandomInt 1 6 w = Ok 4 (w_rpos (S (rpos w)) w).
Proof.
  assert (Hmin : - 2 ^ 53 <= 1) by lia.
  assert (Hle : 1 <= 6) by lia.
  assert (Hmax : 6 <= 2 ^ 53) by lia.
  assert (Hwide : 6 - 1 < 2 ^ 53) by lia.
  destruct (getRandomInt_range 1 6 Hmin Hle Hmax Hwide) as [Hin Hall]. split.
  - apply (Hin Example.w0).
  - apply Hall; lia.
Defined.

(** Beyond 2^52 the rounded product can miss an index: no draw gives
    2^52 out of 8465035446635547. *)
Lemma floor_mul_unreachable k :
  0 <= k < 2 ^ 53 -> Js.floor_mul (Qmake k (2 ^ 53)) 8465035446635547 <> 2 ^ 52.
Proof.
  intros Hk. rewrite floor_mul_div, num_nonneg by lia.
  set (p := k * 8465035446635547).
  destruct (Z.le_gt_cases k 4792043632070784) as [Hle|Hgt].
  - enough (Js.nearest p < 2 ^ 105).
    { assert (Js.nearest p / 2 ^ 53 < 2 ^ 52); [|lia].
      apply Z.div_lt_upper_bound; lia. }
    destruct (Z.lt_ge_cases p (2 ^ 104)) as [Hsmall|Hbig].
    + pose proof (nearest_err p ltac:(lia)). lia.
    + rewrite (nearest_at p 52) by lia.
      change (2 ^ (52 - 1)) with (2 ^ 51).
      pose proof (Z.div_mod p (2 ^ 52) ltac:(lia)) as Hdm.
      pose proof (Z.mod_pos_bound p (2 ^ 52) ltac:(lia)) as Hm.
      destruct (Z.ltb_spec (p mod 2 ^ 52) (2 ^ 51)); cbn [orb].
      * lia.
      * destruct ((p mod 2 ^ 52 =? 2 ^ 51) && Z.even (p / 2 ^ 52)); lia.
  - enough ((2 ^ 52 + 1) * 2 ^ 53 <= Js.nearest p).
    { assert (2 ^ 52 + 1 <= Js.nearest p / 2 ^ 53); [|lia].
      apply Z.div_le_lower_bound; lia. }
    destruct (Z.le_gt_cases ((2 ^ 52 + 1) * 2 ^ 53) p) as [Hbig|Hsmall].
    + apply nearest_ge; lia.
    + rewrite (nearest_at p 53) by lia.
      change (2 ^ (53 - 1)) with (2 ^ 52).
      pose proof (Z.div_mod p (2 ^ 53) ltac:(lia)) as Hdm.
      pose proof (Z.mod_pos_bound p (2 ^ 53) ltac:(lia)) as Hm.
      destruct (Z.ltb_spec (p mod 2 ^ 53) (2 ^ 52)); cbn [orb]; [lia|].
      destruct (Z.eqb_spec (p mod 2 ^ 53) (2 ^ 52)); cbn [andb]; [lia|].
      lia.
Qed.

Lemma swap_lookup_top {A} i j (a : list A) y :
  (j <= i)%nat -> (i < length a)%nat -> a !! j = Some y ->
  Js.swap i j a !! i = Some y.
Proof.
  intros Hj Hi Hy. unfold Js.swap.
  destruct (lookup_lt_is_Some_2 a i Hi) as [x Hx]. rewrite Hx, Hy.
  destruct (decide (j = i)) as [->|Hne].
  - rewrite list_lookup_insert_eq by (by rewrite length_insert). congruence.
  - rewrite list_lookup_insert_ne by done.
    by rewrite list_lookup_insert_eq.
Qed.

Lemma swap_drop {A} i j (a : list A) :
  (j <= i)%nat -> drop (S i) (Js.swap i j a) = drop (S i) a.
Proof.
  intros Hj. unfold Js.swap.
  destruct (a !! i) as [x|]; [|done]. destruct (a !! j) as [y|]; [|done].
  rewrite !drop_insert_lt by lia. done.
Qed.

Lemma swap_take {A} i j (a : list A) :
  (j <= i)%nat -> take (S i) (Js.swap i j a) ≡ₚ take (S i) a.
Proof.
  intros Hj. unfold Js.swap.
  destruct (a !! i) as [x|] eqn:Hx; [|done]. destruct (a !! j) as [y|] eqn:Hy; [|done].
  rewrite !take_insert_lt by lia.
  apply Permutation_insert_swap; by rewrite lookup_take_lt by lia.
Qed.

Lemma swap_length {A} i j (a : list A) : length (Js.swap i j a) = length a.
Proof. apply Permutation_length, swap_perm. Qed.

Lemma shuffle_loop_reaches i (array target : list string) :
  (i <= length array - 1)%nat ->
  Z.of_nat (length array) <= 2 ^ 52 ->
  length array = length target ->
  take (S i) array ≡ₚ take (S i) target ->
  drop (S i) array = drop (S i) target ->
  exists ks,
    length ks = i
    /\ Forall (fun k => 0 <= k < 2 ^ 53) ks
    /\ forall w,
         (forall m k, ks !! m = Some k -> entropy w (rpos w + m)%nat = k) ->
         shuffle_loop i array w = Ok target (w_rpos (i + rpos w) w).
Proof.
  revert array. induction i as [|i IH]; intros array Hi Hbig Hlen Htake Hdrop.
  - exists []. split; [done|]. split; [done|]. intros w _.
    cbn [shuffle_loop]. unfold ret. f_equal; [|by destruct w].
    rewrite <- (take_drop 1 array), <- (take_drop 1 target), Hdrop. f_equal.
    destruct array as [|x array], target as [|y target]; try done.
    cbn in Htake. by apply Permutation_singleton_inj in Htake as ->.
  - assert (Hlt : (S i < length target)%nat) by lia.
    destruct (lookup_lt_is_Some_2 target (S i) Hlt) as [x Hx].
    assert (Hin : x ∈ take (S (S i)) array).
    { rewrite Htake. apply list_elem_of_lookup. exists (S i).
      by rewrite lookup_take_lt by lia. }
    apply list_elem_of_lookup in Hin as [j Hj].
    assert (Hjlt : (j < S (S i))%nat).
    { apply lookup_lt_Some in Hj. rewrite length_take in Hj. lia. }
    rewrite lookup_take_lt in Hj by done.
    destruct (floor_mul_hit (Z.of_nat (S i) + 1) (Z.of_nat j)) as (k & Hk & Hkj);
      [lia|lia|].
    set (array' := Js.swap (S i) j array).
    assert (Htop : array' !! S i = Some x) by (apply swap_lookup_top; [lia|lia|done]).
    assert (Hlen' : length array' = length array) by apply swap_length.
    destruct (IH array') as (ks & Hks & Hrange & Hrun).
    + lia.
    + by rewrite Hlen'.
    + by rewrite Hlen'.
    + assert (H1 : take (S (S i)) array' = take (S i) array' ++ [x]).
      { by apply take_S_r. }
      assert (H2 : take (S (S i)) target = take (S i) target ++ [x]).
      { by apply take_S_r. }
      assert (Hp : take (S (S i)) array' ≡ₚ take (S (S i)) target).
      { etrans; [|exact Htake]. apply swap_take. lia. }
      rewrite H1, H2 in Hp. by apply Permutation_app_inv_r in Hp.
    + rewrite (drop_S array' x (S i) Htop), (drop_S target x (S i) Hx). f_equal.
      unfold array'. rewrite swap_drop by lia. exact Hdrop.
    + exists (k :: ks). split; [by rewrite <- Hks|]. split; [by apply Forall_cons|].
      intros w Hw. cbn [shuffle_loop]. unfold Math_random at 1.
      erewrite bind_Ok by reflexivity.
      rewrite <- (Nat.add_0_r (rpos w)), (Hw 0%nat k eq_refl), Nat.add_0_r.
      rewrite Hkj, Nat2Z.id. fold array'.
      rewrite Hrun.
      * f_equal. unfold w_rpos. wsimpl. f_equal. lia.
      * intros m k' Hm. wsimpl. rewrite <- (Hw (S m) k' Hm). f_equal. lia.
Qed.

(** X18. [shuffle] can return every permutation of its array: for each
    there are [length - 1] draws for which the result is that
    permutation.  (For an array of at most 2^52 elements, which every
    JavaScript array is, its length being below 2^32: there the rounded
    product [Math.random() * (i + 1)] reaches every index, which beyond
    2^52 it need not, see [floor_mul_unreachable].) *)
Theorem shuffle_reaches_every_permutation (array target : list string) :
  target ≡ₚ array ->
  Z.of_nat (length array) <= 2 ^ 52 ->
  exists ks,
    length ks = (length array - 1)%nat
    /\ Forall (fun k => 0 <= k < 2 ^ 53) ks
    /\ forall w,
         (forall m k, ks !! m = Some k -> entropy w (rpos w + m)%nat = k) ->
         shuffle array w = Ok target (w_rpos (length array - 1 + rpos w) w).
Proof.
  intros Hperm Hbig. unfold shuffle.
  apply shuffle_loop_reaches; [lia|done|by apply Permutation_length| |].
  - rewrite !take_ge by (apply Permutation_length in Hperm; lia). done.
  - rewrite !drop_ge by (apply Permutation_length in Hperm; lia). done.
Qed.

Lemma shuffle_reaches_every_permutation_witness :
  exists ks,
    length ks = 2%nat
    /\ forall w,
         (forall m k, ks !! m = Some k -> entropy w (rpos w + m)%nat = k) ->
         shuffle ["sA"; "sB"; "sC"] w = Ok ["sC"; "sA"; "sB"] (w_rpos (2 + rpos w) w).
Proof.
  assert (Hperm : ["sC"; "sA"; "sB"] ≡ₚ ["sA"; "sB"; "sC"])
    by apply (Permutation_cons_append ["sA"; "sB"] "sC").
  assert (Hbig : Z.of_nat (length ["sA"; "sB"; "sC"]) <= 2 ^ 52) by (simpl; lia).
  destruct (shuffle_reaches_every_permutation _ _ Hperm Hbig) as (ks & Hlen & _ & Hrun).
  exists ks. split; [exact Hlen|exact Hrun].
Defined.

(** ** Resolution and payout: the edges *)

Lemma forEach_clear_nil ps w :
  forEach ps (fun a =>
    do p <- getP a;
    if includes [] (p_id p) then modP a (set_lastRoll None) else ret tt) w
  = Ok tt w.
Proof.
  revert w. induction ps as [|a ps IH]; intros w; [done|].
  cbn [forEach]. msteps. cbn [includes existsb]. msteps. apply IH.
Qed.

(** X19. When no seated player is in the turn order (they have all left),
    [determineWinner] finds no winner and takes the tie branch with nobody:
    the state is set to PLAYING with an empty turn order, nobody is paid,
    the pot, the seats and the timers stay, and no turn begins: there
    [processTurn] does nothing. *)
Theorem determineWinner_no_participants la w :
  participants_of (pobj w) (lobj w la) = [] ->
  exists w',
    determineWinner la w = Ok tt w'
    /\ (state (lobj w' la), turnOrder (lobj w' la), turnIndex (lobj w' la),
        lastWinnerId (lobj w' la))
       = (PLAYING, [], 0%nat, None)
    /\ (pot (lobj w' la), bet (lobj w' la), players (lobj w' la), users (lobj w' la),
        tableHostId (lobj w' la), timer (lobj w' la))
       = (pot (lobj w la), bet (lobj w la), players (lobj w la), users (lobj w la),
          tableHostId (lobj w la), timer (lobj w la))
    /\ (dbq w', users_db w', sockets w', timers w', pobj w', rpos w')
       = (dbq w, users_db w, sockets w, timers w, pobj w, rpos w)
    /\ processTurn la w' = Ok tt w'.
Proof.
  intros Hnone. unfold determineWinner. msteps.
  unfold winners_of. rewrite Hnone. cbn [highest_of fold_left List.filter]. msteps.
  unfold startGame. msteps. cbn [map]. unfold shuffle. cbn [length Nat.sub shuffle_loop].
  msteps. cbn [players set_lastWinnerId set_turnIndex set_turnOrder set_state turnOrder].
  erewrite bind_Ok by apply forEach_clear_nil. msteps.
  unfold processTurn. msteps. cbn [lookup list_lookup].
  eexists. split; [reflexivity|]. wsimpl. lsimpl.
  repeat (split; [reflexivity|]). msteps. cbn [lookup list_lookup]. reflexivity.
Qed.

Lemma determineWinner_no_participants_witness :
  let w := Example.after (Example.started ++
             [EvRollDice "sB"; EvRollDice "sB"; EvDisconnect "sA"; EvDisconnect "sB";
              EvTick 3500; EvTimer 2]) in
  (state (lobj w 0%nat), pot (lobj w 0%nat), users (lobj w 0%nat)) = (IDLE, 200, [Example.cid])
  /\ exists w',
      handle (EvTimer 4) w = Ok tt w'
      /\ (state (lobj w' 0%nat), turnOrder (lobj w' 0%nat)) = (PLAYING, [])
      /\ pot (lobj w' 0%nat) = 200
      /\ map tm_act (timers w') = [Reveal 0 1 2 4; Reveal 0 1 5 1] /\ dbq w' = [].
Proof.
  intros w.
  split; [vm_compute; reflexivity|].
  set (w1 := default w (exec (modL 0 (fun l => set_turnIndex (S (turnIndex l)) l))
                          (default w (exec (clearTimeout 4) w)))).
  assert (Hnone : participants_of (pobj w1) (lobj w1 0%nat) = []) by (vm_compute; reflexivity).
  destruct (determineWinner_no_participants 0 w1 Hnone) as (w' & Hrun & _).
  assert (Hstep : handle (EvTimer 4) w = determineWinner 0 w1) by (vm_compute; reflexivity).
  exists w'. split; [rewrite Hstep; exact Hrun|].
  clear Hstep Hnone. vm_compute in Hrun. injection Hrun as <-.
  repeat split; vm_compute; reflexivity.
Defined.



(** X21. A winner who has disconnected is still paid: the credit goes to
    the ledger rows with the winner's nickname, while no socket changes and
    nothing is sent. *)
Theorem credit_reaches_disconnected_winner q w r amount nick sid :
  find_req q w = Some r ->
  q_op r = Credit amount nick -> q_cb r = CreditCb sid amount ->
  (forall so, sockets w !! sid = Some so -> connected so = false) ->
  exists w',
    complete_db q false w = Ok tt w'
    /\ users_db w' = map (credit_row amount nick) (users_db w)
    /\ sockets w' = sockets w
    /\ outbox w' = outbox w
    /\ lobj w' = lobj w.
Proof.
  intros Hr Hop Hcb Hgone.
  rewrite (complete_db_found _ _ _ _ Hr), Hcb, Hop. cbv zeta. cbn [run_cb apply_op].
  unfold determineWinner_cb. msteps.
  destruct (sockets w !! sid) as [so|] eqn:Hso.
  - rewrite (Hgone so eq_refl). eexists. split; [reflexivity|]. done.
  - eexists. split; [reflexivity|]. done.
Qed.

Lemma credit_reaches_disconnected_winner_witness :
  let w := default Example.w0
             (exec (determineWinner 0;; on_disconnect "sB")
                   (Example.after Example.round2_rolled)) in
  exists w',
    complete_db 2 false w = Ok tt w'
    /\ map row_balance (users_db w) = [900; 400; 50]
    /\ map row_balance (users_db w') = [900; 600; 50]
    /\ outbox w' = outbox w.
Proof.
  intros w.
  assert (Hr : find_req 2 w = Some {| q_id := 2; q_op := Credit 200 "Bob_Ray";
                                      q_cb := CreditCb "sB" 200 |})
    by (vm_compute; reflexivity).
  assert (Hgone : forall so, sockets w !! "sB" = Some so -> connected so = false).
  { intros so Hso. vm_compute in Hso. injection Hso as <-. reflexivity. }
  destruct (credit_reaches_disconnected_winner 2 w _ 200 "Bob_Ray" "sB"
              Hr eq_refl eq_refl Hgone)
    as (w' & Hrun & Hdb & _ & Hout & _).
  exists w'. split; [exact Hrun|].
  split; [vm_compute; reflexivity|].
  split; [rewrite Hdb; vm_compute; reflexivity|exact Hout].
Defined.

(** X22. [roll_dice] from the socket on turn whose seat is gone passes both
    guards and calls [performRoll] with [undefined]: the handler ends with
    an uncaught [TypeError]. *)
Theorem roll_dice_without_seat_throws s w so la :
  sockets w !! s = Some so ->
  lobby_of s w = Some la ->
  on_turn s (lobj w la) ->
  find_player (pobj w) s (players (lobj w la)) = None ->
  on_roll_dice s w
  = Throw "TypeError: Cannot set properties of undefined (setting 'lastRoll')".
Proof.
  intros Hso Hla Hturn Hfind.
  destruct (on_roll_dice_cases s w so Hso) as [Hskip | (la' & Hla' & _ & ->)].
  - exfalso. unfold on_roll_dice in Hskip. rewrite (bind_getSock _ _ _ _ Hso) in Hskip.
    rewrite (bind_Ok _ _ _ _ _ (lobby_of_sock _ _ _ Hso)), Hla in Hskip.
    destruct Hturn as [Hst Hidx].
    revert Hskip. msteps. rewrite Hst, Hidx. cbn [GameState_eqb negb Js.str_eq_opt].
    rewrite String.eqb_refl. cbn [negb]. msteps. rewrite Hfind.
    unfold performRoll. msteps.
    destruct (timer (lobj w la)); msteps; rewrite !getRandomInt_die; discriminate.
  - assert (la' = la) by congruence. subst la'. rewrite Hfind.
    unfold performRoll. msteps.
    destruct (timer (lobj w la)); msteps; rewrite !getRandomInt_die; reflexivity.
Qed.

Lemma roll_dice_without_seat_throws_witness :
  let w0 := Example.after Example.started in
  let w := w_lobj (upd (lobj w0) 0%nat (set_players [0%nat] (lobj w0 0%nat))) w0 in
  on_roll_dice "sB" w
  = Throw "TypeError: Cannot set properties of undefined (setting 'lastRoll')".
Proof.
  intros w0 w.
  assert (Hso : sockets w !! "sB" = Some (Example.sock 2 "Bob_Ray" 400))
    by (vm_compute; reflexivity).
  assert (Hla : lobby_of "sB" w = Some 0%nat) by (vm_compute; reflexivity).
  assert (Hturn : on_turn "sB" (lobj w 0%nat)) by (split; vm_compute; reflexivity).
  assert (Hfind : find_player (pobj w) "sB" (players (lobj w 0%nat)) = None)
    by (vm_compute; reflexivity).
  exact (roll_dice_without_seat_throws "sB" w _ 0%nat Hso Hla Hturn Hfind).
Defined.

(** ** What every event keeps *)

Section Steps.

(** A reflexive and transitive relation between the worlds before and
    after, kept by every step of a handler that keeps it. *)
Variable R : World -> World -> Prop.
Hypothesis R_refl : forall w, R w w.
Hypothesis R_trans : forall w1 w2 w3, R w1 w2 -> R w2 w3 -> R w1 w3.

Lemma steps_ret {A} (a : A) : preserves R (ret a).
Proof. intros w r w' H. by injection H as _ <-. Qed.

Lemma steps_throw {A} e : preserves R (@throw A e).
Proof. intros w r w' H. discriminate. Qed.

Lemma steps_gets {A} (f : World -> A) : preserves R (gets f).
Proof. intros w r w' H. by injection H as _ <-. Qed.

Lemma steps_getSock s : preserves R (getSock s).
Proof.
  intros w r w' H. unfold getSock in H.
  destruct (sockets w !! s); [|discriminate]. by injection H as _ <-.
Qed.

Lemma steps_modify f : (forall w, R w (f w)) -> preserves R (modify f).
Proof. intros Hf w r w' H. injection H as _ <-. apply Hf. Qed.

Lemma steps_newP p :
  (forall w, R w (w_pobj (upd (pobj w) (pnext w) p) (S (pnext w)) w)) ->
  preserves R (newP p).
Proof. intros Hf w r w' H. injection H as _ <-. apply Hf. Qed.

Lemma steps_setTimeout act d :
  (forall w, R w (w_timers (timers w ++ [{| tm_id := tnext w; tm_due := now w + d;
                                            tm_act := act |}])
                           (S (tnext w)) w)) ->
  preserves R (setTimeout act d).
Proof. intros Hf w r w' H. injection H as _ <-. apply Hf. Qed.

Lemma steps_Math_random :
  (forall w, R w (w_rpos (S (rpos w)) w)) -> preserves R Math_random.
Proof. intros Hf w r w' H. injection H as _ <-. apply Hf. Qed.

Lemma steps_bind {A B} (m : M A) (k : A -> M B) :
  preserves R m -> (forall a, preserves R (k a)) -> preserves R (bind m k).
Proof.
  intros Hm Hk w r w' H. unfold bind in H.
  destruct (m w) as [a w1|] eqn:Hmw; [|discriminate].
  eapply R_trans; [by eapply Hm | by eapply Hk].
Qed.

Lemma steps_forEach {A} (xs : list A) f :
  (forall x, preserves R (f x)) -> preserves R (forEach xs f).
Proof.
  intros Hf. induction xs as [|x xs IH]; cbn [forEach].
  - apply steps_ret.
  - apply steps_bind; [apply Hf | intros _; exact IH].
Qed.

Lemma steps_shuffle array :
  (forall w, R w (w_rpos (S (rpos w)) w)) -> preserves R (shuffle array).
Proof.
  intros Hf. unfold shuffle. generalize (length array - 1)%nat. intros i.
  revert array. induction i as [|i IH]; intros array; cbn [shuffle_loop].
  - apply steps_ret.
  - apply steps_bind; [by apply steps_Math_random | intros r; apply IH].
Qed.

End Steps.

(** Handlers are built from the steps above; [leaf] shows that a single
    change of the world is in the relation. *)
Ltac steps_unfold :=
  unfold getL, modL, getP, modP, emit, emit_update_room, emit_chat, packLobbyData,
    lookupLobby, deleteLobby, clearTimeout, db_run, sendLobbyList,
    io_sockets_get, modSock, getUserData, getRandomInt, from_client.

Ltac steps Hrefl Htrans leaf :=
  repeat progress steps_unfold;
  repeat first
    [ apply (steps_ret _ Hrefl)
    | apply steps_throw
    | apply (steps_gets _ Hrefl)
    | apply (steps_getSock _ Hrefl)
    | match goal with H : _ |- _ => apply H end
    | progress steps_unfold
    | apply (steps_bind _ Htrans); [|intros ?]
    | apply steps_modify; intros ?; leaf
    | apply steps_newP; intros ?; leaf
    | apply steps_setTimeout; intros ?; leaf
    | apply steps_Math_random; intros ?; leaf
    | apply (steps_shuffle _ Hrefl Htrans); intros ?; leaf
    | apply (steps_forEach _ Hrefl Htrans); intros ?
    | match goal with
      | |- preserves _ (match ?x with _ => _ end) => destruct x eqn:?
      | |- preserves _ (let _ := _ in _) => cbv zeta
      end ].

(** *** At most one turn timer for a lobby *)

Lemma keeps_turn_timers_refl w : keeps_turn_timers w w.
Proof. by intros ?. Qed.

Lemma keeps_turn_timers_trans w1 w2 w3 :
  keeps_turn_timers w1 w2 -> keeps_turn_timers w2 w3 -> keeps_turn_timers w1 w3.
Proof. unfold keeps_turn_timers. auto. Qed.

Lemma turn_timers_same w w' : same_timers w w' -> keeps_turn_timers w w'.
Proof.
  intros (Ht & Hn & Hl) [Hwf Hturn]. split.
  - unfold timers_wf. rewrite Ht, Hn. by eapply handles_wf_ext; [|exact Hwf].
  - intros tm la a Hin Hact. rewrite Ht in Hin. rewrite Hl. by eapply Hturn.
Qed.

Lemma turn_timers_clear w t :
  keeps_turn_timers w (w_timers (without t (timers w)) (tnext w) w).
Proof.
  intros [Hwf Hturn]. split.
  - unfold timers_wf. wsimpl. by apply handles_wf_without.
  - intros tm la a Hin Hact. wsimpl_in Hin. wsimpl.
    apply elem_of_without in Hin as [Hin _]. by eapply Hturn.
Qed.

Lemma elem_of_cleared l tms tm :
  tm ∈ cleared l tms -> tm ∈ tms /\ timer l <> Some (tm_id tm).
Proof.
  unfold cleared. destruct (timer l) as [t|].
  - intros Hin. apply elem_of_without in Hin as [Hin Hne]. split; [done|]. congruence.
  - done.
Qed.

Lemma turn_timers_processTurn la : preserves keeps_turn_timers (processTurn la).
Proof.
  intros w [] w' Hrun [Hwf Hturn].
  destruct (processTurn_wf la w Hwf) as (w'' & t & Hrun' & Hwf' & _).
  assert (w'' = w') by congruence. subst w''. split; [exact Hwf'|].
  destruct (turnOrder (lobj w la) !! turnIndex (lobj w la)) as [pid|] eqn:Hpid; cycle 1.
  { unfold processTurn in Hrun. revert Hrun. msteps. rewrite Hpid. by intros [= <-]. }
  destruct (find_player (pobj w) pid (players (lobj w la))) as [a|] eqn:Hfind; cycle 1.
  { unfold processTurn in Hrun. revert Hrun. msteps. rewrite Hpid, Hfind. by intros [= <-]. }
  destruct (processTurn_arms la w pid a Hpid Hfind)
    as (w'' & Hrun'' & Hl & Hother & Htm & _).
  assert (w'' = w') by congruence. subst w''.
  intros tm la' a' Hin Hact. rewrite Htm in Hin.
  apply elem_of_app in Hin as [Hin|Hin].
  - apply elem_of_cleared in Hin as [Hin Hne].
    pose proof (Hturn tm la' a' Hin Hact) as Hold.
    destruct (decide (la' = la)) as [->|Hla]; [congruence|].
    by rewrite Hother.
  - apply list_elem_of_singleton in Hin. subst tm. cbn in Hact.
    injection Hact as <- <-. by rewrite Hl.
Qed.

Lemma turn_timers_performRoll la a isAuto :
  preserves keeps_turn_timers (performRoll la a isAuto).
Proof.
  intros w r w' Hrun [Hwf Hturn].
  destruct a as [a|]; cycle 1.
  { exfalso. revert Hrun. unfold performRoll. msteps.
    destruct (timer (lobj w la)); msteps; rewrite !getRandomInt_die; discriminate. }
  destruct r. split; [by eapply timers_wf_roll|].
  rewrite performRoll_spec in Hrun. injection Hrun as <-. wsimpl.
  intros tm la' a' Hin Hact.
  apply elem_of_app in Hin as [Hin|Hin].
  - apply elem_of_cleared in Hin as [Hin _]. by eapply Hturn.
  - apply elem_of_cons in Hin as [->|Hin]; [discriminate|].
    apply list_elem_of_singleton in Hin. subst tm. discriminate.
Qed.

Ltac timers_leaf :=
  first
    [ apply turn_timers_clear
    | apply turn_timers_same; split; [reflexivity|]; split; [reflexivity|];
      intros la'; wsimpl;
      first
        [ reflexivity
        | unfold upd;
          match goal with |- context [Nat.eqb la' ?la] =>
            by destruct (Nat.eqb_spec la' la) as [->|_]
          end ] ].

Ltac turn_timers := steps keeps_turn_timers_refl keeps_turn_timers_trans timers_leaf.

Lemma turn_timers_startGame la ps : preserves keeps_turn_timers (startGame la ps).
Proof. pose proof turn_timers_processTurn. unfold startGame. turn_timers. Qed.

Lemma turn_timers_determineWinner la : preserves keeps_turn_timers (determineWinner la).
Proof. pose proof turn_timers_startGame. unfold determineWinner. turn_timers. Qed.

Lemma turn_timers_sitAtTable s la : preserves keeps_turn_timers (sitAtTable s la).
Proof. unfold sitAtTable. turn_timers. Qed.

Lemma turn_timers_leaveLobby s : preserves keeps_turn_timers (leaveLobby s).
Proof. unfold leaveLobby. turn_timers. Qed.

Lemma turn_timers_run_timer act : preserves keeps_turn_timers (run_timer act).
Proof.
  pose proof turn_timers_performRoll. pose proof turn_timers_determineWinner.
  pose proof turn_timers_processTurn. destruct act; cbn [run_timer]; turn_timers.
Qed.

Lemma turn_timers_handle e : preserves keeps_turn_timers (handle e).
Proof.
  pose proof turn_timers_sitAtTable. pose proof turn_timers_startGame.
  pose proof turn_timers_performRoll. pose proof turn_timers_leaveLobby.
  pose proof turn_timers_run_timer.
  destruct e; cbn [handle];
    unfold on_host_set_bet, on_join_table, on_start_game, on_roll_dice,
      on_leave_lobby, on_disconnect, fire_timer, complete_db, run_cb, sitAtTable_cb,
      determineWinner_cb;
    turn_timers.
Qed.

Lemma turn_timers_run es : preserves keeps_turn_timers (run es).
Proof.
  induction es as [|e es IH]; cbn [run].
  - apply (steps_ret _ keeps_turn_timers_refl).
  - apply (steps_bind _ keeps_turn_timers_trans);
      [apply turn_timers_handle | intros _; exact IH].
Qed.

(** X23. Every event keeps the timers in order: handles are unique, and a
    pending turn timer of a lobby is the one whose handle the lobby holds.
    So, whatever the clients send and whenever timers fire or statements
    complete, a lobby never has two turn timers pending. *)
Theorem one_turn_timer_per_lobby es w w' :
  turn_timers_ok w ->
  run es w = Ok tt w' ->
  turn_timers_ok w'
  /\ forall tm1 tm2 la a1 a2,
       tm1 ∈ timers w' -> tm2 ∈ timers w' ->
       tm_act tm1 = AutoRoll la a1 -> tm_act tm2 = AutoRoll la a2 ->
       tm1 = tm2.
Proof.
  intros Hok Hrun.
  assert (Hok' : turn_timers_ok w') by (by apply (turn_timers_run es w tt w')).
  split; [exact Hok'|].
  destruct Hok' as [(Hnd & _) Hturn].
  intros tm1 tm2 la a1 a2 H1 H2 Ha1 Ha2.
  symmetry. apply (NoDup_map_inj tm_id (timers w') tm1 tm2 Hnd H1 H2).
  pose proof (Hturn _ _ _ H1 Ha1). pose proof (Hturn _ _ _ H2 Ha2). congruence.
Qed.

Lemma one_turn_timer_per_lobby_witness :
  let es := Example.started ++ [EvRollDice "sB"; EvRollDice "sB"; EvTick 3500;
                                EvTimer 2; EvTimer 4] in
  turn_timers_ok (Example.after es)
  /\ map tm_act (timers (Example.after es))
     = [Reveal 0 1 2 4; Reveal 0 1 5 1; AutoRoll 0 0].
Proof.
  intros es.
  assert (Hok : turn_timers_ok Example.w0).
  { split; [split; [constructor|split; [constructor|]]|].
    - intros la t Ht. discriminate.
    - intros tm la a Hin. by apply elem_of_nil in Hin. }
  assert (Hrun : run es Example.w0 = Ok tt (Example.after es)) by (vm_compute; reflexivity).
  split; [exact (proj1 (one_turn_timer_per_lobby es _ _ Hok Hrun))|].
  vm_compute. reflexivity.
Defined.

(** *** Money moves only when a database statement completes *)

Lemma same_money_refl w : same_money w w.
Proof. by split. Qed.

Lemma same_money_trans w1 w2 w3 : same_money w1 w2 -> same_money w2 w3 -> same_money w1 w3.
Proof. intros [H1 H2] [H3 H4]. split; [congruence|]. intros s. by rewrite H4, H2. Qed.

Lemma userData_alter (f : Socket -> Socket) s s' (m : gmap string Socket) :
  (forall so, userData (f so) = userData so) ->
  userData <$> (alter f s m !! s') = userData <$> (m !! s').
Proof.
  intros Hf. destruct (decide (s' = s)) as [->|Hne].
  - rewrite lookup_alter_eq. destruct (m !! s); cbn; [by rewrite Hf|done].
  - by rewrite lookup_alter_ne.
Qed.

Ltac money_leaf :=
  split; [reflexivity|]; intros ?; wsimpl;
  first [reflexivity | apply userData_alter; intros ?; reflexivity].

Ltac money := steps same_money_refl same_money_trans money_leaf.

Lemma money_processTurn la : preserves same_money (processTurn la).
Proof. unfold processTurn. money. Qed.

Lemma money_startGame la ps : preserves same_money (startGame la ps).
Proof. pose proof money_processTurn. unfold startGame. money. Qed.

Lemma money_determineWinner la : preserves same_money (determineWinner la).
Proof. pose proof money_startGame. unfold determineWinner. money. Qed.

Lemma money_performRoll la a isAuto : preserves same_money (performRoll la a isAuto).
Proof. unfold performRoll. money. Qed.

Lemma money_sitAtTable s la : preserves same_money (sitAtTable s la).
Proof. unfold sitAtTable. money. Qed.

Lemma money_leaveLobby s : preserves same_money (leaveLobby s).
Proof. unfold leaveLobby. money. Qed.

Lemma money_run_timer act : preserves same_money (run_timer act).
Proof.
  pose proof money_performRoll. pose proof money_determineWinner.
  pose proof money_processTurn. destruct act; cbn [run_timer]; money.
Qed.

Lemma money_handle e :
  (forall q err, e <> EvDb q err) -> preserves same_money (handle e).
Proof.
  intros Hnot.
  pose proof money_sitAtTable. pose proof money_startGame. pose proof money_performRoll.
  pose proof money_leaveLobby. pose proof money_run_timer.
  destruct e; cbn [handle];
    unfold on_host_set_bet, on_join_table, on_start_game, on_roll_dice,
      on_leave_lobby, on_disconnect, fire_timer;
    try (by money).
  by destruct (Hnot q err).
Qed.

(** X24. No message of a client, no disconnect, no timer and no passing of
    time changes the ledger or a cached balance: over any run of events
    without a completion of a database statement both are as before. *)
Theorem money_moves_only_on_db_completion es w w' :
  Forall (fun e => forall q err, e <> EvDb q err) es ->
  run es w = Ok tt w' ->
  users_db w' = users_db w
  /\ forall s, userData <$> (sockets w' !! s) = userData <$> (sockets w !! s).
Proof.
  intros Hes. revert w. induction Hes as [|e es He Hes IH]; intros w Hrun.
  - by injection Hrun as <-.
  - cbn [run] in Hrun. unfold bind in Hrun.
    destruct (handle e w) as [[] w1|] eqn:Hstep; [|discriminate].
    apply (same_money_trans w w1 w'); [|by apply IH].
    by apply (money_handle e He w tt w1).
Qed.

Lemma money_moves_only_on_db_completion_witness :
  let w := Example.after Example.seated in
  let es := [EvStartGame "sA"; EvRollDice "sB"; EvTick 3500; EvTimer 2;
             EvDisconnect "sA"; EvHostSetBet "sC" "7"] in
  map row_balance (users_db (default w (exec (run es) w))) = [900; 400; 50]
  /\ pot (lobj w 0%nat) = 200.
Proof.
  intros w es.
  assert (Hes : Forall (fun e => forall q err, e <> EvDb q err) es)
    by (repeat constructor; discriminate).
  assert (Hrun : run es w = Ok tt (default w (exec (run es) w))) by (vm_compute; reflexivity).
  destruct (money_moves_only_on_db_completion es w _ Hes Hrun) as [Hdb _].
  split; [rewrite Hdb|]; vm_compute; reflexivity.
Defined.

(** *** Seats are given only when a debit succeeds *)

Lemma no_new_seat_refl w : no_new_seat w w.
Proof. intros la. split; [done|by left]. Qed.

Lemma no_new_seat_trans w1 w2 w3 :
  no_new_seat w1 w2 -> no_new_seat w2 w3 -> no_new_seat w1 w3.
Proof.
  intros H1 H2 la. destruct (H1 la) as [Hs1 Hp1]. destruct (H2 la) as [Hs2 Hp2]. split.
  - by etrans.
  - destruct Hp2 as [-> | ->]; [exact Hp1|by right].
Qed.

Lemma filter_sublist {A} (f : A -> bool) (l : list A) : List.filter f l `sublist_of` l.
Proof.
  induction l as [|x l IH]; cbn; [done|].
  destruct (f x); [by apply sublist_skip | by apply sublist_cons].
Qed.

Ltac seat_leaf :=
  intros la'; wsimpl;
  first
    [ split; [reflexivity | by left]
    | unfold upd;
      match goal with |- context [Nat.eqb la' ?la] =>
        destruct (Nat.eqb_spec la' la) as [->|_]
      end;
      [ cbn; split;
        [ first [reflexivity | apply sublist_nil_l | apply filter_sublist]
        | first [by left | by right] ]
      | split; [reflexivity | by left] ] ].

Ltac seats := steps no_new_seat_refl no_new_seat_trans seat_leaf.

Lemma seats_processTurn la : preserves no_new_seat (processTurn la).
Proof. unfold processTurn. seats. Qed.

Lemma seats_startGame la ps : preserves no_new_seat (startGame la ps).
Proof. pose proof seats_processTurn. unfold startGame. seats. Qed.

Lemma seats_determineWinner la : preserves no_new_seat (determineWinner la).
Proof. pose proof seats_startGame. unfold determineWinner. seats. Qed.

Lemma seats_performRoll la a isAuto : preserves no_new_seat (performRoll la a isAuto).
Proof. unfold performRoll. seats. Qed.

Lemma seats_sitAtTable s la : preserves no_new_seat (sitAtTable s la).
Proof. unfold sitAtTable. seats. Qed.

Lemma seats_leaveLobby s : preserves no_new_seat (leaveLobby s).
Proof. unfold leaveLobby. seats. Qed.

Lemma seats_run_timer act : preserves no_new_seat (run_timer act).
Proof.
  pose proof seats_performRoll. pose proof seats_determineWinner.
  pose proof seats_processTurn. destruct act; cbn [run_timer]; seats.
Qed.

Lemma seats_handle e :
  (forall q, e <> EvDb q false) -> preserves no_new_seat (handle e).
Proof.
  intros Hnot.
  pose proof seats_sitAtTable. pose proof seats_startGame. pose proof seats_performRoll.
  pose proof seats_leaveLobby. pose proof seats_run_timer.
  destruct e; cbn [handle];
    unfold on_host_set_bet, on_join_table, on_start_game, on_roll_dice,
      on_leave_lobby, on_disconnect, fire_timer;
    try (by seats).
  destruct err; [|by destruct (Hnot q)].
  unfold complete_db, run_cb, sitAtTable_cb, determineWinner_cb. seats.
Qed.

(** X25. Over any run of events without a successful completion of a
    database statement, no lobby gets a seat and no pot grows: the seated
    players are a sublist of those before, and the pot is as before or
    0. *)
Theorem seats_and_pot_grow_only_on_debit es w w' la :
  Forall (fun e => forall q, e <> EvDb q false) es ->
  run es w = Ok tt w' ->
  players (lobj w' la) `sublist_of` players (lobj w la)
  /\ (pot (lobj w' la) = pot (lobj w la) \/ pot (lobj w' la) = 0).
Proof.
  intros Hes Hrun. enough (Hseat : no_new_seat w w') by apply Hseat.
  revert w Hrun. induction Hes as [|e es He Hes IH]; intros w Hrun.
  - injection Hrun as <-. apply no_new_seat_refl.
  - cbn [run] in Hrun. unfold bind in Hrun.
    destruct (handle e w) as [[] w1|] eqn:Hstep; [|discriminate].
    apply (no_new_seat_trans w w1 w'); [|by apply IH].
    by apply (seats_handle e He w tt w1).
Qed.

Lemma seats_and_pot_grow_only_on_debit_witness :
  let w := Example.after Example.open_table in
  let es := [EvJoinTable "sB"; EvJoinTable "sC"; EvDb 1 true; EvStartGame "sA";
             EvHostSetBet "sA" "20"] in
  let w' := default w (exec (run es) w) in
  players (lobj w 0%nat) = [0%nat]
  /\ players (lobj w' 0%nat) `sublist_of` [0%nat]
  /\ map q_op (dbq w') = [Debit 20 1].
Proof.
  intros w es w'.
  assert (Hes : Forall (fun e => forall q, e <> EvDb q false) es)
    by (repeat constructor; discriminate).
  assert (Hrun : run es w = Ok tt w') by (vm_compute; reflexivity).
  destruct (seats_and_pot_grow_only_on_debit es w w' 0%nat Hes Hrun) as [Hsub _].
  split; [vm_compute; reflexivity|]. split; [exact Hsub|].
  vm_compute. reflexivity.
Defined.

(** *** Bets and pots are never negative *)

Lemma keeps_stakes_refl w : keeps_stakes w w.
Proof. by intros ?. Qed.

Lemma keeps_stakes_trans w1 w2 w3 :
  keeps_stakes w1 w2 -> keeps_stakes w2 w3 -> keeps_stakes w1 w3.
Proof. unfold keeps_stakes. auto. Qed.

Ltac stakes_leaf :=
  intros HI la'; wsimpl;
  first
    [ apply HI
    | unfold upd;
      match goal with |- context [Nat.eqb la' ?la] =>
        destruct (Nat.eqb_spec la' la) as [->|_]; [|apply HI];
        destruct (HI la)
      end;
      repeat match goal with H : (_ <=? _) = false |- _ => apply Z.leb_gt in H end;
      cbn; split; lia ].

Ltac stakes := steps keeps_stakes_refl keeps_stakes_trans stakes_leaf.

Lemma stakes_processTurn la : preserves keeps_stakes (processTurn la).
Proof. unfold processTurn. stakes. Qed.

Lemma stakes_startGame la ps : preserves keeps_stakes (startGame la ps).
Proof. pose proof stakes_processTurn. unfold startGame. stakes. Qed.

Lemma stakes_determineWinner la : preserves keeps_stakes (determineWinner la).
Proof. pose proof stakes_startGame. unfold determineWinner. stakes. Qed.

Lemma stakes_performRoll la a isAuto : preserves keeps_stakes (performRoll la a isAuto).
Proof. unfold performRoll. stakes. Qed.

Lemma stakes_sitAtTable s la : preserves keeps_stakes (sitAtTable s la).
Proof. unfold sitAtTable. stakes. Qed.

Lemma stakes_leaveLobby s : preserves keeps_stakes (leaveLobby s).
Proof. unfold leaveLobby. stakes. Qed.

Lemma stakes_run_timer act : preserves keeps_stakes (run_timer act).
Proof.
  pose proof stakes_performRoll. pose proof stakes_determineWinner.
  pose proof stakes_processTurn. destruct act; cbn [run_timer]; stakes.
Qed.

Lemma stakes_handle e : preserves keeps_stakes (handle e).
Proof.
  pose proof stakes_sitAtTable. pose proof stakes_startGame. pose proof stakes_performRoll.
  pose proof stakes_leaveLobby. pose proof stakes_run_timer.
  destruct e; cbn [handle];
    unfold on_host_set_bet, on_join_table, on_start_game, on_roll_dice,
      on_leave_lobby, on_disconnect, fire_timer, complete_db, run_cb, sitAtTable_cb,
      determineWinner_cb;
    stakes.
Qed.

(** X26. If no lobby has a negative bet or pot, none has after any run of
    events. *)
Theorem stakes_never_negative es w w' :
  stakes_ok w -> run es w = Ok tt w' -> stakes_ok w'.
Proof.
  revert w. induction es as [|e es IH]; intros w Hok Hrun.
  - by injection Hrun as <-.
  - cbn [run] in Hrun. unfold bind in Hrun.
    destruct (handle e w) as [[] w1|] eqn:Hstep; [|discriminate].
    apply (IH w1); [|exact Hrun]. by apply (stakes_handle e w tt w1).
Qed.

Lemma stakes_never_negative_witness :
  let w' := Example.after Example.round2_rolled in
  stakes_ok w' /\ (bet (lobj w' 0%nat), pot (lobj w' 0%nat)) = (100, 200).
Proof.
  intros w'.
  assert (Hok : stakes_ok Example.w0) by (intros la; split; cbn; lia).
  assert (Hrun : run Example.round2_rolled Example.w0 = Ok tt w')
    by (vm_compute; reflexivity).
  split; [exact (stakes_never_negative _ _ _ Hok Hrun)|].
  vm_compute. reflexivity.
Defined.

(** ** Moving to the next turn *)

(** X27. The advance continuation that [performRoll] schedules, when it
    fires: the turn index is incremented.  If it has reached the end of the
    turn order, [determineWinner] runs.  Otherwise, when the next
    participant is seated, the room is told whose turn it is, the turn
    timer the lobby holds is cleared, and a new one that will roll for
    that participant is armed 10000 ms ahead and stored in the lobby. *)
Theorem advance_continuation la w tm :
  NoDup (map tm_id (timers w)) ->
  tm ∈ timers w -> tm_act tm = Advance la -> tm_due tm <= now w ->
  let w1 := w_lobj (upd (lobj w) la
                      (set_turnIndex (S (turnIndex (lobj w la))) (lobj w la)))
              (w_timers (without (tm_id tm) (timers w)) (tnext w) w) in
  ((length (turnOrder (lobj w la)) <= S (turnIndex (lobj w la)))%nat ->
   handle (EvTimer (tm_id tm)) w = determineWinner la w1)
  /\ (forall pid a,
        turnOrder (lobj w la) !! S (turnIndex (lobj w la)) = Some pid ->
        find_player (pobj w) pid (players (lobj w la)) = Some a ->
        exists w',
          handle (EvTimer (tm_id tm)) w = Ok tt w'
          /\ turnIndex (lobj w' la) = S (turnIndex (lobj w la))
          /\ timer (lobj w' la) = Some (tnext w)
          /\ timers w'
             = cleared (lobj w la) (without (tm_id tm) (timers w))
               ++ [{| tm_id := tnext w; tm_due := now w + 10000; tm_act := AutoRoll la a |}]
          /\ last (outbox w')
             = Some (mkEmit (ToRoom (lobby_id (lobj w la))) "turn_notification"
                       (PTurn pid (p_nickname (pobj w a))))
          /\ pobj w' = pobj w).
Proof.
  intros Hnd Hin Hact Hdue w1. split.
  - intros Hlast. cbn [handle].
    rewrite (fire_timer_pending w tm Hnd Hin Hdue), Hact. cbn [run_timer]. msteps.
    apply Nat.leb_le in Hlast. by rewrite Hlast.
  - intros pid a Hpid Hfind. cbn [handle].
    rewrite (fire_timer_pending w tm Hnd Hin Hdue), Hact. cbn [run_timer]. msteps.
    assert (Hlen : (length (turnOrder (lobj w la)) <=? S (turnIndex (lobj w la)))%nat = false).
    { apply Nat.leb_gt. by apply lookup_lt_Some in Hpid. }
    rewrite Hlen. fold w1.
    destruct (processTurn_arms la w1 pid a) as (w' & Hrun & Hl & _ & Htm & _ & Hout & Hrest).
    { unfold w1. wsimpl. cbn. exact Hpid. }
    { unfold w1. wsimpl. cbn. exact Hfind. }
    exists w'. split; [exact Hrun|]. rewrite Hl, Htm, Hout.
    unfold w1. wsimpl. cbn.
    split; [done|]. split; [done|]. split; [done|].
    split; [by rewrite last_snoc|]. by injection Hrest as _ -> _.
Qed.

Lemma advance_continuation_witness :
  let w := Example.after (Example.started ++ [EvRollDice "sB"; EvTick 3500]) in
  exists w',
    handle (EvTimer 2) w = Ok tt w'
    /\ (turnIndex (lobj w 0%nat), turnIndex (lobj w' 0%nat)) = (0%nat, 1%nat)
    /\ timer (lobj w' 0%nat) = Some 3%nat
    /\ map tm_act (timers w') = [Reveal 0 1 2 4; AutoRoll 0 0].
Proof.
  intros w.
  assert (Hnd : NoDup (map tm_id (timers w))).
  { replace (map tm_id (timers w)) with [1%nat; 2%nat] by (vm_compute; reflexivity).
    apply NoDup_cons. split; [|apply NoDup_singleton].
    intros H. apply list_elem_of_singleton in H. discriminate. }
  assert (Hin : {| tm_id := 2; tm_due := 3500; tm_act := Advance 0 |} ∈ timers w).
  { replace (timers w) with [ {| tm_id := 1; tm_due := 1500; tm_act := Reveal 0 1 2 4 |};
                              {| tm_id := 2; tm_due := 3500; tm_act := Advance 0 |} ]
      by (vm_compute; reflexivity).
    apply elem_of_cons. right. apply elem_of_cons. by left. }
  assert (Hdue : 3500 <= now w) by (vm_compute; discriminate).
  destruct (advance_continuation 0 w _ Hnd Hin eq_refl Hdue) as (_ & Hnext).
  assert (Hpid : turnOrder (lobj w 0%nat) !! S (turnIndex (lobj w 0%nat)) = Some "sA")
    by (vm_compute; reflexivity).
  assert (Hfind : find_player (pobj w) "sA" (players (lobj w 0%nat)) = Some 0%nat)
    by (vm_compute; reflexivity).
  destruct (Hnext "sA" 0%nat Hpid Hfind) as (w' & Hrun & _).
  exists w'. split; [exact Hrun|].
  clear Hnext Hnd Hin Hdue Hpid Hfind.
  vm_compute in Hrun. injection Hrun as <-.
  repeat split; vm_compute; reflexivity.
Defined.

(** X28. With the timers in order, an accepted [roll_dice] (from the seated
    socket on turn) leaves no turn timer of that lobby pending, so the
    roller is not rolled for again when the 10 s are over; the roller's
    last roll is a sum between 2 and 12, and the timers are still in
    order. *)
Theorem roll_cancels_turn_timer s w so la a :
  turn_timers_ok w ->
  sockets w !! s = Some so -> connected so = true ->
  lobby_of s w = Some la -> on_turn s (lobj w la) ->
  find_player (pobj w) s (players (lobj w la)) = Some a ->
  exists w',
    handle (EvRollDice s) w = Ok tt w'
    /\ (forall tm b, tm ∈ timers w' -> tm_act tm <> AutoRoll la b)
    /\ (exists r, lastRoll (pobj w' a) = Some r /\ 2 <= r <= 12)
    /\ turn_timers_ok w'.
Proof.
  intros Hok Hso Hconn Hla Hturn Hfind.
  assert (Hrun : handle (EvRollDice s) w = performRoll la (Some a) false w).
  { cbn [handle]. unfold from_client, io_sockets_get. msteps. rewrite Hso, Hconn.
    destruct (on_roll_dice_cases s w so Hso) as [Hskip | (la' & Hla' & _ & Heq)].
    - exfalso. revert Hskip. unfold on_roll_dice. rewrite (bind_getSock _ _ _ _ Hso).
      rewrite (bind_Ok _ _ _ _ _ (lobby_of_sock _ _ _ Hso)), Hla.
      destruct Hturn as [Hst Hidx]. msteps. rewrite Hst, Hidx.
      cbn [GameState_eqb negb Js.str_eq_opt]. rewrite String.eqb_refl. cbn [negb].
      msteps. rewrite Hfind, performRoll_spec. intros [= Hw].
      apply (f_equal rpos) in Hw. revert Hw. wsimpl. lia.
    - assert (la' = la) by congruence. subst la'. by rewrite Heq, Hfind. }
  rewrite Hrun.
  assert (Hok' : forall w', performRoll la (Some a) false w = Ok tt w' -> turn_timers_ok w').
  { intros w' Hw'. by apply (turn_timers_performRoll la (Some a) false w tt w'). }
  rewrite performRoll_spec in *. eexists. split; [reflexivity|].
  split; [|split; [|by apply Hok']].
  - wsimpl. intros tm b Hin Hact.
    apply elem_of_app in Hin as [Hin|Hin].
    + apply elem_of_cleared in Hin as [Hin Hne].
      destruct Hok as [_ Hturns]. by rewrite (Hturns tm la b Hin Hact) in Hne.
    + apply elem_of_cons in Hin as [->|Hin]; [discriminate|].
      apply list_elem_of_singleton in Hin. subst tm. discriminate.
  - wsimpl. cbn. eexists. split; [reflexivity|].
    pose proof (die_range (entropy w (rpos w))).
    pose proof (die_range (entropy w (S (rpos w)))). lia.
Qed.

Lemma roll_cancels_turn_timer_witness :
  let w := Example.after Example.started in
  exists w',
    handle (EvRollDice "sB") w = Ok tt w'
    /\ map tm_act (timers w) = [AutoRoll 0 1]
    /\ map tm_act (timers w') = [Reveal 0 1 2 4; Advance 0].
Proof.
  intros w.
  assert (Hok0 : turn_timers_ok Example.w0).
  { split; [split; [constructor|split; [constructor|]]|].
    - intros la t Ht. discriminate.
    - intros tm la a Hin. by apply elem_of_nil in Hin. }
  assert (Hrun0 : run Example.started Example.w0 = Ok tt w) by (vm_compute; reflexivity).
  assert (Hok : turn_timers_ok w) by (by apply (turn_timers_run _ _ _ _ Hrun0)).
  assert (Hso : sockets w !! "sB" = Some (Example.sock 2 "Bob_Ray" 400))
    by (vm_compute; reflexivity).
  assert (Hla : lobby_of "sB" w = Some 0%nat) by (vm_compute; reflexivity).
  assert (Hturn : on_turn "sB" (lobj w 0%nat)) by (split; vm_compute; reflexivity).
  assert (Hfind : find_player (pobj w) "sB" (players (lobj w 0%nat)) = Some 1%nat)
    by (vm_compute; reflexivity).
  destruct (roll_cancels_turn_timer "sB" w _ 0%nat 1%nat Hok Hso eq_refl Hla Hturn Hfind)
    as (w' & Hrun & _).
  exists w'. split; [exact Hrun|].
  clear Hok Hrun0 Hso Hla Hturn Hfind.
  vm_compute in Hrun. injection Hrun as <-.
  split; vm_compute; reflexivity.
Defined.

(** ** Rolling twice *)

Lemma keeps_pending_refl w : keeps_pending w w.
Proof. by intros ?. Qed.

Lemma keeps_pending_trans w1 w2 w3 :
  keeps_pending w1 w2 -> keeps_pending w2 w3 -> keeps_pending w1 w3.
Proof.
  intros H12 H23 Hwf. destruct (H12 Hwf) as (Hwf2 & Hn2 & Hk2).
  destruct (H23 Hwf2) as (Hwf3 & Hn3 & Hk3).
  split; [done|]. split; [congruence|]. auto.
Qed.

Lemma pending_same w w' : same_timers w w' -> now w' = now w -> keeps_pending w w'.
Proof.
  intros (Ht & Hn & Hl) Hnow Hwf. split; [|split; [done|]].
  - unfold timers_wf. rewrite Ht, Hn. by eapply handles_wf_ext; [|exact Hwf].
  - intros tm Hin _. by rewrite Ht.
Qed.

Lemma pending_processTurn la : preserves keeps_pending (processTurn la).
Proof.
  intros w [] w' Hrun Hwf.
  destruct (processTurn_wf la w Hwf)
    as (w'' & t & Hrun' & Hwf' & _ & _ & _ & Hn & _ & _ & _ & _ & Hkeep).
  assert (w'' = w') by congruence. by subst w''.
Qed.

Ltac pending_leaf :=
  apply pending_same;
    [ split; [reflexivity|]; split; [reflexivity|];
      intros la'; wsimpl;
      first
        [ reflexivity
        | unfold upd;
          match goal with |- context [Nat.eqb la' ?la] =>
            by destruct (Nat.eqb_spec la' la) as [->|_]
          end ]
    | reflexivity ].

Ltac pending := steps keeps_pending_refl keeps_pending_trans pending_leaf.

Lemma pending_startGame la ps : preserves keeps_pending (startGame la ps).
Proof. pose proof pending_processTurn. unfold startGame. pending. Qed.

Lemma pending_determineWinner la : preserves keeps_pending (determineWinner la).
Proof. pose proof pending_startGame. unfold determineWinner. pending. Qed.

Lemma pending_next_or_resolve la : preserves keeps_pending (next_or_resolve la).
Proof.
  pose proof pending_processTurn. pose proof pending_determineWinner.
  unfold next_or_resolve. pending.
Qed.

Lemma timers_wf_advanced la t w : timers_wf w -> timers_wf (advanced la t w).
Proof.
  intros Hwf. unfold timers_wf, advanced. wsimpl.
  eapply handles_wf_ext; [|apply handles_wf_without, Hwf].
  intros la'. cbn beta. unfold upd.
  by destruct (Nat.eqb la' la) eqn:He; [apply Nat.eqb_eq in He as ->|].
Qed.

(** An advance continuation that is due, when its timer fires. *)
Lemma advance_fires la w tm :
  NoDup (map tm_id (timers w)) ->
  tm ∈ timers w -> tm_act tm = Advance la -> tm_due tm <= now w ->
  handle (EvTimer (tm_id tm)) w = next_or_resolve la (advanced la (tm_id tm) w).
Proof.
  intros Hnd Hin Hact Hdue. cbn [handle].
  rewrite (fire_timer_pending w tm Hnd Hin Hdue), Hact. cbn [run_timer].
  unfold next_or_resolve, advanced. by msteps.
Qed.

(** A [roll_dice] message of the seated socket on turn is a roll. *)
Lemma roll_dice_on_turn s w so la a :
  sockets w !! s = Some so -> connected so = true ->
  lobby_of s w = Some la -> on_turn s (lobj w la) ->
  find_player (pobj w) s (players (lobj w la)) = Some a ->
  handle (EvRollDice s) w = performRoll la (Some a) false w.
Proof.
  intros Hso Hc Hla [Hst Hidx] Hfind.
  cbn [handle]. unfold from_client, io_sockets_get. msteps. rewrite Hso, Hc.
  unfold on_roll_dice. rewrite (bind_getSock _ _ _ _ Hso).
  rewrite (bind_Ok _ _ _ _ _ (lobby_of_sock _ _ _ Hso)), Hla. msteps.
  apply GameState_eqb_spec in Hst. rewrite Hst. cbn [negb].
  apply str_eq_opt_spec in Hidx. rewrite Hidx. cbn [negb]. msteps.
  by rewrite Hfind.
Qed.

(** C10. A roll of the socket on turn leaves the lobby object, and so the
    turn index, as it was, and leaves an advance continuation pending, due
    3500 later.  A second roll by the same socket, any time [d] later and
    before that continuation has fired, is accepted: it overwrites the last
    roll with two new dice and leaves a second advance continuation
    pending.  Each fires once it is due, the first [d1] after the second
    roll and the second [d2] after the first.  The first increments the
    turn index and goes on with the [if] of the continuation: the next
    turn, or the resolution when the roller was last in the turn order.
    Whatever world that leaves, the second is still pending there and,
    when it fires, increments the turn index once more and goes on in the
    same way.  When the roller was not the last, the second continuation goes
    on with the index two above the roller's, the turn order and the seats
    as they were, and every player but the roller as before the first
    roll: the participant in between has lost the turn (when that
    participant was the last, as in a round of two, it is the resolution
    that runs on that world).  With at least two more entries in the turn
    order no resolution comes in between, and the index ends two above the
    roller's. *)
Theorem double_roll_advances_twice s w so la a d :
  sockets w !! s = Some so -> connected so = true ->
  lobby_of s w = Some la -> on_turn s (lobj w la) ->
  find_player (pobj w) s (players (lobj w la)) = Some a ->
  timers_wf w ->
  let n := tnext w in
  let idx := turnIndex (lobj w la) in
  let advance1 := {| tm_id := S n; tm_due := now w + 3500; tm_act := Advance la |} in
  let advance2 := {| tm_id := S (S (S n)); tm_due := now w + Z.max 0 d + 3500;
                     tm_act := Advance la |} in
  exists w1 w2,
    handle (EvRollDice s) w = Ok tt w1
    /\ lobj w1 = lobj w
    /\ advance1 ∈ timers w1
    /\ lastRoll (pobj w1 a)
       = Some (die (entropy w (rpos w)) + die (entropy w (S (rpos w))))
    /\ run [EvTick d; EvRollDice s] w1 = Ok tt w2
    /\ lobj w2 = lobj w
    /\ lastRoll (pobj w2 a)
       = Some (die (entropy w (S (S (rpos w)))) + die (entropy w (S (S (S (rpos w))))))
    /\ advance1 ∈ timers w2 /\ advance2 ∈ timers w2
    /\ forall d1 d2,
         3500 <= Z.max 0 d + Z.max 0 d1 -> 3500 <= Z.max 0 d1 + Z.max 0 d2 ->
         exists w3,
           handle (EvTick d1) w2 = Ok tt w3
           /\ handle (EvTimer (S n)) w3 = next_or_resolve la (advanced la (S n) w3)
           /\ turnIndex (lobj (advanced la (S n) w3) la) = S idx
           /\ (forall w4,
                 next_or_resolve la (advanced la (S n) w3) = Ok tt w4 ->
                 exists w5,
                   handle (EvTick d2) w4 = Ok tt w5
                   /\ handle (EvTimer (S (S (S n)))) w5
                      = next_or_resolve la (advanced la (S (S (S n))) w5)
                   /\ turnIndex (lobj (advanced la (S (S (S n))) w5) la)
                      = S (turnIndex (lobj w4 la)))
           /\ ((S idx < length (turnOrder (lobj w la)))%nat ->
               exists w4 w5,
                 handle (EvTimer (S n)) w3 = Ok tt w4
                 /\ handle (EvTick d2) w4 = Ok tt w5
                 /\ turnIndex (lobj (advanced la (S (S (S n))) w5) la) = S (S idx)
                 /\ turnOrder (lobj (advanced la (S (S (S n))) w5) la)
                    = turnOrder (lobj w la)
                 /\ players (lobj (advanced la (S (S (S n))) w5) la)
                    = players (lobj w la)
                 /\ forall b, b <> a -> pobj (advanced la (S (S (S n))) w5) b = pobj w b)
           /\ ((S (S idx) < length (turnOrder (lobj w la)))%nat ->
               exists w',
                 run [EvTick d1; EvTimer (S n); EvTick d2; EvTimer (S (S (S n)))] w2
                 = Ok tt w'
                 /\ turnIndex (lobj w' la) = S (S idx)
                 /\ turnOrder (lobj w' la) = turnOrder (lobj w la)
                 /\ forall b, b <> a -> pobj w' b = pobj w b).
Proof.
  intros Hso Hc Hla Hturn Hfind Hwf n idx advance1 advance2.
  pose proof (roll_dice_on_turn s w so la a Hso Hc Hla Hturn Hfind) as Hrun1.
  rewrite performRoll_spec in Hrun1.
  match type of Hrun1 with _ = Ok tt ?x => set (w1 := x) in * end.
  assert (Hwf1 : timers_wf w1).
  { eapply (timers_wf_roll la a false w); [done|]. by rewrite performRoll_spec. }
  set (w1' := w_now (now w1 + Z.max 0 d) w1).
  assert (Hwf1' : timers_wf w1') by exact Hwf1.
  assert (Hrun2 : handle (EvRollDice s) w1' = performRoll la (Some a) false w1').
  { apply (roll_dice_on_turn s w1' so la a); try done.
    change (pobj w1') with (upd (pobj w) a
      (set_lastRoll (Some (die (entropy w (rpos w)) + die (entropy w (S (rpos w)))))
                    (pobj w a))).
    change (lobj w1' la) with (lobj w la).
    by rewrite find_player_roll. }
  rewrite performRoll_spec in Hrun2.
  match type of Hrun2 with _ = Ok tt ?x => set (w2 := x) in * end.
  assert (Hwf2 : timers_wf w2).
  { eapply (timers_wf_roll la a false w1'); [done|]. by rewrite performRoll_spec. }
  exists w1, w2.
  split; [exact Hrun1|]. split; [reflexivity|].
  assert (Hin1 : advance1 ∈ timers w1).
  { subst w1. wsimpl. apply elem_of_app. right. apply elem_of_cons. right.
    by apply list_elem_of_singleton. }
  split; [exact Hin1|].
  split; [subst w1; wsimpl; reflexivity|].
  split.
  { cbn [run]. rewrite (bind_Ok (handle (EvTick d)) _ w1 tt w1') by reflexivity.
    by rewrite (bind_Ok _ _ _ _ _ Hrun2). }
  split; [reflexivity|].
  split; [subst w2 w1' w1; wsimpl; reflexivity|].
  assert (Hin2 : advance1 ∈ timers w2).
  { subst w2. wsimpl. apply elem_of_app. left.
    unfold cleared. change (lobj w1' la) with (lobj w la).
    change (timers w1') with (timers w1).
    destruct (timer (lobj w la)) as [t|] eqn:Ht; [|exact Hin1].
    apply elem_of_without. split; [exact Hin1|].
    destruct Hwf as (_ & _ & Hh). destruct (Hh la t Ht) as [Hlt _].
    cbn [tm_id advance1]. subst n. lia. }
  assert (Hin2' : advance2 ∈ timers w2).
  { subst w2. wsimpl. apply elem_of_app. right. apply elem_of_cons. right.
    by apply list_elem_of_singleton. }
  split; [exact Hin2|]. split; [exact Hin2'|].
  intros d1 d2 Hd1 Hd2.
  set (w3 := w_now (now w2 + Z.max 0 d1) w2).
  assert (Hwf3 : timers_wf w3) by exact Hwf2.
  assert (Hnow3 : now w3 = now w + Z.max 0 d + Z.max 0 d1).
  { subst w3 w2 w1' w1. wsimpl. reflexivity. }
  assert (Hdue1 : tm_due advance1 <= now w3).
  { rewrite Hnow3. cbn [tm_due advance1]. lia. }
  pose proof (advance_fires la w3 advance1 (proj1 Hwf3) Hin2 eq_refl Hdue1) as Hfire1.
  change (tm_id advance1) with (S n) in Hfire1.
  set (w3' := advanced la (S n) w3) in *.
  assert (Hwf3' : timers_wf w3') by (by apply timers_wf_advanced).
  assert (Hin3' : advance2 ∈ timers w3').
  { unfold w3', advanced. wsimpl. apply elem_of_without. split; [exact Hin2'|].
    cbn [tm_id advance2]. lia. }
  assert (Hdue2 : forall w4, now w4 = now w3 ->
            tm_due advance2 <= now (w_now (now w4 + Z.max 0 d2) w4)).
  { intros w4 Hn4. wsimpl. rewrite Hn4, Hnow3. cbn [tm_due advance2]. lia. }
  exists w3. split; [reflexivity|]. split; [exact Hfire1|].
  split; [unfold w3', advanced; wsimpl; lsimpl; reflexivity|].
  split.
  { intros w4 Hrun4.
    destruct (pending_next_or_resolve la w3' tt w4 Hrun4 Hwf3') as (Hwf4 & Hn4 & Hk4).
    set (w5 := w_now (now w4 + Z.max 0 d2) w4).
    assert (Hin5 : advance2 ∈ timers w5).
    { apply Hk4; [exact Hin3'|]. unfold advance2. cbn. tauto. }
    exists w5. split; [reflexivity|]. split.
    - apply (advance_fires la w5 advance2 (proj1 Hwf4) Hin5 eq_refl).
      apply Hdue2. rewrite Hn4. reflexivity.
    - unfold advanced. wsimpl. lsimpl. reflexivity. }
  assert (Hnext : (S idx < length (turnOrder (lobj w la)))%nat ->
    exists w4 t,
      handle (EvTimer (S n)) w3 = Ok tt w4
      /\ timers_wf w4 /\ advance2 ∈ timers w4 /\ now w4 = now w3
      /\ lobj w4 la = set_timer t (set_turnIndex (S idx) (lobj w la))
      /\ pobj w4 = pobj w2).
  { intros Hlen. rewrite Hfire1. unfold next_or_resolve. msteps.
    assert (Hl3 : lobj w3' la = set_turnIndex (S idx) (lobj w la)).
    { unfold w3', advanced. wsimpl. reflexivity. }
    rewrite Hl3. lsimpl.
    assert (Hin_range : (length (turnOrder (lobj w la)) <=? S idx)%nat = false)
      by (apply Nat.leb_gt; lia).
    rewrite Hin_range.
    destruct (processTurn_wf la w3' Hwf3')
      as (w4 & t & Hrun4 & Hwf4 & Hl4 & _ & Hp4 & Hn4 & _ & _ & _ & _ & Hkeep4).
    exists w4, t. split; [exact Hrun4|]. split; [exact Hwf4|].
    split; [apply Hkeep4; [exact Hin3'|unfold advance2; cbn; tauto]|].
    split; [exact Hn4|].
    split; [by rewrite Hl4, Hl3|]. exact Hp4. }
  assert (Hp2 : forall b, b <> a -> pobj w2 b = pobj w b).
  { intros b Hne. subst w2 w1' w1. wsimpl. by rewrite !upd_ne. }
  split.
  { intros Hlen. destruct (Hnext Hlen) as (w4 & t & Hrun4 & _ & _ & _ & Hl4 & Hp4).
    exists w4, (w_now (now w4 + Z.max 0 d2) w4).
    split; [exact Hrun4|]. split; [reflexivity|].
    unfold advanced. wsimpl. rewrite Hl4. lsimpl.
    split; [reflexivity|]. split; [reflexivity|]. split; [reflexivity|].
    intros b Hne. rewrite Hp4. by apply Hp2. }
  intros Hlen.
  destruct (Hnext ltac:(lia)) as (w4 & t & Hrun4 & Hwf4 & Hin4 & Hn4 & Hl4 & Hp4).
  set (w5 := w_now (now w4 + Z.max 0 d2) w4).
  assert (Hwf5 : timers_wf w5) by exact Hwf4.
  assert (Hlen5 : (S (turnIndex (lobj w5 la)) < length (turnOrder (lobj w5 la)))%nat).
  { change (lobj w5 la) with (lobj w4 la). rewrite Hl4. lsimpl. fold idx. lia. }
  destruct (advance_step la w5 advance2 Hwf5 Hin4 eq_refl (Hdue2 w4 Hn4) Hlen5)
    as (w6 & t6 & Hrun6 & _ & Hl6 & Hp6 & _).
  exists w6. cbn [run].
  rewrite (bind_Ok (handle (EvTick d1)) _ w2 tt w3) by reflexivity.
  rewrite (bind_Ok _ _ _ _ _ Hrun4).
  rewrite (bind_Ok (handle (EvTick d2)) _ w4 tt w5) by reflexivity.
  change (tm_id advance2) with (S (S (S n))) in Hrun6. rewrite (bind_Ok _ _ _ _ _ Hrun6).
  split; [reflexivity|]. rewrite Hl6. change (lobj w5 la) with (lobj w4 la).
  rewrite Hl4. lsimpl.
  split; [reflexivity|]. split; [reflexivity|].
  intros b Hne. rewrite Hp6. change (pobj w5) with (pobj w4). rewrite Hp4. by apply Hp2.
Qed.

Lemma double_roll_advances_twice_witness :
  let w := Example.after Example.started in
  (turnOrder (lobj w 0%nat), turnIndex (lobj w 0%nat)) = (["sB"; "sA"], 0%nat)
  /\ exists w1 w2 w3 w4 w5,
      handle (EvRollDice "sB") w = Ok tt w1
      /\ run [EvTick 1000; EvRollDice "sB"] w1 = Ok tt w2
      /\ handle (EvTick 2500) w2 = Ok tt w3
      /\ handle (EvTimer 2) w3 = Ok tt w4
      /\ handle (EvTick 1000) w4 = Ok tt w5
      /\ handle (EvTimer 4) w5 = next_or_resolve 0 (advanced 0 4 w5)
      /\ turnIndex (lobj (advanced 0 4 w5) 0%nat) = 2%nat
      /\ pobj (advanced 0 4 w5) 0%nat
         = {| p_id := "sA"; p_nickname := "Ann_Lee"; lastRoll := None |}
      /\ exists w6,
           handle (EvTimer 4) w5 = Ok tt w6
           /\ (state (lobj w6 0%nat), lastWinnerId (lobj w6 0%nat)) = (FINISHED, Some "sB").
Proof.
  intros w. split; [vm_compute; reflexivity|].
  assert (Hso : sockets w !! "sB" = Some (Example.sock 2 "Bob_Ray" 400))
    by (vm_compute; reflexivity).
  assert (Hla : lobby_of "sB" w = Some 0%nat) by (vm_compute; reflexivity).
  assert (Hturn : on_turn "sB" (lobj w 0%nat)) by (split; vm_compute; reflexivity).
  assert (Hfind : find_player (pobj w) "sB" (players (lobj w 0%nat)) = Some 1%nat)
    by (vm_compute; reflexivity).
  assert (Hwf : timers_wf w).
  { split; [|split].
    - vm_compute. apply NoDup_singleton.
    - vm_compute. apply Forall_singleton. lia.
    - intros la t Ht. destruct la as [|la]; vm_compute in Ht; [|discriminate].
      injection Ht as <-. split; [vm_compute; lia|].
      intros tm Hin _. vm_compute in Hin. apply list_elem_of_singleton in Hin as ->.
      exact I. }
  destruct (double_roll_advances_twice "sB" w _ 0 1 1000 Hso eq_refl Hla Hturn Hfind Hwf)
    as (w1 & w2 & Hrun1 & _ & _ & _ & Hrun2 & _ & _ & _ & _ & Hfire).
  destruct (Hfire 2500 1000 ltac:(lia) ltac:(lia))
    as (w3 & Htick & Hfire1 & _ & Hsecond & Hnext & _).
  destruct Hnext as (w4 & w5 & Hrun4 & Htick5 & Hidx & _ & _ & Hrest); [vm_compute; lia|].
  assert (Hn : tnext w = 1%nat) by (vm_compute; reflexivity).
  rewrite Hn in *.
  exists w1, w2, w3, w4, w5.
  split; [exact Hrun1|]. split; [exact Hrun2|]. split; [exact Htick|].
  split; [exact Hrun4|]. split; [exact Htick5|]. split.
  { destruct (Hsecond w4) as (w5' & Htick5' & Hfire2 & _);
      [rewrite <- Hfire1; exact Hrun4|].
    assert (w5' = w5) by congruence. by subst w5'. }
  split; [rewrite Hidx; vm_compute; reflexivity|].
  split; [rewrite Hrest by lia; vm_compute; reflexivity|].
  clear Hso Hla Hturn Hfind Hwf Hfire Hfire1 Hsecond Hidx Hrest Hn.
  vm_compute in Hrun1. injection Hrun1 as <-.
  vm_compute in Hrun2. injection Hrun2 as <-.
  vm_compute in Htick. injection Htick as <-.
  vm_compute in Hrun4. injection Hrun4 as <-.
  vm_compute in Htick5. injection Htick5 as <-.
  eexists. split; vm_compute; reflexivity.
Defined.
